(** * State aggregation engine of the Uniswap v4 indexer

    Shallow embedding of [src/handlers/swap-handler.ts] (the Swap and the
    ModifyLiquidity loaders with [updateTicks]) and of the token metadata
    resolver ([getTokenMetadata], [fetchTokenMetadataMulticall]).

    - [BigDecimal] values are exact rationals ([Qc]): [plus], [minus] and
      [times] are exact on decimals, and [div] is the exact quotient.
      [bigint] values are [Z].
    - The persistence layer is a record of finite maps keyed by entity id.
    - A loader is a function from the handler state (the store and the log of
      the [set] calls) to a result that either returns or throws.
    - The events of a chain are processed in order, each by the committing
      pass of its loader; an event whose loader throws leaves the store as
      it was. *)

From Stdlib Require Import ZArith QArith Qcanon Qcabs String Ascii List Lia.
From stdpp Require Import base tactics option numbers strings pretty gmap fin_maps.

Local Open Scope Z_scope.
Local Open Scope string_scope.

(** ** BigDecimal *)

Abbreviation BigDecimal := Qc.

Module BD.

(** [new BigDecimal(n.toString())] for a bigint [n]. *)
Definition ofZ (z : Z) : BigDecimal := Q2Qc (inject_Z z).

Definition zero : BigDecimal := ofZ 0.
Definition one : BigDecimal := ofZ 1.

Definition plus (a b : BigDecimal) : BigDecimal := (a + b)%Qc.
Definition minus (a b : BigDecimal) : BigDecimal := (a - b)%Qc.
Definition times (a b : BigDecimal) : BigDecimal := (a * b)%Qc.
Definition div (a b : BigDecimal) : BigDecimal := (a / b)%Qc.

Definition lt (a b : BigDecimal) : bool := bool_decide (a < b)%Qc.
Definition gt (a b : BigDecimal) : bool := bool_decide (b < a)%Qc.
Definition isZero (a : BigDecimal) : bool := bool_decide (a = zero).

End BD.

(** Modelled from the spec: [convertTokenToDecimal] of utils/index, the
    raw-integer-to-decimal conversion that divides a signed integer quantity
    by [10^decimals]. *)
Definition convertTokenToDecimal (tokenAmount : Z) (exchangeDecimals : Z) : BigDecimal :=
  BD.div (BD.ofZ tokenAmount) (BD.ofZ (10 ^ exchangeDecimals)).

(** Modelled from the spec: [safeDiv] of utils/index, which returns the zero
    value when the divisor is exactly zero and the quotient otherwise. *)
Definition safeDiv (a b : BigDecimal) : BigDecimal :=
  if BD.isZero b then BD.zero else BD.div a b.

(** ** Strings: template ids *)

(** [s.startsWith(p)]. *)
Fixpoint startsWith (p s : string) : bool :=
  match p, s with
  | EmptyString, _ => true
  | String a p', String b s' => if Ascii.eqb a b then startsWith p' s' else false
  | String _ _, EmptyString => false
  end.

(** The template string [`${chainId}_${rest}`]. *)
Definition chainKey (chainId : Z) (rest : string) : string :=
  pretty chainId +:+ "_" +:+ rest.

(** The prefix that qualifies the ids of the entities of one chain. *)
Definition chainPrefix (chainId : Z) : string := pretty chainId +:+ "_".

(** [poolId + "#" + BigInt(tick).toString()]. *)
Definition tickId (poolId : string) (tick : Z) : string :=
  poolId +:+ "#" +:+ pretty tick.

Definition ADDRESS_ZERO : string := "0x0000000000000000000000000000000000000000".

(** ** Entities

    The entity types come from the generated schema; each record lists the
    fields that the handlers read or write. A spread [{...e, f: v}] is the
    record rebuilt with [f] replaced. *)

Module Bundle.
Record t := mk { id : string; ethPriceUSD : BigDecimal }.
End Bundle.

Module Token.
Record t := mk {
  id : string;
  name : string;
  symbol : string;
  decimals : Z;
  derivedETH : BigDecimal;
  totalValueLocked : BigDecimal
}.

Definition with_derivedETH (v : BigDecimal) (x : t) : t :=
  mk (id x) (name x) (symbol x) (decimals x) v (totalValueLocked x).

Definition with_totalValueLocked (v : BigDecimal) (x : t) : t :=
  mk (id x) (name x) (symbol x) (decimals x) (derivedETH x) v.
End Token.

Module Pool.
Record t := mk {
  id : string;
  token0 : string;
  token1 : string;
  hooks : string;
  feeTier : Z;
  sqrtPrice : option Z;
  tick : option Z;
  liquidity : Z;
  token0Price : BigDecimal;
  token1Price : BigDecimal;
  txCount : Z;
  volumeToken0 : BigDecimal;
  volumeToken1 : BigDecimal;
  volumeUSD : BigDecimal;
  untrackedVolumeUSD : BigDecimal;
  feesUSD : BigDecimal;
  feesUSDUntracked : BigDecimal;
  collectedFeesToken0 : BigDecimal;
  collectedFeesToken1 : BigDecimal;
  collectedFeesUSD : BigDecimal;
  totalValueLockedToken0 : BigDecimal;
  totalValueLockedToken1 : BigDecimal;
  totalValueLockedETH : BigDecimal;
  totalValueLockedUSD : BigDecimal
}.

Definition with_totalValueLockedTokens (v0 v1 : BigDecimal) (x : t) : t :=
  mk (id x) (token0 x) (token1 x) (hooks x) (feeTier x) (sqrtPrice x) (tick x)
     (liquidity x) (token0Price x) (token1Price x) (txCount x)
     (volumeToken0 x) (volumeToken1 x) (volumeUSD x) (untrackedVolumeUSD x)
     (feesUSD x) (feesUSDUntracked x) (collectedFeesToken0 x)
     (collectedFeesToken1 x) (collectedFeesUSD x)
     v0 v1 (totalValueLockedETH x) (totalValueLockedUSD x).

Definition with_liquidity (v : Z) (x : t) : t :=
  mk (id x) (token0 x) (token1 x) (hooks x) (feeTier x) (sqrtPrice x) (tick x)
     v (token0Price x) (token1Price x) (txCount x)
     (volumeToken0 x) (volumeToken1 x) (volumeUSD x) (untrackedVolumeUSD x)
     (feesUSD x) (feesUSDUntracked x) (collectedFeesToken0 x)
     (collectedFeesToken1 x) (collectedFeesUSD x)
     (totalValueLockedToken0 x) (totalValueLockedToken1 x)
     (totalValueLockedETH x) (totalValueLockedUSD x).

Definition with_totalValueLockedETH (v : BigDecimal) (x : t) : t :=
  mk (id x) (token0 x) (token1 x) (hooks x) (feeTier x) (sqrtPrice x) (tick x)
     (liquidity x) (token0Price x) (token1Price x) (txCount x)
     (volumeToken0 x) (volumeToken1 x) (volumeUSD x) (untrackedVolumeUSD x)
     (feesUSD x) (feesUSDUntracked x) (collectedFeesToken0 x)
     (collectedFeesToken1 x) (collectedFeesUSD x)
     (totalValueLockedToken0 x) (totalValueLockedToken1 x)
     v (totalValueLockedUSD x).

Definition with_totalValueLockedUSD (v : BigDecimal) (x : t) : t :=
  mk (id x) (token0 x) (token1 x) (hooks x) (feeTier x) (sqrtPrice x) (tick x)
     (liquidity x) (token0Price x) (token1Price x) (txCount x)
     (volumeToken0 x) (volumeToken1 x) (volumeUSD x) (untrackedVolumeUSD x)
     (feesUSD x) (feesUSDUntracked x) (collectedFeesToken0 x)
     (collectedFeesToken1 x) (collectedFeesUSD x)
     (totalValueLockedToken0 x) (totalValueLockedToken1 x)
     (totalValueLockedETH x) v.
End Pool.

Module PoolManager.
Record t := mk {
  id : string;
  txCount : Z;
  totalVolumeETH : BigDecimal;
  totalVolumeUSD : BigDecimal;
  untrackedVolumeUSD : BigDecimal;
  totalFeesETH : BigDecimal;
  totalFeesUSD : BigDecimal;
  totalValueLockedETH : BigDecimal;
  totalValueLockedUSD : BigDecimal;
  numberOfSwaps : Z;
  hookedSwaps : Z
}.

Definition with_totalValueLockedUSD (v : BigDecimal) (x : t) : t :=
  mk (id x) (txCount x) (totalVolumeETH x) (totalVolumeUSD x)
     (untrackedVolumeUSD x) (totalFeesETH x) (totalFeesUSD x)
     (totalValueLockedETH x) v (numberOfSwaps x) (hookedSwaps x).

Definition with_swapCounts (n h : Z) (x : t) : t :=
  mk (id x) (txCount x) (totalVolumeETH x) (totalVolumeUSD x)
     (untrackedVolumeUSD x) (totalFeesETH x) (totalFeesUSD x)
     (totalValueLockedETH x) (totalValueLockedUSD x) n h.
End PoolManager.

Module HookStats.
Record t := mk {
  id : string;
  numberOfSwaps : Z;
  totalVolumeUSD : BigDecimal;
  untrackedVolumeUSD : BigDecimal;
  totalFeesUSD : BigDecimal;
  totalValueLockedUSD : BigDecimal
}.

Definition with_totalValueLockedUSD (v : BigDecimal) (x : t) : t :=
  mk (id x) (numberOfSwaps x) (totalVolumeUSD x) (untrackedVolumeUSD x)
     (totalFeesUSD x) v.
End HookStats.

Module Tick.
Record t := mk {
  id : string;
  tickIdx : Z;
  pool_id : string;
  chainId : Z;
  createdAtTimestamp : Z;
  createdAtBlockNumber : Z;
  liquidityGross : Z;
  liquidityNet : Z
}.

Definition with_liquidity (gross net : Z) (x : t) : t :=
  mk (id x) (tickIdx x) (pool_id x) (chainId x) (createdAtTimestamp x)
     (createdAtBlockNumber x) gross net.
End Tick.

Module Swap.
Record t := mk {
  id : string;
  chainId : Z;
  transaction : string;
  timestamp : Z;
  pool : string;
  token0_id : string;
  token1_id : string;
  sender : string;
  origin : string;
  amount0 : BigDecimal;
  amount1 : BigDecimal;
  amountUSD : BigDecimal;
  sqrtPriceX96 : Z;
  tick : Z;
  logIndex : Z
}.
End Swap.

Module ModifyLiquidity.
Record t := mk {
  id : string;
  chainId : Z;
  transaction : string;
  timestamp : Z;
  pool_id : string;
  token0_id : string;
  token1_id : string;
  sender : string;
  origin : string;
  amount : Z;
  amount0 : BigDecimal;
  amount1 : BigDecimal;
  amountUSD : BigDecimal;
  tickLower : Z;
  tickUpper : Z;
  logIndex : Z
}.
End ModifyLiquidity.

(** Modelled from the spec: [createInitialTick] of utils/tick. A tick record
    is created lazily the first time a liquidity event references it, with
    its originating block and time and no liquidity yet. *)
Definition createInitialTick (tickId : string) (tickIdx : Z) (poolId : string)
    (chainId timestamp blockNumber : Z) : Tick.t :=
  Tick.mk tickId tickIdx poolId chainId timestamp blockNumber 0 0.

(** ** Events *)

Module SwapEvent.
Record t := mk {
  chainId : Z;
  srcAddress : string;
  blockNumber : Z;
  blockTimestamp : Z;
  transactionHash : string;
  transactionFrom : option string;
  logIndex : Z;
  id : string;
  sender : string;
  amount0 : Z;
  amount1 : Z;
  sqrtPriceX96 : Z;
  liquidity : Z;
  tick : Z
}.
End SwapEvent.

Module ModifyLiquidityEvent.
Record t := mk {
  chainId : Z;
  srcAddress : string;
  blockNumber : Z;
  blockTimestamp : Z;
  transactionHash : string;
  transactionFrom : option string;
  logIndex : Z;
  id : string;
  sender : string;
  tickLower : Z;
  tickUpper : Z;
  liquidityDelta : Z
}.
End ModifyLiquidityEvent.

(** [event.transaction.from || "NONE"]. *)
Definition orNONE (from : option string) : string :=
  match from with
  | Some (String a s) => String a s
  | _ => "NONE"
  end.

(** ** Chain configuration (utils/chains) *)

Record NativeTokenDetails := {
  nativeSymbol : string;
  nativeName : string;
  nativeDecimals : Z
}.

Record TokenOverride := {
  overrideAddress : string;
  overrideSymbol : string;
  overrideName : string;
  overrideDecimals : Z
}.

Record ChainConfig := {
  poolsToSkip : list string;
  wrappedNativeAddress : string;
  stablecoinAddresses : list string;
  minimumNativeLocked : BigDecimal;
  stablecoinWrappedNativePoolId : string;
  stablecoinIsToken0 : bool;
  nativeTokenDetails : NativeTokenDetails;
  whitelistTokens : list string;
  tokenOverrides : list TokenOverride
}.

(** ** Persistence and the loader monad *)

Record Store := {
  poolManagers : gmap string PoolManager.t;
  pools : gmap string Pool.t;
  bundles : gmap string Bundle.t;
  tokens : gmap string Token.t;
  hookStatsOf : gmap string HookStats.t;
  ticks : gmap string Tick.t;
  swaps : gmap string Swap.t;
  modifyLiquidities : gmap string ModifyLiquidity.t
}.

(** One [context.<Entity>.set(e)] call. *)
Inductive Write :=
| SetBundle (x : Bundle.t)
| SetPool (x : Pool.t)
| SetPoolManager (x : PoolManager.t)
| SetSwap (x : Swap.t)
| SetToken (x : Token.t)
| SetHookStats (x : HookStats.t)
| SetTick (x : Tick.t)
| SetModifyLiquidity (x : ModifyLiquidity.t).

(** [set] is an upsert under the entity's own id. *)
Definition applyWrite (w : Write) (s : Store) : Store :=
  match w with
  | SetBundle x =>
      Build_Store (poolManagers s) (pools s) (<[Bundle.id x := x]> (bundles s))
        (tokens s) (hookStatsOf s) (ticks s) (swaps s) (modifyLiquidities s)
  | SetPool x =>
      Build_Store (poolManagers s) (<[Pool.id x := x]> (pools s)) (bundles s)
        (tokens s) (hookStatsOf s) (ticks s) (swaps s) (modifyLiquidities s)
  | SetPoolManager x =>
      Build_Store (<[PoolManager.id x := x]> (poolManagers s)) (pools s) (bundles s)
        (tokens s) (hookStatsOf s) (ticks s) (swaps s) (modifyLiquidities s)
  | SetSwap x =>
      Build_Store (poolManagers s) (pools s) (bundles s)
        (tokens s) (hookStatsOf s) (ticks s) (<[Swap.id x := x]> (swaps s))
        (modifyLiquidities s)
  | SetToken x =>
      Build_Store (poolManagers s) (pools s) (bundles s)
        (<[Token.id x := x]> (tokens s)) (hookStatsOf s) (ticks s) (swaps s)
        (modifyLiquidities s)
  | SetHookStats x =>
      Build_Store (poolManagers s) (pools s) (bundles s)
        (tokens s) (<[HookStats.id x := x]> (hookStatsOf s)) (ticks s) (swaps s)
        (modifyLiquidities s)
  | SetTick x =>
      Build_Store (poolManagers s) (pools s) (bundles s)
        (tokens s) (hookStatsOf s) (<[Tick.id x := x]> (ticks s)) (swaps s)
        (modifyLiquidities s)
  | SetModifyLiquidity x =>
      Build_Store (poolManagers s) (pools s) (bundles s)
        (tokens s) (hookStatsOf s) (ticks s) (swaps s)
        (<[ModifyLiquidity.id x := x]> (modifyLiquidities s))
  end.

Definition applyWrites (ws : list Write) (s : Store) : Store :=
  fold_left (fun acc w => applyWrite w acc) ws s.

(** The state a loader runs in: the store, and the [set] calls made so far. *)
Record State := { db : Store; log : list Write }.

Inductive Result (A : Type) :=
| Returned (a : A) (st : State)
| Thrown (msg : string) (st : State).
Arguments Returned {A} a st.
Arguments Thrown {A} msg st.

Definition Loader (A : Type) : Type := State -> Result A.

Definition ret {A} (a : A) : Loader A := fun st => Returned a st.

Definition bind {A B} (m : Loader A) (k : A -> Loader B) : Loader B :=
  fun st =>
    match m st with
    | Returned a st' => k a st'
    | Thrown msg st' => Thrown msg st'
    end.

Notation "'let*' x ':=' m 'in' k" := (bind m (fun x => k))
  (at level 10, x name, m at level 100, k at level 200).

(** A read of the store by a helper that receives [context]. *)
Definition reads {A} (f : Store -> A) : Loader A := fun st => Returned (f (db st)) st.

(** [context.<Entity>.get(key)]. *)
Definition get {A} (table : Store -> gmap string A) (key : string) : Loader (option A) :=
  reads (fun s => table s !! key).

(** The error of a [getOrThrow] that finds nothing. *)
Definition notFound (key : string) : string :=
  "Entity with id " +:+ key +:+ " is expected to exist".

(** [context.<Entity>.getOrThrow(key)]. *)
Definition getOrThrow {A} (table : Store -> gmap string A) (key : string) : Loader A :=
  fun st =>
    match table (db st) !! key with
    | Some x => Returned x st
    | None => Thrown (notFound key) st
    end.

(** [context.<Entity>.set(e)]. *)
Definition set (w : Write) : Loader unit :=
  fun st => Returned tt {| db := applyWrite w (db st); log := log st ++ [w] |}.

(** The state after the [set] calls [ws], in their order. *)
Definition extend (st : State) (ws : list Write) : State :=
  {| db := applyWrites ws (db st); log := log st ++ ws |}.

Fixpoint setAll (ws : list Write) : Loader unit :=
  match ws with
  | [] => ret tt
  | w :: ws' => let* _ := set w in setAll ws'
  end.

(** ** Helpers outside the modelled files

    utils/chains, utils/pricing and utils/liquidityMath are not part of the
    modelled sources. Their functions are the fields of an interface; the
    handlers and every theorem about them are stated for an arbitrary
    implementation. Helpers that take [context] read the store. *)

Class Utils := {
  getChainConfig : Z -> ChainConfig;
  findNativePerToken :
    Store -> Token.t -> string -> list string -> BigDecimal -> BigDecimal;
  getNativePriceInUSD : Store -> string -> string -> bool -> BigDecimal;
  getTrackedAmountUSD :
    Store -> BigDecimal -> Token.t -> BigDecimal -> Token.t -> string ->
    list string -> BigDecimal;
  sqrtPriceX96ToTokenPrices :
    Z -> Token.t -> Token.t -> NativeTokenDetails -> BigDecimal * BigDecimal;
  getAmount0 : Z -> Z -> Z -> Z -> Z -> Z;
  getAmount1 : Z -> Z -> Z -> Z -> Z -> Z
}.

Section Handlers.

Context {U : Utils}.

(** ** The Swap loader *)

(** The amounts a swap works with (lines 91-153 of the Swap loader). *)
Record SwapAmounts := {
  prices : BigDecimal * BigDecimal;
  amount0 : BigDecimal;
  amount1 : BigDecimal;
  amount0Abs : BigDecimal;
  amount1Abs : BigDecimal;
  amountTotalUSDTracked : BigDecimal;
  amountTotalETHTracked : BigDecimal;
  amountTotalUSDUntracked : BigDecimal;
  feesETH : BigDecimal;
  feesUSD : BigDecimal;
  feesUSDUntracked : BigDecimal;
  feesToken0 : BigDecimal;
  feesToken1 : BigDecimal
}.

(** Lines 91-153. [token0] and [token1] already carry the refreshed
    [derivedETH]; [bundle] is the bundle as loaded (or the zero default). *)
Definition swapAmounts (chainConfig : ChainConfig) (s : Store) (event : SwapEvent.t)
    (pool : Pool.t) (bundle : Bundle.t) (token0 token1 : Token.t) : SwapAmounts :=
  let prices :=
    sqrtPriceX96ToTokenPrices (SwapEvent.sqrtPriceX96 event) token0 token1
      (nativeTokenDetails chainConfig) in
  let amount0 :=
    BD.times (convertTokenToDecimal (SwapEvent.amount0 event) (Token.decimals token0))
      (BD.ofZ (-1)) in
  let amount1 :=
    BD.times (convertTokenToDecimal (SwapEvent.amount1 event) (Token.decimals token1))
      (BD.ofZ (-1)) in
  let amount0Abs :=
    if BD.lt amount0 (BD.ofZ 0) then BD.times amount0 (BD.ofZ (-1)) else amount0 in
  let amount1Abs :=
    if BD.lt amount1 (BD.ofZ 0) then BD.times amount1 (BD.ofZ (-1)) else amount1 in
  let amount0ETH := BD.times amount0Abs (Token.derivedETH token0) in
  let amount1ETH := BD.times amount1Abs (Token.derivedETH token1) in
  let amount0USD := BD.times amount0ETH (Bundle.ethPriceUSD bundle) in
  let amount1USD := BD.times amount1ETH (Bundle.ethPriceUSD bundle) in
  let trackedAmountUSD :=
    getTrackedAmountUSD s amount0Abs token0 amount1Abs token1
      (pretty (SwapEvent.chainId event)) (whitelistTokens chainConfig) in
  let amountTotalUSDTracked := BD.div trackedAmountUSD (BD.ofZ 2) in
  let amountTotalETHTracked := safeDiv amountTotalUSDTracked (Bundle.ethPriceUSD bundle) in
  let amountTotalUSDUntracked := BD.div (BD.plus amount0USD amount1USD) (BD.ofZ 2) in
  let feesETH :=
    BD.div (BD.times amountTotalETHTracked (BD.ofZ (Pool.feeTier pool))) (BD.ofZ 1000000) in
  let feesUSD :=
    BD.div (BD.times amountTotalUSDTracked (BD.ofZ (Pool.feeTier pool))) (BD.ofZ 1000000) in
  let feesUSDUntracked :=
    BD.times amountTotalUSDUntracked
      (BD.div (BD.ofZ (Pool.feeTier pool)) (BD.ofZ 1000000)) in
  let feesToken0 :=
    BD.div (BD.times amount0Abs (BD.ofZ (Pool.feeTier pool))) (BD.ofZ 1000000) in
  let feesToken1 :=
    BD.div (BD.times amount1Abs (BD.ofZ (Pool.feeTier pool))) (BD.ofZ 1000000) in
  {| prices := prices;
     amount0 := amount0;
     amount1 := amount1;
     amount0Abs := amount0Abs;
     amount1Abs := amount1Abs;
     amountTotalUSDTracked := amountTotalUSDTracked;
     amountTotalETHTracked := amountTotalETHTracked;
     amountTotalUSDUntracked := amountTotalUSDUntracked;
     feesETH := feesETH;
     feesUSD := feesUSD;
     feesUSDUntracked := feesUSDUntracked;
     feesToken0 := feesToken0;
     feesToken1 := feesToken1 |}.

(** Lines 158-187: the pool after the swap. *)
Definition swapPool (event : SwapEvent.t) (pool : Pool.t) (bundle : Bundle.t)
    (token0 token1 : Token.t) (a : SwapAmounts) : Pool.t :=
  let pool :=
    {| Pool.id := Pool.id pool;
       Pool.token0 := Pool.token0 pool;
       Pool.token1 := Pool.token1 pool;
       Pool.hooks := Pool.hooks pool;
       Pool.feeTier := Pool.feeTier pool;
       Pool.sqrtPrice := Some (SwapEvent.sqrtPriceX96 event);
       Pool.tick := Some (SwapEvent.tick event);
       Pool.liquidity := SwapEvent.liquidity event;
       Pool.token0Price := fst (prices a);
       Pool.token1Price := snd (prices a);
       Pool.txCount := Pool.txCount pool + 1;
       Pool.volumeToken0 := BD.plus (Pool.volumeToken0 pool) (amount0Abs a);
       Pool.volumeToken1 := BD.plus (Pool.volumeToken1 pool) (amount1Abs a);
       Pool.volumeUSD := BD.plus (Pool.volumeUSD pool) (amountTotalUSDTracked a);
       Pool.untrackedVolumeUSD :=
         BD.plus (Pool.untrackedVolumeUSD pool) (amountTotalUSDUntracked a);
       Pool.feesUSD := BD.plus (Pool.feesUSD pool) (feesUSD a);
       Pool.feesUSDUntracked :=
         BD.plus (Pool.feesUSDUntracked pool) (feesUSDUntracked a);
       Pool.collectedFeesToken0 :=
         BD.plus (Pool.collectedFeesToken0 pool) (feesToken0 a);
       Pool.collectedFeesToken1 :=
         BD.plus (Pool.collectedFeesToken1 pool) (feesToken1 a);
       Pool.collectedFeesUSD := BD.plus (Pool.collectedFeesUSD pool) (feesUSD a);
       Pool.totalValueLockedToken0 :=
         BD.plus (Pool.totalValueLockedToken0 pool) (amount0 a);
       Pool.totalValueLockedToken1 :=
         BD.plus (Pool.totalValueLockedToken1 pool) (amount1 a);
       Pool.totalValueLockedETH := Pool.totalValueLockedETH pool;
       Pool.totalValueLockedUSD := Pool.totalValueLockedUSD pool |} in
  let pool :=
    Pool.with_totalValueLockedETH
      (BD.plus (BD.times (Pool.totalValueLockedToken0 pool) (Token.derivedETH token0))
               (BD.times (Pool.totalValueLockedToken1 pool) (Token.derivedETH token1)))
      pool in
  Pool.with_totalValueLockedUSD
    (BD.times (Pool.totalValueLockedETH pool) (Bundle.ethPriceUSD bundle)) pool.

(** Lines 189-210: the manager after the swap. [currentPoolTvlETH] is the
    pool's native TVL as stored before the update, [pool] the updated pool. *)
Definition swapPoolManager (currentPoolTvlETH : BigDecimal) (pool : Pool.t)
    (poolManager : PoolManager.t) (bundle : Bundle.t) (a : SwapAmounts)
    : PoolManager.t :=
  let poolManager :=
    {| PoolManager.id := PoolManager.id poolManager;
       PoolManager.txCount := PoolManager.txCount poolManager + 1;
       PoolManager.totalVolumeETH :=
         BD.plus (PoolManager.totalVolumeETH poolManager) (amountTotalETHTracked a);
       PoolManager.totalVolumeUSD :=
         BD.plus (PoolManager.totalVolumeUSD poolManager) (amountTotalUSDTracked a);
       PoolManager.untrackedVolumeUSD :=
         BD.plus (PoolManager.untrackedVolumeUSD poolManager)
                 (amountTotalUSDUntracked a);
       PoolManager.totalFeesETH :=
         BD.plus (PoolManager.totalFeesETH poolManager) (feesETH a);
       PoolManager.totalFeesUSD :=
         BD.plus (PoolManager.totalFeesUSD poolManager) (feesUSD a);
       PoolManager.totalValueLockedETH :=
         BD.plus (BD.minus (PoolManager.totalValueLockedETH poolManager) currentPoolTvlETH)
                 (Pool.totalValueLockedETH pool);
       PoolManager.totalValueLockedUSD := PoolManager.totalValueLockedUSD poolManager;
       PoolManager.numberOfSwaps := PoolManager.numberOfSwaps poolManager;
       PoolManager.hookedSwaps := PoolManager.hookedSwaps poolManager |} in
  PoolManager.with_totalValueLockedUSD
    (BD.times (PoolManager.totalValueLockedETH poolManager) (Bundle.ethPriceUSD bundle))
    poolManager.

(** Lines 213-233: the Swap record. *)
Definition swapEntity (event : SwapEvent.t) (token0 token1 : Token.t)
    (a : SwapAmounts) : Swap.t :=
  let finalAmountUSD :=
    if BD.gt (amountTotalUSDTracked a) (BD.ofZ 0)
    then amountTotalUSDTracked a else amountTotalUSDUntracked a in
  {| Swap.id :=
       pretty (SwapEvent.chainId event) +:+ "_" +:+
       pretty (SwapEvent.blockNumber event) +:+ "_" +:+
       pretty (SwapEvent.logIndex event);
     Swap.chainId := SwapEvent.chainId event;
     Swap.transaction := SwapEvent.transactionHash event;
     Swap.timestamp := SwapEvent.blockTimestamp event;
     Swap.pool := chainKey (SwapEvent.chainId event) (SwapEvent.id event);
     Swap.token0_id := Token.id token0;
     Swap.token1_id := Token.id token1;
     Swap.sender := SwapEvent.sender event;
     Swap.origin := orNONE (SwapEvent.transactionFrom event);
     Swap.amount0 := amount0 a;
     Swap.amount1 := amount1 a;
     Swap.amountUSD := finalAmountUSD;
     Swap.sqrtPriceX96 := SwapEvent.sqrtPriceX96 event;
     Swap.tick := SwapEvent.tick event;
     Swap.logIndex := SwapEvent.logIndex event |}.

(** Lines 256-282: the hook statistics after the swap. [currentPoolTvlUSD]
    is the pool's USD TVL as stored before the update. *)
Definition swapHookStats (currentPoolTvlUSD : BigDecimal) (pool : Pool.t)
    (a : SwapAmounts) (poolHookStats : HookStats.t) : HookStats.t :=
  let volumeToAdd :=
    if BD.gt (amountTotalUSDTracked a) (BD.ofZ 0)
    then amountTotalUSDTracked a else amountTotalUSDUntracked a in
  let feesToAdd :=
    if BD.gt (amountTotalUSDTracked a) (BD.ofZ 0)
    then feesUSD a
    else BD.times (amountTotalUSDUntracked a)
           (BD.div (BD.ofZ (Pool.feeTier pool)) (BD.ofZ 1000000)) in
  {| HookStats.id := HookStats.id poolHookStats;
     HookStats.numberOfSwaps := HookStats.numberOfSwaps poolHookStats + 1;
     HookStats.totalVolumeUSD :=
       BD.plus (HookStats.totalVolumeUSD poolHookStats) volumeToAdd;
     HookStats.untrackedVolumeUSD :=
       BD.plus (HookStats.untrackedVolumeUSD poolHookStats) (amountTotalUSDUntracked a);
     HookStats.totalFeesUSD := BD.plus (HookStats.totalFeesUSD poolHookStats) feesToAdd;
     HookStats.totalValueLockedUSD :=
       BD.plus (BD.minus (HookStats.totalValueLockedUSD poolHookStats) currentPoolTvlUSD)
               (Pool.totalValueLockedUSD pool) |}.

(** Lines 91-283 of the Swap loader: everything computed after the preload
    gate, as the [set] calls it ends with, in their order. [ethPriceUSD] is
    the refreshed native price. *)
Definition swapWrites (chainConfig : ChainConfig) (s : Store) (event : SwapEvent.t)
    (pool : Pool.t) (poolManager : PoolManager.t) (bundle : Bundle.t)
    (token0 token1 : Token.t) (poolHookStats : option HookStats.t)
    (isHookedPool : bool) (ethPriceUSD : BigDecimal) : list Write :=
  let a := swapAmounts chainConfig s event pool bundle token0 token1 in
  let currentPoolTvlETH := Pool.totalValueLockedETH pool in
  let currentPoolTvlUSD := Pool.totalValueLockedUSD pool in
  let pool := swapPool event pool bundle token0 token1 a in
  let poolManager := swapPoolManager currentPoolTvlETH pool poolManager bundle a in
  let entity := swapEntity event token0 token1 a in
  let poolManager' :=
    PoolManager.with_swapCounts
      (PoolManager.numberOfSwaps poolManager + 1)
      (if isHookedPool
       then PoolManager.hookedSwaps poolManager + 1
       else PoolManager.hookedSwaps poolManager)
      poolManager in
  [ SetBundle {| Bundle.id := Bundle.id bundle; Bundle.ethPriceUSD := ethPriceUSD |};
    SetPool pool;
    SetPoolManager poolManager;
    SetSwap entity;
    SetToken token0;
    SetToken token1;
    SetPoolManager poolManager' ] ++
  match poolHookStats with
  | Some poolHookStats =>
      [ SetHookStats (swapHookStats currentPoolTvlUSD pool a poolHookStats) ]
  | None => []
  end.

(** [PoolManager.Swap.handlerWithLoader({ loader })]. *)
Definition swapLoader (isPreload : bool) (event : SwapEvent.t) : Loader unit :=
  let chainId := SwapEvent.chainId event in
  let* poolManager := get poolManagers (chainKey chainId (SwapEvent.srcAddress event)) in
  let* pool := get pools (chainKey chainId (SwapEvent.id event)) in
  let* bundle := get bundles (pretty chainId) in
  match pool, poolManager with
  | Some pool, Some poolManager =>
      let isHookedPool := negb (String.eqb (Pool.hooks pool) ADDRESS_ZERO) in
      let* token0 := get tokens (Pool.token0 pool) in
      let* token1 := get tokens (Pool.token1 pool) in
      let* poolHookStats :=
        (if isHookedPool
         then get hookStatsOf (chainKey chainId (Pool.hooks pool))
         else ret None) in
      match token0, token1 with
      | Some token0, Some token1 =>
          let chainConfig := getChainConfig chainId in
          if bool_decide (SwapEvent.id event ∈ poolsToSkip chainConfig) then ret tt
          else
            let bundle :=
              default {| Bundle.id := pretty chainId; Bundle.ethPriceUSD := BD.ofZ 0 |}
                      bundle in
            let* derived0 :=
              reads (fun s =>
                findNativePerToken s token0 (wrappedNativeAddress chainConfig)
                  (stablecoinAddresses chainConfig) (minimumNativeLocked chainConfig)) in
            let token0 := Token.with_derivedETH derived0 token0 in
            let* derived1 :=
              reads (fun s =>
                findNativePerToken s token1 (wrappedNativeAddress chainConfig)
                  (stablecoinAddresses chainConfig) (minimumNativeLocked chainConfig)) in
            let token1 := Token.with_derivedETH derived1 token1 in
            let* ethPriceUSD :=
              reads (fun s =>
                getNativePriceInUSD s (pretty chainId)
                  (stablecoinWrappedNativePoolId chainConfig)
                  (stablecoinIsToken0 chainConfig)) in
            if isPreload then ret tt
            else
              let* s := reads (fun s => s) in
              setAll (swapWrites chainConfig s event pool poolManager bundle
                        token0 token1 poolHookStats isHookedPool ethPriceUSD)
      | _, _ => ret tt
      end
  | _, _ => ret tt
  end.

(** ** The ModifyLiquidity loader *)

(** [updateTicks(context, event, poolId)]. *)
Definition updateTicks (isPreload : bool) (event : ModifyLiquidityEvent.t)
    (poolId : string) : Loader unit :=
  let lowerTickIdx := ModifyLiquidityEvent.tickLower event in
  let upperTickIdx := ModifyLiquidityEvent.tickUpper event in
  let lowerTickId := tickId poolId (ModifyLiquidityEvent.tickLower event) in
  let upperTickId := tickId poolId (ModifyLiquidityEvent.tickUpper event) in
  let* lowerTick := get ticks lowerTickId in
  let* upperTick := get ticks upperTickId in
  if isPreload then ret tt
  else
    let lowerTick :=
      default
        (createInitialTick lowerTickId lowerTickIdx poolId
           (ModifyLiquidityEvent.chainId event)
           (ModifyLiquidityEvent.blockTimestamp event)
           (ModifyLiquidityEvent.blockNumber event))
        lowerTick in
    let upperTick :=
      default
        (createInitialTick upperTickId upperTickIdx poolId
           (ModifyLiquidityEvent.chainId event)
           (ModifyLiquidityEvent.blockTimestamp event)
           (ModifyLiquidityEvent.blockNumber event))
        upperTick in
    let amount := ModifyLiquidityEvent.liquidityDelta event in
    let lowerTick :=
      Tick.with_liquidity
        (Tick.liquidityGross lowerTick + amount)
        (Tick.liquidityNet lowerTick + amount) lowerTick in
    let upperTick :=
      Tick.with_liquidity
        (Tick.liquidityGross upperTick + amount)
        (Tick.liquidityNet upperTick - amount) upperTick in
    let* _ := set (SetTick lowerTick) in
    set (SetTick upperTick).

(** Lines 397-416: the decimal token amounts implied by the liquidity
    delta at the pool's current tick and price. *)
Definition liquidityAmounts (event : ModifyLiquidityEvent.t) (pool : Pool.t)
    (token0 token1 : Token.t) : BigDecimal * BigDecimal :=
  let currTick := default 0 (Pool.tick pool) in
  let currSqrtPriceX96 := default 0 (Pool.sqrtPrice pool) in
  let amount0Raw :=
    getAmount0 (ModifyLiquidityEvent.tickLower event)
      (ModifyLiquidityEvent.tickUpper event) currTick
      (ModifyLiquidityEvent.liquidityDelta event) currSqrtPriceX96 in
  let amount1Raw :=
    getAmount1 (ModifyLiquidityEvent.tickLower event)
      (ModifyLiquidityEvent.tickUpper event) currTick
      (ModifyLiquidityEvent.liquidityDelta event) currSqrtPriceX96 in
  (convertTokenToDecimal amount0Raw (Token.decimals token0),
   convertTokenToDecimal amount1Raw (Token.decimals token1)).

(** Lines 425-439: the pool with its token balances moved and, for a
    position in range, its active liquidity. *)
Definition liquidityPoolBalances (event : ModifyLiquidityEvent.t) (pool : Pool.t)
    (amount0 amount1 : BigDecimal) : Pool.t :=
  let pool :=
    Pool.with_totalValueLockedTokens
      (BD.plus (Pool.totalValueLockedToken0 pool) amount0)
      (BD.plus (Pool.totalValueLockedToken1 pool) amount1) pool in
  if (ModifyLiquidityEvent.tickLower event <=? default 0 (Pool.tick pool))%Z &&
     (ModifyLiquidityEvent.tickUpper event >? default 0 (Pool.tick pool))%Z
  then Pool.with_liquidity
         (Pool.liquidity pool + ModifyLiquidityEvent.liquidityDelta event) pool
  else pool.

(** Lines 453-462: the pool with its native and USD TVL recomputed. *)
Definition liquidityPoolTvl (pool : Pool.t) (bundle : Bundle.t)
    (token0 token1 : Token.t) : Pool.t :=
  let pool :=
    Pool.with_totalValueLockedETH
      (BD.plus (BD.times (Pool.totalValueLockedToken0 pool) (Token.derivedETH token0))
               (BD.times (Pool.totalValueLockedToken1 pool) (Token.derivedETH token1)))
      pool in
  Pool.with_totalValueLockedUSD
    (BD.times (Pool.totalValueLockedETH pool) (Bundle.ethPriceUSD bundle)) pool.

(** Lines 464-477: the manager after the liquidity change. *)
Definition liquidityPoolManager (currentPoolTvlETH : BigDecimal) (pool : Pool.t)
    (poolManager : PoolManager.t) (bundle : Bundle.t) : PoolManager.t :=
  let poolManager :=
    {| PoolManager.id := PoolManager.id poolManager;
       PoolManager.txCount := PoolManager.txCount poolManager + 1;
       PoolManager.totalVolumeETH := PoolManager.totalVolumeETH poolManager;
       PoolManager.totalVolumeUSD := PoolManager.totalVolumeUSD poolManager;
       PoolManager.untrackedVolumeUSD := PoolManager.untrackedVolumeUSD poolManager;
       PoolManager.totalFeesETH := PoolManager.totalFeesETH poolManager;
       PoolManager.totalFeesUSD := PoolManager.totalFeesUSD poolManager;
       PoolManager.totalValueLockedETH :=
         BD.plus (BD.minus (PoolManager.totalValueLockedETH poolManager) currentPoolTvlETH)
                 (Pool.totalValueLockedETH pool);
       PoolManager.totalValueLockedUSD := PoolManager.totalValueLockedUSD poolManager;
       PoolManager.numberOfSwaps := PoolManager.numberOfSwaps poolManager;
       PoolManager.hookedSwaps := PoolManager.hookedSwaps poolManager |} in
  PoolManager.with_totalValueLockedUSD
    (BD.times (PoolManager.totalValueLockedETH poolManager) (Bundle.ethPriceUSD bundle))
    poolManager.

(** Lines 479-498: the ModifyLiquidity record. *)
Definition liquidityEntity (event : ModifyLiquidityEvent.t) (pool : Pool.t)
    (token0 token1 : Token.t) (amount0 amount1 amountUSD : BigDecimal)
    : ModifyLiquidity.t :=
  {| ModifyLiquidity.id :=
       pretty (ModifyLiquidityEvent.chainId event) +:+ "_" +:+
       ModifyLiquidityEvent.transactionHash event +:+ "_" +:+
       pretty (ModifyLiquidityEvent.logIndex event);
     ModifyLiquidity.chainId := ModifyLiquidityEvent.chainId event;
     ModifyLiquidity.transaction := ModifyLiquidityEvent.transactionHash event;
     ModifyLiquidity.timestamp := ModifyLiquidityEvent.blockTimestamp event;
     ModifyLiquidity.pool_id := Pool.id pool;
     ModifyLiquidity.token0_id := Token.id token0;
     ModifyLiquidity.token1_id := Token.id token1;
     ModifyLiquidity.sender := ModifyLiquidityEvent.sender event;
     ModifyLiquidity.origin := orNONE (ModifyLiquidityEvent.transactionFrom event);
     ModifyLiquidity.amount := ModifyLiquidityEvent.liquidityDelta event;
     ModifyLiquidity.amount0 := amount0;
     ModifyLiquidity.amount1 := amount1;
     ModifyLiquidity.amountUSD := amountUSD;
     ModifyLiquidity.tickLower := ModifyLiquidityEvent.tickLower event;
     ModifyLiquidity.tickUpper := ModifyLiquidityEvent.tickUpper event;
     ModifyLiquidity.logIndex := ModifyLiquidityEvent.logIndex event |}.

(** Lines 397-524 of the ModifyLiquidity loader: everything computed after
    the preload gate, as the [set] calls it ends with, in their order.
    [hookStats] is what [context.HookStats.get] returned for a hooked pool,
    and [None] for a pool without hooks. *)
Definition modifyLiquidityWrites (event : ModifyLiquidityEvent.t)
    (pool : Pool.t) (token0 token1 : Token.t) (bundle : Bundle.t)
    (poolManager : PoolManager.t) (hookStats : option HookStats.t) : list Write :=
  let amounts := liquidityAmounts event pool token0 token1 in
  let amount0 := fst amounts in
  let amount1 := snd amounts in
  let amountUSD :=
    BD.times
      (BD.plus (BD.times amount0 (Token.derivedETH token0))
               (BD.times amount1 (Token.derivedETH token1)))
      (Bundle.ethPriceUSD bundle) in
  let pool := liquidityPoolBalances event pool amount0 amount1 in
  let token0 :=
    Token.with_totalValueLocked (BD.plus (Token.totalValueLocked token0) amount0) token0 in
  let token1 :=
    Token.with_totalValueLocked (BD.plus (Token.totalValueLocked token1) amount1) token1 in
  let currentPoolTvlETH := Pool.totalValueLockedETH pool in
  let currentPoolTvlUSD := Pool.totalValueLockedUSD pool in
  let pool := liquidityPoolTvl pool bundle token0 token1 in
  let poolManager := liquidityPoolManager currentPoolTvlETH pool poolManager bundle in
  let modifyLiquidity :=
    liquidityEntity event pool token0 token1 amount0 amount1 amountUSD in
  match hookStats with
  | Some hookStats =>
      [ SetHookStats
          (HookStats.with_totalValueLockedUSD
             (BD.plus (BD.minus (HookStats.totalValueLockedUSD hookStats) currentPoolTvlUSD)
                      (BD.times (Pool.totalValueLockedETH pool) (Bundle.ethPriceUSD bundle)))
             hookStats) ]
  | None => []
  end ++
  [ SetModifyLiquidity modifyLiquidity;
    SetPoolManager poolManager;
    SetPool pool;
    SetToken token0;
    SetToken token1 ].

(** [PoolManager.ModifyLiquidity.handlerWithLoader({ loader })]. *)
Definition modifyLiquidityLoader (isPreload : bool) (event : ModifyLiquidityEvent.t)
    : Loader unit :=
  let chainId := ModifyLiquidityEvent.chainId event in
  let chainConfig := getChainConfig chainId in
  if bool_decide (ModifyLiquidityEvent.id event ∈ poolsToSkip chainConfig) then ret tt
  else
    let* pool := get pools (chainKey chainId (ModifyLiquidityEvent.id event)) in
    match pool with
    | None => ret tt
    | Some pool =>
        let* token0 := get tokens (Pool.token0 pool) in
        let* token1 := get tokens (Pool.token1 pool) in
        match token0, token1 with
        | Some token0, Some token1 =>
            let* bundle := get bundles (pretty chainId) in
            match bundle with
            | None => ret tt
            | Some bundle =>
                let* poolManager :=
                  getOrThrow poolManagers
                    (chainKey chainId (ModifyLiquidityEvent.srcAddress event)) in
                let* _ := updateTicks isPreload event (Pool.id pool) in
                if isPreload then ret tt
                else
                  let isHookedPool := negb (String.eqb (Pool.hooks pool) ADDRESS_ZERO) in
                  let* hookStats :=
                    (if isHookedPool
                     then get hookStatsOf (chainKey chainId (Pool.hooks pool))
                     else ret None) in
                  setAll (modifyLiquidityWrites event pool token0 token1 bundle
                            poolManager hookStats)
            end
        | _, _ => ret tt
        end
    end.

(** ** Event sequences *)

Inductive Event :=
| SwapEv (e : SwapEvent.t)
| ModifyLiquidityEv (e : ModifyLiquidityEvent.t).

Definition handle (isPreload : bool) (ev : Event) : Loader unit :=
  match ev with
  | SwapEv e => swapLoader isPreload e
  | ModifyLiquidityEv e => modifyLiquidityLoader isPreload e
  end.

Definition stateOf {A} (r : Result A) : State :=
  match r with
  | Returned _ st => st
  | Thrown _ st => st
  end.

Definition initial (s : Store) : State := {| db := s; log := [] |}.

(** The committing pass over one event: the store it leaves behind. *)
Definition process (s : Store) (ev : Event) : Store :=
  db (stateOf (handle false ev (initial s))).

(** Events are delivered in order, one at a time. *)
Definition processAll (s : Store) (evs : list Event) : Store :=
  fold_left process evs s.

End Handlers.

(** ** Token metadata resolution *)

Module Metadata.

Record TokenMetadata := {
  name : string;
  symbol : string;
  decimals : Z
}.

Inductive Try (A : Type) :=
| Ok (a : A)
| Err (msg : string).
Arguments Ok {A} a.
Arguments Err {A} msg.

(** [process.env.X || fallback]. *)
Definition envOr (env : string -> option string) (var fallback : string) : string :=
  match env var with
  | Some (String a s) => String a s
  | _ => fallback
  end.

Definition getRpcUrl (env : string -> option string) (chainId : Z) : Try string :=
  if decide (chainId = 1) then Ok (envOr env "ENVIO_MAINNET_RPC_URL" "https://eth.drpc.org")
  else if decide (chainId = 42161) then
    Ok (envOr env "ENVIO_ARBITRUM_RPC_URL" "https://arbitrum.drpc.org")
  else if decide (chainId = 10) then
    Ok (envOr env "ENVIO_OPTIMISM_RPC_URL" "https://optimism.drpc.org")
  else if decide (chainId = 8453) then
    Ok (envOr env "ENVIO_BASE_RPC_URL" "https://base.drpc.org")
  else if decide (chainId = 137) then
    Ok (envOr env "ENVIO_POLYGON_RPC_URL" "https://polygon.drpc.org")
  else if decide (chainId = 43114) then
    Ok (envOr env "ENVIO_AVALANCHE_RPC_URL" "https://avalanche.drpc.org")
  else if decide (chainId = 56) then
    Ok (envOr env "ENVIO_BSC_RPC_URL" "https://bsc.drpc.org")
  else if decide (chainId = 81457) then
    Ok (envOr env "ENVIO_BLAST_RPC_URL" "https://blast.drpc.org")
  else if decide (chainId = 7777777) then
    Ok (envOr env "ENVIO_ZORA_RPC_URL" "https://zora.drpc.org")
  else if decide (chainId = 1868) then
    Ok (envOr env "ENVIO_SONIEUM_RPC_URL" "https://sonieum.drpc.org")
  else if decide (chainId = 130) then
    Ok (envOr env "ENVIO_UNICHAIN_RPC_URL" "https://unichain.drpc.org")
  else if decide (chainId = 57073) then
    Ok (envOr env "ENVIO_INK_RPC_URL" "https://ink.drpc.org")
  else if decide (chainId = 480) then
    Ok (envOr env "ENVIO_WORLDCHAIN_RPC_URL" "https://worldchain.drpc.org")
  else Err ("No RPC URL configured for chainId " +:+ pretty chainId).

(** The client cache [clients]: chain id to the url its client was built
    for. [getClient] returns the client and the cache it leaves behind. *)
Definition getClient (env : string -> option string) (clients : gmap Z string)
    (chainId : Z) : Try string * gmap Z string :=
  match clients !! chainId with
  | Some client => (Ok client, clients)
  | None =>
      match getRpcUrl env chainId with
      | Ok url => (Ok url, <[chainId := url]> clients)
      | Err msg => (Err msg, clients)
      end
  end.

(** What a decoded contract read can be at run time. *)
Inductive JsValue :=
| JsNumber (n : Z)
| JsBigInt (n : Z).

Definition typeof (v : JsValue) : string :=
  match v with
  | JsNumber _ => "number"
  | JsBigInt _ => "bigint"
  end.

Definition valueOf (v : JsValue) : Z :=
  match v with
  | JsNumber n => n
  | JsBigInt n => n
  end.

(** The five ERC-20 reads of one contract; [None] is a rejected read. The
    bytes32 results are given as the text they decode to with the zero bytes
    dropped. *)
Record ContractReads := {
  read_name : option string;
  read_NAME : option string;
  read_symbol : option string;
  read_SYMBOL : option string;
  read_decimals : option JsValue
}.

(** [/[\u0000-\u001F\u007F-\u009F]/], on the bytes of the string. *)
Definition isControl (c : ascii) : bool :=
  let n := N_of_ascii c in
  ((n <=? 31) || ((127 <=? n) && (n <=? 159)))%N.

Fixpoint removeControl (s : string) : string :=
  match s with
  | EmptyString => EmptyString
  | String c s' => if isControl c then removeControl s' else String c (removeControl s')
  end.

Fixpoint trimStart (s : string) : string :=
  match s with
  | String " " s' => trimStart s'
  | _ => s
  end.

Definition trim (s : string) : string :=
  String.rev (trimStart (String.rev (trimStart s))).

Definition sanitizeString (str : string) : string :=
  match str with
  | EmptyString => ""
  | _ => trim (removeControl str)
  end.

Definition toLowerChar (c : ascii) : ascii :=
  let n := N_of_ascii c in
  if ((65 <=? n) && (n <=? 90))%N then ascii_of_N (n + 32) else c.

Fixpoint toLowerCase (s : string) : string :=
  match s with
  | EmptyString => EmptyString
  | String c s' => String (toLowerChar c) (toLowerCase s')
  end.

(** [a || b] on strings. *)
Definition orString (a b : string) : string :=
  match a with
  | EmptyString => b
  | _ => a
  end.

Definition fetchTokenMetadataMulticall (env : string -> option string)
    (clients : gmap Z string) (rpc : string -> Z -> ContractReads)
    (address : string) (chainId : Z) : Try TokenMetadata * gmap Z string :=
  match getClient env clients chainId with
  | (Err msg, clients') => (Err msg, clients')
  | (Ok client, clients') =>
      let contract := rpc address chainId in
      let nameResult := read_name contract in
      let nameBytes32Result := read_NAME contract in
      let symbolResult := read_symbol contract in
      let symbolBytes32Result := read_SYMBOL contract in
      let decimalsResult := default (JsNumber 18) (read_decimals contract) in
      let name :=
        match nameResult, nameBytes32Result with
        | Some r, _ => sanitizeString r
        | None, Some b => sanitizeString b
        | None, None => "unknown"
        end in
      let symbol :=
        match symbolResult, symbolBytes32Result with
        | Some r, _ => sanitizeString r
        | None, Some b => sanitizeString b
        | None, None => "UNKNOWN"
        end in
      (Ok {| name := orString name "unknown";
             symbol := orString symbol "UNKNOWN";
             decimals :=
               if String.eqb (typeof decimalsResult) "number" &&
                  (valueOf decimalsResult <=? 50)%Z
               then valueOf decimalsResult else 18 |},
       clients')
  end.

Section Resolver.

Context {U : Utils}.

Definition getTokenMetadata (env : string -> option string)
    (clients : gmap Z string) (rpc : string -> Z -> ContractReads)
    (address : string) (chainId : Z) : Try TokenMetadata * gmap Z string :=
  if String.eqb (toLowerCase address) (toLowerCase ADDRESS_ZERO) then
    let chainConfig := getChainConfig chainId in
    (Ok {| name := nativeName (nativeTokenDetails chainConfig);
           symbol := nativeSymbol (nativeTokenDetails chainConfig);
           decimals := nativeDecimals (nativeTokenDetails chainConfig) |},
     clients)
  else
    let chainConfig := getChainConfig chainId in
    let tokenOverride :=
      List.find
        (fun t => String.eqb (toLowerCase (overrideAddress t)) (toLowerCase address))
        (tokenOverrides chainConfig) in
    match tokenOverride with
    | Some tokenOverride =>
        (Ok {| name := overrideName tokenOverride;
               symbol := overrideSymbol tokenOverride;
               decimals := overrideDecimals tokenOverride |},
         clients)
    | None => fetchTokenMetadataMulticall env clients rpc address chainId
    end.

End Resolver.

End Metadata.

(** ** What one event does to the store, and when *)

Section Effects.

Context {U : Utils}.

Definition eventChain (ev : Event) : Z :=
  match ev with
  | SwapEv e => SwapEvent.chainId e
  | ModifyLiquidityEv e => ModifyLiquidityEvent.chainId e
  end.

Definition eventSource (ev : Event) : string :=
  match ev with
  | SwapEv e => SwapEvent.srcAddress e
  | ModifyLiquidityEv e => ModifyLiquidityEvent.srcAddress e
  end.

Definition eventPoolId (ev : Event) : string :=
  match ev with
  | SwapEv e => SwapEvent.id e
  | ModifyLiquidityEv e => ModifyLiquidityEvent.id e
  end.

(** The keys under which an event looks up its pool, manager and bundle. *)
Definition poolKey (ev : Event) : string := chainKey (eventChain ev) (eventPoolId ev).
Definition managerKey (ev : Event) : string := chainKey (eventChain ev) (eventSource ev).
Definition bundleKey (ev : Event) : string := pretty (eventChain ev).

Definition excluded (ev : Event) : bool :=
  bool_decide (eventPoolId ev ∈ poolsToSkip (getChainConfig (eventChain ev))).

(** Both tokens of the event's pool resolve. *)
Definition tokensPresent (s : Store) (ev : Event) : bool :=
  match pools s !! poolKey ev with
  | Some pool =>
      bool_decide (is_Some (tokens s !! Pool.token0 pool)) &&
      bool_decide (is_Some (tokens s !! Pool.token1 pool))
  | None => false
  end.

(** The preconditions of section 4.5: a swap needs its pool, manager and
    both tokens; a liquidity change needs the bundle as well; neither is
    processed for a pool on the exclusion list. *)
Definition processed (s : Store) (ev : Event) : bool :=
  tokensPresent s ev &&
  bool_decide (is_Some (poolManagers s !! managerKey ev)) &&
  negb (excluded ev) &&
  match ev with
  | SwapEv _ => true
  | ModifyLiquidityEv _ => bool_decide (is_Some (bundles s !! bundleKey ev))
  end.

(** The native price of the bundle as an event loads it: a swap that finds
    no bundle works with the zero default. *)
Definition loadedNativePrice (s : Store) (ev : Event) : BigDecimal :=
  match bundles s !! bundleKey ev with
  | Some bundle => Bundle.ethPriceUSD bundle
  | None => BD.ofZ 0
  end.

(** The [set] calls of the committing pass of a swap, as a function of the
    store it starts from. *)
Definition swapEffects (s : Store) (event : SwapEvent.t) : list Write :=
  let chainId := SwapEvent.chainId event in
  let chainConfig := getChainConfig chainId in
  match pools s !! chainKey chainId (SwapEvent.id event),
        poolManagers s !! chainKey chainId (SwapEvent.srcAddress event) with
  | Some pool, Some poolManager =>
      match tokens s !! Pool.token0 pool, tokens s !! Pool.token1 pool with
      | Some token0, Some token1 =>
          if bool_decide (SwapEvent.id event ∈ poolsToSkip chainConfig) then []
          else
            let isHookedPool := negb (String.eqb (Pool.hooks pool) ADDRESS_ZERO) in
            swapWrites chainConfig s event pool poolManager
              (default {| Bundle.id := pretty chainId; Bundle.ethPriceUSD := BD.ofZ 0 |}
                       (bundles s !! pretty chainId))
              (Token.with_derivedETH
                 (findNativePerToken s token0 (wrappedNativeAddress chainConfig)
                    (stablecoinAddresses chainConfig) (minimumNativeLocked chainConfig))
                 token0)
              (Token.with_derivedETH
                 (findNativePerToken s token1 (wrappedNativeAddress chainConfig)
                    (stablecoinAddresses chainConfig) (minimumNativeLocked chainConfig))
                 token1)
              (if isHookedPool
               then hookStatsOf s !! chainKey chainId (Pool.hooks pool)
               else None)
              isHookedPool
              (getNativePriceInUSD s (pretty chainId)
                 (stablecoinWrappedNativePoolId chainConfig)
                 (stablecoinIsToken0 chainConfig))
      | _, _ => []
      end
  | _, _ => []
  end.

(** The tick record [updateTicks] starts from: the stored one, or the
    initial record it creates. *)
Definition tickBefore (s : Store) (event : ModifyLiquidityEvent.t)
    (poolId : string) (tick : Z) : Tick.t :=
  default
    (createInitialTick (tickId poolId tick) tick poolId
       (ModifyLiquidityEvent.chainId event)
       (ModifyLiquidityEvent.blockTimestamp event)
       (ModifyLiquidityEvent.blockNumber event))
    (ticks s !! tickId poolId tick).

(** The two tick writes of [updateTicks], lower then upper. *)
Definition tickWrites (s : Store) (event : ModifyLiquidityEvent.t)
    (poolId : string) : list Write :=
  let amount := ModifyLiquidityEvent.liquidityDelta event in
  let lowerTick := tickBefore s event poolId (ModifyLiquidityEvent.tickLower event) in
  let upperTick := tickBefore s event poolId (ModifyLiquidityEvent.tickUpper event) in
  [ SetTick (Tick.with_liquidity (Tick.liquidityGross lowerTick + amount)
               (Tick.liquidityNet lowerTick + amount) lowerTick);
    SetTick (Tick.with_liquidity (Tick.liquidityGross upperTick + amount)
               (Tick.liquidityNet upperTick - amount) upperTick) ].

(** The [set] calls of the committing pass of a liquidity change. *)
Definition modifyLiquidityEffects (s : Store) (event : ModifyLiquidityEvent.t)
    : list Write :=
  let chainId := ModifyLiquidityEvent.chainId event in
  if processed s (ModifyLiquidityEv event) then
    match pools s !! chainKey chainId (ModifyLiquidityEvent.id event),
          bundles s !! pretty chainId,
          poolManagers s !! chainKey chainId (ModifyLiquidityEvent.srcAddress event) with
    | Some pool, Some bundle, Some poolManager =>
        match tokens s !! Pool.token0 pool, tokens s !! Pool.token1 pool with
        | Some token0, Some token1 =>
            tickWrites s event (Pool.id pool) ++
            modifyLiquidityWrites event pool token0 token1 bundle poolManager
              (if negb (String.eqb (Pool.hooks pool) ADDRESS_ZERO)
               then hookStatsOf s !! chainKey chainId (Pool.hooks pool)
               else None)
        | _, _ => []
        end
    | _, _, _ => []
    end
  else [].

Definition effects (s : Store) (ev : Event) : list Write :=
  match ev with
  | SwapEv e => swapEffects s e
  | ModifyLiquidityEv e => modifyLiquidityEffects s e
  end.

(** A liquidity change whose pool, tokens and bundle are there, whose pool is
    not excluded, and whose manager is missing. *)
Definition managerMissing (s : Store) (event : ModifyLiquidityEvent.t) : bool :=
  let ev := ModifyLiquidityEv event in
  tokensPresent s ev &&
  bool_decide (is_Some (bundles s !! bundleKey ev)) &&
  negb (excluded ev) &&
  bool_decide (poolManagers s !! managerKey ev = None).

End Effects.

(** ** Invariants of the store *)

(** Every entity the handlers look up by key is stored under its own id. *)
Record wfStore (s : Store) : Prop := {
  wf_pools : forall k x, pools s !! k = Some x -> Pool.id x = k;
  wf_tokens : forall k x, tokens s !! k = Some x -> Token.id x = k;
  wf_poolManagers : forall k x, poolManagers s !! k = Some x -> PoolManager.id x = k;
  wf_bundles : forall k x, bundles s !! k = Some x -> Bundle.id x = k;
  wf_ticks : forall k x, ticks s !! k = Some x -> Tick.id x = k
}.

(** The brute-force resum: the total of a TVL field over the pools whose id
    is qualified with the chain. *)
Definition sumPools (field : Pool.t -> BigDecimal) (chainId : Z)
    (m : gmap string Pool.t) : BigDecimal :=
  map_fold
    (fun k pool acc =>
       if startsWith (chainPrefix chainId) k then BD.plus acc (field pool) else acc)
    BD.zero m.

(** The manager's native TVL is the total over the pools of its chain. *)
Definition managerTvlETHMatches (s : Store) (chainId : Z) (srcAddress : string) : Prop :=
  forall m, poolManagers s !! chainKey chainId srcAddress = Some m ->
    PoolManager.totalValueLockedETH m = sumPools Pool.totalValueLockedETH chainId (pools s).

Definition managerTvlUSDMatches (s : Store) (chainId : Z) (srcAddress : string) : Prop :=
  forall m, poolManagers s !! chainKey chainId srcAddress = Some m ->
    PoolManager.totalValueLockedUSD m = sumPools Pool.totalValueLockedUSD chainId (pools s).

(** All events of the chain come from the one manager contract. *)
Definition singleManager (chainId : Z) (srcAddress : string) (evs : list Event) : Prop :=
  Forall (fun ev => eventChain ev = chainId -> eventSource ev = srcAddress) evs.

(** The pool stored under [key] has its native TVL recomputed from its token
    balances at the stored prices of its two tokens, and its USD TVL from
    that at the native price [price]. *)
Definition poolTvlRecomputed (s : Store) (key : string) (price : BigDecimal) : Prop :=
  exists pool token0 token1,
    pools s !! key = Some pool /\
    tokens s !! Pool.token0 pool = Some token0 /\
    tokens s !! Pool.token1 pool = Some token1 /\
    Pool.totalValueLockedETH pool =
      BD.plus (BD.times (Pool.totalValueLockedToken0 pool) (Token.derivedETH token0))
              (BD.times (Pool.totalValueLockedToken1 pool) (Token.derivedETH token1)) /\
    Pool.totalValueLockedUSD pool = BD.times (Pool.totalValueLockedETH pool) price.

(** ** A model of the pricing helpers, and a sample chain

    The theorems below hold for every implementation of [Utils]. The
    concrete examples run on the implementation of this section. *)

Module SpecModel.

(** Modelled from the spec: [getNativePriceInUSD] of utils/pricing reads the
    designated reference pool (a stablecoin/wrapped-native pair) and returns
    its instantaneous price as the native-to-USD rate; it returns the
    previous bundle value unchanged if the reference pool is absent. *)
Definition getNativePriceInUSD (s : Store) (chainId : string)
    (stablecoinWrappedNativePoolId : string) (stablecoinIsToken0 : bool) : BigDecimal :=
  match pools s !! stablecoinWrappedNativePoolId with
  | Some pool =>
      if stablecoinIsToken0 then Pool.token0Price pool else Pool.token1Price pool
  | None =>
      match bundles s !! chainId with
      | Some bundle => Bundle.ethPriceUSD bundle
      | None => BD.zero
      end
  end.

(** Modelled from the spec: [getTrackedAmountUSD] of utils/pricing. Both
    tokens whitelisted: the sum of both legs' USD value; exactly one: double
    that leg's USD value; neither: zero. *)
Definition getTrackedAmountUSD (s : Store) (amount0 : BigDecimal) (token0 : Token.t)
    (amount1 : BigDecimal) (token1 : Token.t) (chainId : string)
    (whitelistTokens : list string) : BigDecimal :=
  let ethPriceUSD :=
    match bundles s !! chainId with
    | Some bundle => Bundle.ethPriceUSD bundle
    | None => BD.zero
    end in
  let price0USD := BD.times (Token.derivedETH token0) ethPriceUSD in
  let price1USD := BD.times (Token.derivedETH token1) ethPriceUSD in
  let listed0 := bool_decide (Token.id token0 ∈ whitelistTokens) in
  let listed1 := bool_decide (Token.id token1 ∈ whitelistTokens) in
  if listed0 && listed1 then
    BD.plus (BD.times amount0 price0USD) (BD.times amount1 price1USD)
  else if listed0 then BD.times (BD.times amount0 price0USD) (BD.ofZ 2)
  else if listed1 then BD.times (BD.times amount1 price1USD) (BD.ofZ 2)
  else BD.zero.

(** Modelled from the spec: [sqrtPriceX96ToTokenPrices] of utils/pricing. The
    price is [(sqrtPriceX96 / 2^96)^2] adjusted for each token's decimal
    scale; the result is the pair of the two prices, both zero when the
    denominator would be zero. *)
Definition sqrtPriceX96ToTokenPrices (sqrtPriceX96 : Z) (token0 token1 : Token.t)
    (nativeTokenDetails : NativeTokenDetails) : BigDecimal * BigDecimal :=
  let num := BD.ofZ (sqrtPriceX96 * sqrtPriceX96) in
  let denom := BD.ofZ (2 ^ 192) in
  let price1 :=
    BD.div (BD.times (BD.div num denom) (BD.ofZ (10 ^ Token.decimals token0)))
           (BD.ofZ (10 ^ Token.decimals token1)) in
  let price0 := safeDiv BD.one price1 in
  (price0, price1).

(** The native liquidity and the implied native price of [tokenId] in a pool
    that pairs it with a reference token. *)
Definition viaPool (s : Store) (tokenId : string) (references : list string)
    (pool : Pool.t) : option (BigDecimal * BigDecimal) :=
  if bool_decide (Pool.token0 pool = tokenId /\ Pool.token1 pool ∈ references) then
    match tokens s !! Pool.token1 pool with
    | Some other =>
        Some (BD.times (Pool.totalValueLockedToken1 pool) (Token.derivedETH other),
              BD.times (Pool.token1Price pool) (Token.derivedETH other))
    | None => None
    end
  else if bool_decide (Pool.token1 pool = tokenId /\ Pool.token0 pool ∈ references) then
    match tokens s !! Pool.token0 pool with
    | Some other =>
        Some (BD.times (Pool.totalValueLockedToken0 pool) (Token.derivedETH other),
              BD.times (Pool.token0Price pool) (Token.derivedETH other))
    | None => None
    end
  else None.

(** Modelled from the spec: [findNativePerToken] of utils/pricing inspects
    the pools where the token is one side, keeps those paired with a
    reference token (the wrapped native asset or a stablecoin) whose native
    liquidity meets [minimumNativeLocked], and returns the native price
    implied by the deepest one; zero if no pool qualifies. *)
Definition findNativePerToken (s : Store) (token : Token.t)
    (wrappedNativeAddress : string) (stablecoinAddresses : list string)
    (minimumNativeLocked : BigDecimal) : BigDecimal :=
  snd
    (map_fold
       (fun _ pool best =>
          match viaPool s (Token.id token)
                  (wrappedNativeAddress :: stablecoinAddresses) pool with
          | Some (locked, price) =>
              if bool_decide (minimumNativeLocked <= locked)%Qc &&
                 bool_decide (fst best < locked)%Qc
              then (locked, price) else best
          | None => best
          end)
       (BD.zero, BD.zero) (pools s)).

(** Sample amounts with the three branches of section 4.2 (current tick
    below, within or above the range) on a linear price scale. The Q96 tick
    math of utils/liquidityMath is outside the modelled files. *)
Definition getAmount0 (tickLower tickUpper currTick liquidityDelta sqrtPriceX96 : Z) : Z :=
  if (currTick <? tickLower)%Z then liquidityDelta * (tickUpper - tickLower)
  else if (currTick <? tickUpper)%Z then liquidityDelta * (tickUpper - currTick)
  else 0.

Definition getAmount1 (tickLower tickUpper currTick liquidityDelta sqrtPriceX96 : Z) : Z :=
  if (currTick <? tickLower)%Z then 0
  else if (currTick <? tickUpper)%Z then liquidityDelta * (currTick - tickLower)
  else liquidityDelta * (tickUpper - tickLower).

End SpecModel.

Module Sample.

Definition usdc : string := "0xusdc".
Definition weth : string := "0xweth".
Definition manager : string := "0xmanager".
Definition referencePool : string := "1_0xref".
Definition otherPool : string := "1_0xother".
Definition skippedPool : string := "0xskipped".

Definition config : ChainConfig :=
  {| poolsToSkip := [skippedPool];
     wrappedNativeAddress := weth;
     stablecoinAddresses := [usdc];
     minimumNativeLocked := BD.one;
     stablecoinWrappedNativePoolId := referencePool;
     stablecoinIsToken0 := true;
     nativeTokenDetails :=
       {| nativeSymbol := "ETH"; nativeName := "Ether"; nativeDecimals := 18 |};
     whitelistTokens := [usdc; weth];
     tokenOverrides :=
       [ {| overrideAddress := "0xOverride"; overrideSymbol := "OVR";
            overrideName := "Override"; overrideDecimals := 8 |} ] |}.

Definition utils : Utils :=
  {| getChainConfig := fun _ => config;
     findNativePerToken := SpecModel.findNativePerToken;
     getNativePriceInUSD := SpecModel.getNativePriceInUSD;
     getTrackedAmountUSD := SpecModel.getTrackedAmountUSD;
     sqrtPriceX96ToTokenPrices := SpecModel.sqrtPriceX96ToTokenPrices;
     getAmount0 := SpecModel.getAmount0;
     getAmount1 := SpecModel.getAmount1 |}.

Definition usdcToken : Token.t :=
  {| Token.id := usdc; Token.name := "USD Coin"; Token.symbol := "USDC";
     Token.decimals := 6;
     Token.derivedETH := BD.div BD.one (BD.ofZ 2000);
     Token.totalValueLocked := BD.ofZ 6000 |}.

Definition wethToken : Token.t :=
  {| Token.id := weth; Token.name := "Wrapped Ether"; Token.symbol := "WETH";
     Token.decimals := 18;
     Token.derivedETH := BD.one;
     Token.totalValueLocked := BD.ofZ 3 |}.

(** A USDC/WETH pool quoting 2000 USDC per WETH, holding [usdcLocked] and
    [wethLocked], valued at the native price [price]. *)
Definition usdcWethPool (id : string) (usdcLocked wethLocked : Z) (price : Z) : Pool.t :=
  {| Pool.id := id;
     Pool.token0 := usdc;
     Pool.token1 := weth;
     Pool.hooks := ADDRESS_ZERO;
     Pool.feeTier := 3000;
     Pool.sqrtPrice := Some 0;
     Pool.tick := Some 0;
     Pool.liquidity := 1000;
     Pool.token0Price := BD.ofZ 2000;
     Pool.token1Price := BD.div BD.one (BD.ofZ 2000);
     Pool.txCount := 0;
     Pool.volumeToken0 := BD.zero;
     Pool.volumeToken1 := BD.zero;
     Pool.volumeUSD := BD.zero;
     Pool.untrackedVolumeUSD := BD.zero;
     Pool.feesUSD := BD.zero;
     Pool.feesUSDUntracked := BD.zero;
     Pool.collectedFeesToken0 := BD.zero;
     Pool.collectedFeesToken1 := BD.zero;
     Pool.collectedFeesUSD := BD.zero;
     Pool.totalValueLockedToken0 := BD.ofZ usdcLocked;
     Pool.totalValueLockedToken1 := BD.ofZ wethLocked;
     Pool.totalValueLockedETH :=
       BD.plus (BD.div (BD.ofZ usdcLocked) (BD.ofZ 2000)) (BD.ofZ wethLocked);
     Pool.totalValueLockedUSD :=
       BD.times (BD.plus (BD.div (BD.ofZ usdcLocked) (BD.ofZ 2000)) (BD.ofZ wethLocked))
                (BD.ofZ price) |}.

Definition poolManager : PoolManager.t :=
  {| PoolManager.id := chainKey 1 manager;
     PoolManager.txCount := 0;
     PoolManager.totalVolumeETH := BD.zero;
     PoolManager.totalVolumeUSD := BD.zero;
     PoolManager.untrackedVolumeUSD := BD.zero;
     PoolManager.totalFeesETH := BD.zero;
     PoolManager.totalFeesUSD := BD.zero;
     PoolManager.totalValueLockedETH := BD.ofZ 6;
     PoolManager.totalValueLockedUSD := BD.ofZ 6000;
     PoolManager.numberOfSwaps := 0;
     PoolManager.hookedSwaps := 0 |}.

(** Two pools worth 4 and 2 native units, a manager that totals them, and a
    bundle still at 1000 USD while the reference pool quotes 2000. *)
Definition store : Store :=
  {| poolManagers := {[ chainKey 1 manager := poolManager ]};
     pools := {[ referencePool := usdcWethPool referencePool 4000 2 1000;
                 otherPool := usdcWethPool otherPool 2000 1 1000 ]};
     bundles := {[ "1" := {| Bundle.id := "1"; Bundle.ethPriceUSD := BD.ofZ 1000 |} ]};
     tokens := {[ usdc := usdcToken; weth := wethToken ]};
     hookStatsOf := ∅;
     ticks := ∅;
     swaps := ∅;
     modifyLiquidities := ∅ |}.

(** The same chain before its manager has been recorded. *)
Definition storeWithoutManager : Store :=
  {| poolManagers := ∅;
     pools := pools store;
     bundles := bundles store;
     tokens := tokens store;
     hookStatsOf := ∅;
     ticks := ∅;
     swaps := ∅;
     modifyLiquidities := ∅ |}.

(** A trader pays 0.0005 WETH into the other pool and takes 1 USDC out of
    it: raw [amount0 = -1000000] on the 6-decimal token. *)
Definition swapEvent (logIndex : Z) : SwapEvent.t :=
  {| SwapEvent.chainId := 1;
     SwapEvent.srcAddress := manager;
     SwapEvent.blockNumber := 100;
     SwapEvent.blockTimestamp := 1700000000;
     SwapEvent.transactionHash := "0xtx";
     SwapEvent.transactionFrom := Some "0xtrader";
     SwapEvent.logIndex := logIndex;
     SwapEvent.id := "0xother";
     SwapEvent.sender := "0xrouter";
     SwapEvent.amount0 := -1000000;
     SwapEvent.amount1 := 500000000000000;
     SwapEvent.sqrtPriceX96 := 20000 * 2 ^ 96;
     SwapEvent.liquidity := 1000;
     SwapEvent.tick := 10 |}.

(** A position over [[tickLower, tickUpper)] in the other pool, whose
    current tick is 0. *)
Definition liquidityEvent (tickLower tickUpper liquidityDelta : Z)
    : ModifyLiquidityEvent.t :=
  {| ModifyLiquidityEvent.chainId := 1;
     ModifyLiquidityEvent.srcAddress := manager;
     ModifyLiquidityEvent.blockNumber := 101;
     ModifyLiquidityEvent.blockTimestamp := 1700000012;
     ModifyLiquidityEvent.transactionHash := "0xtx2";
     ModifyLiquidityEvent.transactionFrom := None;
     ModifyLiquidityEvent.logIndex := 3;
     ModifyLiquidityEvent.id := "0xother";
     ModifyLiquidityEvent.sender := "0xprovider";
     ModifyLiquidityEvent.tickLower := tickLower;
     ModifyLiquidityEvent.tickUpper := tickUpper;
     ModifyLiquidityEvent.liquidityDelta := liquidityDelta |}.

End Sample.

(** The character [c] does not occur in [s]. *)
Fixpoint lacks (c : ascii) (s : string) : Prop :=
  match s with
  | EmptyString => True
  | String a s' => a <> c /\ lacks c s'
  end.

(** Two token records that differ at most in [derivedETH]. *)
Definition sameExceptDerivedETH (a b : Token.t) : Prop :=
  Token.id a = Token.id b /\
  Token.name a = Token.name b /\
  Token.symbol a = Token.symbol b /\
  Token.decimals a = Token.decimals b /\
  Token.totalValueLocked a = Token.totalValueLocked b.

(** The key of the Swap record of an event. *)
Definition swapKey (event : SwapEvent.t) : string :=
  pretty (SwapEvent.chainId event) +:+ "_" +:+
  pretty (SwapEvent.blockNumber event) +:+ "_" +:+
  pretty (SwapEvent.logIndex event).

(** ** Proof automation *)

(** Equality of two closed decimals, by evaluation. *)
Ltac decimal_eq := apply Qc_is_canon; vm_compute; reflexivity.

(** Two closed decimals differ, by evaluation. *)
Ltac decimal_neq :=
  let H := fresh in
  intros H; apply (f_equal this) in H; vm_compute in H; discriminate H.

(** Every entry of a table written as a literal sits under its own id. *)
Ltac solve_table :=
  intros k x Hk;
  repeat (apply lookup_insert_Some in Hk as [[<- <-]|[_ Hk]]; [reflexivity|]);
  try (apply lookup_singleton_Some in Hk as [<- <-]; reflexivity);
  by rewrite ?lookup_empty in Hk.

(** What keeps an event from being processed: a required entity is absent
    from the store, or the pool is on the chain's exclusion list. *)
Definition missingDependency {U : Utils} (s : Store) (ev : Event) : Prop :=
  pools s !! poolKey ev = None \/
  (exists pool, pools s !! poolKey ev = Some pool /\
     (tokens s !! Pool.token0 pool = None \/ tokens s !! Pool.token1 pool = None)) \/
  poolManagers s !! managerKey ev = None \/
  eventPoolId ev ∈ poolsToSkip (getChainConfig (eventChain ev)) \/
  (exists e, ev = ModifyLiquidityEv e /\ bundles s !! bundleKey ev = None).

(** ** The store after a processed event, written out *)

Section Outcome.

Context {U : Utils}.

(** [pool.hooks !== "0x0000000000000000000000000000000000000000"]. *)
Definition isHooked (pool : Pool.t) : bool :=
  negb (String.eqb (Pool.hooks pool) ADDRESS_ZERO).

(** The hook statistics an event loads: those of a hooked pool's hook. *)
Definition loadedHookStats (s : Store) (chainId : Z) (pool : Pool.t)
    : option HookStats.t :=
  if isHooked pool then hookStatsOf s !! chainKey chainId (Pool.hooks pool) else None.

(** The bundle a swap works with: the stored one, or the zero default. *)
Definition loadedBundle (s : Store) (e : SwapEvent.t) : Bundle.t :=
  default {| Bundle.id := pretty (SwapEvent.chainId e); Bundle.ethPriceUSD := BD.ofZ 0 |}
          (bundles s !! pretty (SwapEvent.chainId e)).

(** A token with its native price refreshed, as a swap writes it back. *)
Definition refreshedToken (s : Store) (e : SwapEvent.t) (token : Token.t) : Token.t :=
  let chainConfig := getChainConfig (SwapEvent.chainId e) in
  Token.with_derivedETH
    (findNativePerToken s token (wrappedNativeAddress chainConfig)
       (stablecoinAddresses chainConfig) (minimumNativeLocked chainConfig))
    token.

Definition swapAmountsOf (s : Store) (e : SwapEvent.t) (pool : Pool.t)
    (token0 token1 : Token.t) : SwapAmounts :=
  swapAmounts (getChainConfig (SwapEvent.chainId e)) s e pool (loadedBundle s e)
    (refreshedToken s e token0) (refreshedToken s e token1).

Definition swappedPool (s : Store) (e : SwapEvent.t) (pool : Pool.t)
    (token0 token1 : Token.t) : Pool.t :=
  swapPool e pool (loadedBundle s e) (refreshedToken s e token0)
    (refreshedToken s e token1) (swapAmountsOf s e pool token0 token1).

(** The manager as the second [PoolManager.set] of a swap stores it. *)
Definition swappedManager (s : Store) (e : SwapEvent.t) (pool : Pool.t)
    (poolManager : PoolManager.t) (token0 token1 : Token.t) : PoolManager.t :=
  let poolManager :=
    swapPoolManager (Pool.totalValueLockedETH pool)
      (swappedPool s e pool token0 token1) poolManager (loadedBundle s e)
      (swapAmountsOf s e pool token0 token1) in
  PoolManager.with_swapCounts
    (PoolManager.numberOfSwaps poolManager + 1)
    (if isHooked pool
     then PoolManager.hookedSwaps poolManager + 1
     else PoolManager.hookedSwaps poolManager)
    poolManager.

(** The store a processed swap leaves behind. *)
Definition swapStore (s : Store) (e : SwapEvent.t) (pool : Pool.t)
    (poolManager : PoolManager.t) (token0 token1 : Token.t) : Store :=
  let chainConfig := getChainConfig (SwapEvent.chainId e) in
  {| poolManagers :=
       <[managerKey (SwapEv e) := swappedManager s e pool poolManager token0 token1]>
         (poolManagers s);
     pools := <[poolKey (SwapEv e) := swappedPool s e pool token0 token1]> (pools s);
     bundles :=
       <[bundleKey (SwapEv e) :=
           {| Bundle.id := bundleKey (SwapEv e);
              Bundle.ethPriceUSD :=
                getNativePriceInUSD s (pretty (SwapEvent.chainId e))
                  (stablecoinWrappedNativePoolId chainConfig)
                  (stablecoinIsToken0 chainConfig) |}]> (bundles s);
     tokens :=
       <[Pool.token1 pool := refreshedToken s e token1]>
         (<[Pool.token0 pool := refreshedToken s e token0]> (tokens s));
     hookStatsOf :=
       match loadedHookStats s (SwapEvent.chainId e) pool with
       | Some stats =>
           <[HookStats.id stats :=
               swapHookStats (Pool.totalValueLockedUSD pool)
                 (swappedPool s e pool token0 token1)
                 (swapAmountsOf s e pool token0 token1) stats]> (hookStatsOf s)
       | None => hookStatsOf s
       end;
     ticks := ticks s;
     swaps :=
       <[swapKey e :=
           swapEntity e (refreshedToken s e token0) (refreshedToken s e token1)
             (swapAmountsOf s e pool token0 token1)]> (swaps s);
     modifyLiquidities := modifyLiquidities s |}.

(** The tokens of a liquidity change, with their locked totals moved. *)
Definition fundedToken0 (e : ModifyLiquidityEvent.t) (pool : Pool.t)
    (token0 token1 : Token.t) : Token.t :=
  Token.with_totalValueLocked
    (BD.plus (Token.totalValueLocked token0) (fst (liquidityAmounts e pool token0 token1)))
    token0.

Definition fundedToken1 (e : ModifyLiquidityEvent.t) (pool : Pool.t)
    (token0 token1 : Token.t) : Token.t :=
  Token.with_totalValueLocked
    (BD.plus (Token.totalValueLocked token1) (snd (liquidityAmounts e pool token0 token1)))
    token1.

Definition fundedPool (e : ModifyLiquidityEvent.t) (pool : Pool.t)
    (token0 token1 : Token.t) (bundle : Bundle.t) : Pool.t :=
  liquidityPoolTvl
    (liquidityPoolBalances e pool (fst (liquidityAmounts e pool token0 token1))
       (snd (liquidityAmounts e pool token0 token1)))
    bundle (fundedToken0 e pool token0 token1) (fundedToken1 e pool token0 token1).

(** The key of the ModifyLiquidity record of an event. *)
Definition modifyLiquidityKey (e : ModifyLiquidityEvent.t) : string :=
  pretty (ModifyLiquidityEvent.chainId e) +:+ "_" +:+
  ModifyLiquidityEvent.transactionHash e +:+ "_" +:+
  pretty (ModifyLiquidityEvent.logIndex e).

Definition liquidityRecord (e : ModifyLiquidityEvent.t) (pool : Pool.t)
    (token0 token1 : Token.t) (bundle : Bundle.t) : ModifyLiquidity.t :=
  let amounts := liquidityAmounts e pool token0 token1 in
  liquidityEntity e (fundedPool e pool token0 token1 bundle)
    (fundedToken0 e pool token0 token1) (fundedToken1 e pool token0 token1)
    (fst amounts) (snd amounts)
    (BD.times
       (BD.plus (BD.times (fst amounts) (Token.derivedETH token0))
                (BD.times (snd amounts) (Token.derivedETH token1)))
       (Bundle.ethPriceUSD bundle)).

(** The store a processed liquidity change leaves behind. *)
Definition liquidityStore (s : Store) (e : ModifyLiquidityEvent.t) (pool : Pool.t)
    (poolManager : PoolManager.t) (token0 token1 : Token.t) (bundle : Bundle.t)
    : Store :=
  {| poolManagers :=
       <[managerKey (ModifyLiquidityEv e) :=
           liquidityPoolManager (Pool.totalValueLockedETH pool)
             (fundedPool e pool token0 token1 bundle) poolManager bundle]>
         (poolManagers s);
     pools :=
       <[poolKey (ModifyLiquidityEv e) := fundedPool e pool token0 token1 bundle]>
         (pools s);
     bundles := bundles s;
     tokens :=
       <[Pool.token1 pool := fundedToken1 e pool token0 token1]>
         (<[Pool.token0 pool := fundedToken0 e pool token0 token1]> (tokens s));
     hookStatsOf :=
       match loadedHookStats s (ModifyLiquidityEvent.chainId e) pool with
       | Some stats =>
           <[HookStats.id stats :=
               HookStats.with_totalValueLockedUSD
                 (BD.plus
                    (BD.minus (HookStats.totalValueLockedUSD stats)
                              (Pool.totalValueLockedUSD pool))
                    (BD.times
                       (Pool.totalValueLockedETH (fundedPool e pool token0 token1 bundle))
                       (Bundle.ethPriceUSD bundle)))
                 stats]> (hookStatsOf s)
       | None => hookStatsOf s
       end;
     ticks := ticks (applyWrites (tickWrites s e (Pool.id pool)) s);
     swaps := swaps s;
     modifyLiquidities :=
       <[modifyLiquidityKey e := liquidityRecord e pool token0 token1 bundle]>
         (modifyLiquidities s) |}.

End Outcome.

(** Hook statistics are stored under their own id. *)
Definition wfHooks (s : Store) : Prop :=
  forall k x, hookStatsOf s !! k = Some x -> HookStats.id x = k.

(** ** Further invariants of the store *)

(** The message a loader run raised, if it raised. *)
Definition thrown {A} (r : Result A) : option string :=
  match r with
  | Returned _ _ => None
  | Thrown msg _ => Some msg
  end.

(** The total of an integer field over all stored ticks. *)
Definition sumTicks (field : Tick.t -> Z) (m : gmap string Tick.t) : Z :=
  map_fold (fun _ tick acc => acc + field tick) 0 m.

(** The manager's swap totals are the totals over the pools of its chain. *)
Definition managerVolumesMatch (s : Store) (chainId : Z) (srcAddress : string) : Prop :=
  forall m, poolManagers s !! chainKey chainId srcAddress = Some m ->
    PoolManager.totalVolumeUSD m = sumPools Pool.volumeUSD chainId (pools s) /\
    PoolManager.untrackedVolumeUSD m =
      sumPools Pool.untrackedVolumeUSD chainId (pools s) /\
    PoolManager.totalFeesUSD m = sumPools Pool.feesUSD chainId (pools s).

(** What a pool contributes to the USD TVL of [hook]. *)
Definition hookedTvlUSD (hook : string) (pool : Pool.t) : BigDecimal :=
  if String.eqb (Pool.hooks pool) hook then Pool.totalValueLockedUSD pool else BD.zero.

(** The USD TVL of a hook's statistics is the total over the pools of the
    chain that use the hook. *)
Definition hookTvlMatches (s : Store) (chainId : Z) (hook : string) : Prop :=
  forall stats, hookStatsOf s !! chainKey chainId hook = Some stats ->
    HookStats.totalValueLockedUSD stats =
      sumPools (hookedTvlUSD hook) chainId (pools s).

(** Every manager has counted at least as many transactions as swaps, and
    at least as many swaps as swaps through hooked pools. *)
Definition countersOrdered (s : Store) : Prop :=
  forall k m, poolManagers s !! k = Some m ->
    PoolManager.hookedSwaps m <= PoolManager.numberOfSwaps m /\
    PoolManager.numberOfSwaps m <= PoolManager.txCount m.

(** No swap of the sequence carries the chain, block and log index of
    [event]. *)
Definition noSwapAt (event : SwapEvent.t) (evs : list Event) : Prop :=
  Forall
    (fun ev =>
       match ev with
       | SwapEv e =>
           (SwapEvent.chainId e, SwapEvent.blockNumber e, SwapEvent.logIndex e) <>
           (SwapEvent.chainId event, SwapEvent.blockNumber event,
            SwapEvent.logIndex event)
       | ModifyLiquidityEv _ => True
       end) evs.

(** A sample chain with a hooked pool and the statistics of its hook. *)
Module SampleHooks.

Definition hook : string := "0xhook".

Definition hookedPool : Pool.t :=
  let pool := Sample.usdcWethPool Sample.otherPool 2000 1 1000 in
  {| Pool.id := Pool.id pool;
     Pool.token0 := Pool.token0 pool;
     Pool.token1 := Pool.token1 pool;
     Pool.hooks := hook;
     Pool.feeTier := Pool.feeTier pool;
     Pool.sqrtPrice := Pool.sqrtPrice pool;
     Pool.tick := Pool.tick pool;
     Pool.liquidity := Pool.liquidity pool;
     Pool.token0Price := Pool.token0Price pool;
     Pool.token1Price := Pool.token1Price pool;
     Pool.txCount := Pool.txCount pool;
     Pool.volumeToken0 := Pool.volumeToken0 pool;
     Pool.volumeToken1 := Pool.volumeToken1 pool;
     Pool.volumeUSD := Pool.volumeUSD pool;
     Pool.untrackedVolumeUSD := Pool.untrackedVolumeUSD pool;
     Pool.feesUSD := Pool.feesUSD pool;
     Pool.feesUSDUntracked := Pool.feesUSDUntracked pool;
     Pool.collectedFeesToken0 := Pool.collectedFeesToken0 pool;
     Pool.collectedFeesToken1 := Pool.collectedFeesToken1 pool;
     Pool.collectedFeesUSD := Pool.collectedFeesUSD pool;
     Pool.totalValueLockedToken0 := Pool.totalValueLockedToken0 pool;
     Pool.totalValueLockedToken1 := Pool.totalValueLockedToken1 pool;
     Pool.totalValueLockedETH := Pool.totalValueLockedETH pool;
     Pool.totalValueLockedUSD := Pool.totalValueLockedUSD pool |}.

Definition stats : HookStats.t :=
  {| HookStats.id := chainKey 1 hook;
     HookStats.numberOfSwaps := 0;
     HookStats.totalVolumeUSD := BD.zero;
     HookStats.untrackedVolumeUSD := BD.zero;
     HookStats.totalFeesUSD := BD.zero;
     HookStats.totalValueLockedUSD := BD.ofZ 2000 |}.

(** The sample store with its second pool behind a hook. *)
Definition store : Store :=
  {| poolManagers := poolManagers Sample.store;
     pools := <[Sample.otherPool := hookedPool]> (pools Sample.store);
     bundles := bundles Sample.store;
     tokens := tokens Sample.store;
     hookStatsOf := {[ chainKey 1 hook := stats ]};
     ticks := ∅;
     swaps := ∅;
     modifyLiquidities := ∅ |}.

End SampleHooks.

(** The chains [getRpcUrl] has a case for. *)
Definition rpcChains : list Z :=
  [1; 42161; 10; 8453; 137; 43114; 56; 81457; 7777777; 1868; 130; 57073; 480].

(** No liquidity change of the sequence carries the chain, transaction hash
    and log index of [event]. *)
Definition noLiquidityChangeAt (event : ModifyLiquidityEvent.t) (evs : list Event)
    : Prop :=
  Forall
    (fun ev =>
       match ev with
       | SwapEv _ => True
       | ModifyLiquidityEv e =>
           (ModifyLiquidityEvent.chainId e, ModifyLiquidityEvent.transactionHash e,
            ModifyLiquidityEvent.logIndex e) <>
           (ModifyLiquidityEvent.chainId event,
            ModifyLiquidityEvent.transactionHash event,
            ModifyLiquidityEvent.logIndex event)
       end) evs.

(** ** Strings: characters *)

(** Every character of the string satisfies [p]. *)
Fixpoint allChars (p : ascii -> bool) (s : string) : bool :=
  match s with
  | EmptyString => true
  | String c s' => p c && allChars p s'
  end.

(** A 7-bit character: on strings of these, a character of the model is a
    UTF-16 code unit of the JavaScript string. *)
Definition isAscii (c : ascii) : bool := (N_of_ascii c <? 128)%N.

Definition firstChar (s : string) : option ascii :=
  match s with
  | EmptyString => None
  | String c _ => Some c
  end.

Fixpoint lastChar (s : string) : option ascii :=
  match s with
  | EmptyString => None
  | String c EmptyString => Some c
  | String _ s' => lastChar s'
  end.

(** * Properties *)

(** ** Running the loaders *)

Lemma extend_nil st : extend st [] = st.
Proof. destruct st as [d l]. unfold extend; simpl. by rewrite app_nil_r. Qed.

Lemma setAll_run ws st : setAll ws st = Returned tt (extend st ws).
Proof.
  revert st. induction ws as [|w ws IH]; intros st.
  - simpl. unfold ret. by rewrite extend_nil.
  - simpl. unfold bind, set. rewrite IH. unfold extend; simpl.
    by rewrite <- app_assoc.
Qed.

Section Running.

Local Arguments swapWrites : simpl never.
Local Arguments modifyLiquidityWrites : simpl never.
Local Arguments setAll : simpl never.
Local Arguments updateTicks : simpl never.

Context {U : Utils}.

Lemma swapLoader_run event st :
  swapLoader false event st = Returned tt (extend st (swapEffects (db st) event)).
Proof.
  unfold swapLoader, swapEffects, bind, get, reads, ret.
  destruct (pools (db st) !! chainKey (SwapEvent.chainId event) (SwapEvent.id event))
    as [pool|]; simpl;
    [|destruct (poolManagers (db st) !! chainKey (SwapEvent.chainId event)
                  (SwapEvent.srcAddress event)); by rewrite extend_nil].
  destruct (poolManagers (db st) !! chainKey (SwapEvent.chainId event)
              (SwapEvent.srcAddress event)) as [pm|]; simpl; [|by rewrite extend_nil].
  destruct (negb (Pool.hooks pool =? ADDRESS_ZERO)%string) eqn:Hh; simpl.
  all: destruct (tokens (db st) !! Pool.token0 pool) as [t0|]; simpl;
    [|by rewrite extend_nil].
  all: destruct (tokens (db st) !! Pool.token1 pool) as [t1|]; simpl;
    [|by rewrite extend_nil].
  all: case_bool_decide; [by rewrite extend_nil|].
  all: by rewrite setAll_run.
Qed.

Lemma extend_extend st ws1 ws2 :
  extend (extend st ws1) ws2 = extend st (ws1 ++ ws2).
Proof.
  unfold extend, applyWrites; simpl. by rewrite fold_left_app, app_assoc.
Qed.

Lemma updateTicks_run event poolId st :
  updateTicks false event poolId st =
  Returned tt (extend st (tickWrites (db st) event poolId)).
Proof.
  unfold updateTicks, tickWrites, tickBefore, bind, get, reads, set, extend; simpl.
  by rewrite <- app_assoc.
Qed.

Lemma updateTicks_preload event poolId st :
  updateTicks true event poolId st = Returned tt st.
Proof. reflexivity. Qed.

Lemma modifyLiquidityLoader_run event st :
  modifyLiquidityLoader false event st =
  if managerMissing (db st) event
  then Thrown (notFound (managerKey (ModifyLiquidityEv event))) st
  else Returned tt (extend st (modifyLiquidityEffects (db st) event)).
Proof.
  unfold modifyLiquidityLoader, modifyLiquidityEffects, managerMissing, processed,
    tokensPresent, excluded, poolKey, managerKey, bundleKey, eventChain,
    eventPoolId, eventSource, bind, get, getOrThrow, reads, ret.
  case_bool_decide as Hskip; cbn.
  { rewrite !andb_false_r. cbn. by rewrite extend_nil. }
  destruct (pools (db st) !! chainKey (ModifyLiquidityEvent.chainId event)
              (ModifyLiquidityEvent.id event)) as [pool|]; cbn;
    [|by rewrite extend_nil].
  destruct (tokens (db st) !! Pool.token0 pool) as [t0|]; cbn;
    [|by rewrite extend_nil].
  destruct (tokens (db st) !! Pool.token1 pool) as [t1|]; cbn;
    [|by rewrite extend_nil].
  destruct (bundles (db st) !! pretty (ModifyLiquidityEvent.chainId event))
    as [bundle|]; cbn.
  2:{ rewrite ?andb_false_r; cbn. by rewrite extend_nil. }
  destruct (poolManagers (db st) !! chainKey (ModifyLiquidityEvent.chainId event)
              (ModifyLiquidityEvent.srcAddress event)) as [pm|]; cbn; [|done].
  rewrite updateTicks_run.
  destruct (negb (Pool.hooks pool =? ADDRESS_ZERO)%string); cbn;
    by rewrite setAll_run, extend_extend.
Qed.

Lemma swapLoader_preload event st : swapLoader true event st = Returned tt st.
Proof.
  unfold swapLoader, bind, get, reads, ret.
  destruct (pools (db st) !! chainKey (SwapEvent.chainId event) (SwapEvent.id event))
    as [pool|]; cbn;
    [|by destruct (poolManagers (db st) !! chainKey (SwapEvent.chainId event)
                     (SwapEvent.srcAddress event))].
  destruct (poolManagers (db st) !! chainKey (SwapEvent.chainId event)
              (SwapEvent.srcAddress event)) as [pm|]; cbn; [|done].
  destruct (negb (Pool.hooks pool =? ADDRESS_ZERO)%string); cbn.
  all: destruct (tokens (db st) !! Pool.token0 pool) as [t0|]; cbn; [|done].
  all: destruct (tokens (db st) !! Pool.token1 pool) as [t1|]; cbn; [|done].
  all: by case_bool_decide.
Qed.

Lemma modifyLiquidityLoader_preload event st :
  modifyLiquidityLoader true event st =
  if managerMissing (db st) event
  then Thrown (notFound (managerKey (ModifyLiquidityEv event))) st
  else Returned tt st.
Proof.
  unfold modifyLiquidityLoader, managerMissing,
    tokensPresent, excluded, poolKey, managerKey, bundleKey, eventChain,
    eventPoolId, eventSource, bind, get, getOrThrow, reads, ret.
  case_bool_decide as Hskip; cbn.
  { by rewrite !andb_false_r. }
  destruct (pools (db st) !! chainKey (ModifyLiquidityEvent.chainId event)
              (ModifyLiquidityEvent.id event)) as [pool|]; cbn; [|done].
  destruct (tokens (db st) !! Pool.token0 pool) as [t0|]; cbn; [|done].
  destruct (tokens (db st) !! Pool.token1 pool) as [t1|]; cbn; [|done].
  destruct (bundles (db st) !! pretty (ModifyLiquidityEvent.chainId event))
    as [bundle|]; cbn; [|done].
  destruct (poolManagers (db st) !! chainKey (ModifyLiquidityEvent.chainId event)
              (ModifyLiquidityEvent.srcAddress event)) as [pm|]; cbn; [|done].
  by rewrite updateTicks_preload.
Qed.

(** The preload pass of either loader leaves the state as it found it. *)
Lemma preload_writes_nothing isPreload ev st :
  isPreload = true -> stateOf (handle isPreload ev st) = st.
Proof.
  intros ->. destruct ev as [e|e]; simpl.
  - by rewrite swapLoader_preload.
  - rewrite modifyLiquidityLoader_preload. by destruct (managerMissing (db st) e).
Qed.

End Running.

Section Stepping.

Context {U : Utils}.

Lemma process_effects s ev : process s ev = applyWrites (effects s ev) s.
Proof.
  unfold process, handle, effects. destruct ev as [e|e].
  - by rewrite swapLoader_run.
  - rewrite modifyLiquidityLoader_run. simpl.
    destruct (managerMissing s e) eqn:Hm; [|done]. simpl.
    unfold modifyLiquidityEffects.
    replace (processed s (ModifyLiquidityEv e)) with false; [done|].
    unfold managerMissing in Hm. unfold processed.
    apply andb_prop in Hm as [_ Hm]. apply bool_decide_eq_true in Hm.
    rewrite Hm. simpl. by rewrite !andb_false_r.
Qed.

Lemma processAll_snoc s evs ev :
  processAll s (evs ++ [ev]) = process (processAll s evs) ev.
Proof. unfold processAll. by rewrite fold_left_app. Qed.

Lemma wfStore_applyWrite w s : wfStore s -> wfStore (applyWrite w s).
Proof.
  intros [Hp Ht Hm Hb Hk]. destruct w; constructor; simpl; auto;
    intros k y Hy; apply lookup_insert_Some in Hy as [[<- <-]|[_ Hy]]; auto.
Qed.

Lemma wfStore_applyWrites ws s : wfStore s -> wfStore (applyWrites ws s).
Proof.
  revert s. induction ws as [|w ws IH]; intros s Hs; [done|].
  simpl. apply IH. by apply wfStore_applyWrite.
Qed.

Lemma wfStore_process s ev : wfStore s -> wfStore (process s ev).
Proof. rewrite process_effects. apply wfStore_applyWrites. Qed.

Lemma wfStore_processAll s evs : wfStore s -> wfStore (processAll s evs).
Proof.
  revert s. induction evs as [|ev evs IH]; intros s Hs; [done|].
  simpl. apply IH. by apply wfStore_process.
Qed.

End Stepping.

Section Preconditions.

Context {U : Utils}.

Lemma processed_tokens s ev :
  processed s ev = true ->
  exists pool pm token0 token1,
    pools s !! poolKey ev = Some pool /\
    poolManagers s !! managerKey ev = Some pm /\
    tokens s !! Pool.token0 pool = Some token0 /\
    tokens s !! Pool.token1 pool = Some token1 /\
    eventPoolId ev ∉ poolsToSkip (getChainConfig (eventChain ev)).
Proof.
  unfold processed, tokensPresent, excluded. intros H.
  apply andb_prop in H as [H _]. apply andb_prop in H as [H Hx].
  apply andb_prop in H as [Ht Hm].
  destruct (pools s !! poolKey ev) as [pool|]; [|done].
  apply andb_prop in Ht as [H0 H1].
  apply bool_decide_eq_true in H0 as [t0 H0], H1 as [t1 H1], Hm as [pm Hm].
  apply negb_true_iff, bool_decide_eq_false in Hx.
  by exists pool, pm, t0, t1.
Qed.

Lemma processed_bundle s e :
  processed s (ModifyLiquidityEv e) = true ->
  exists bundle, bundles s !! pretty (ModifyLiquidityEvent.chainId e) = Some bundle.
Proof.
  unfold processed. intros H. apply andb_prop in H as [_ H].
  apply bool_decide_eq_true in H as [b H]. by exists b.
Qed.

Lemma processed_false_iff s ev :
  processed s ev = false <-> missingDependency s ev.
Proof.
  unfold processed, missingDependency, tokensPresent, excluded.
  destruct (pools s !! poolKey ev) as [pool|] eqn:Hpool; [|split; auto].
  destruct (tokens s !! Pool.token0 pool) as [t0|] eqn:Ht0;
    [|split; [right; left; eauto|done]].
  destruct (tokens s !! Pool.token1 pool) as [t1|] eqn:Ht1;
    [|split; [right; left; eauto|done]].
  destruct (poolManagers s !! managerKey ev) as [pm|] eqn:Hpm;
    [|split; [auto|done]].
  simpl. case_bool_decide as Hx; simpl; [split; [auto|done]|].
  destruct ev as [e|e].
  - split; [done|].
    intros [?|[(p & [= <-] & [?|?])|[?|[?|(e' & ? & _)]]]]; congruence || done.
  - destruct (bundles s !! bundleKey (ModifyLiquidityEv e)) as [b|] eqn:Hb; simpl.
    + split; [done|].
      intros [?|[(p & [= <-] & [?|?])|[?|[?|(e' & _ & ?)]]]]; congruence || done.
    + split; [|done]. intros _. do 4 right. by exists e.
Qed.

End Preconditions.

Section Steps.

Context {U : Utils}.

Local Arguments swapPool : simpl never.
Local Arguments swapAmounts : simpl never.
Local Arguments swapPoolManager : simpl never.
Local Arguments swapEntity : simpl never.
Local Arguments swapHookStats : simpl never.
Local Arguments liquidityAmounts : simpl never.
Local Arguments liquidityPoolBalances : simpl never.
Local Arguments liquidityPoolTvl : simpl never.
Local Arguments liquidityPoolManager : simpl never.
Local Arguments liquidityEntity : simpl never.
Local Arguments tickWrites : simpl never.

Lemma two_token_sets (m : gmap string Token.t) (a b : Token.t) :
  (Token.id a = Token.id b -> Token.derivedETH a = Token.derivedETH b) ->
  exists x y,
    <[Token.id b := b]> (<[Token.id a := a]> m) !! Token.id a = Some x /\
    <[Token.id b := b]> (<[Token.id a := a]> m) !! Token.id b = Some y /\
    Token.derivedETH x = Token.derivedETH a /\
    Token.derivedETH y = Token.derivedETH b.
Proof.
  intros Hsame. destruct (decide (Token.id a = Token.id b)) as [Heq|Hne].
  - exists b, b. rewrite Heq, lookup_insert_eq. by rewrite Hsame.
  - exists a, b. rewrite lookup_insert_ne by done. by rewrite !lookup_insert_eq.
Qed.

Lemma liquidityPoolBalances_balances event pool a0 a1 :
  Pool.totalValueLockedToken0 (liquidityPoolBalances event pool a0 a1) =
    BD.plus (Pool.totalValueLockedToken0 pool) a0 /\
  Pool.totalValueLockedToken1 (liquidityPoolBalances event pool a0 a1) =
    BD.plus (Pool.totalValueLockedToken1 pool) a1 /\
  Pool.totalValueLockedETH (liquidityPoolBalances event pool a0 a1) =
    Pool.totalValueLockedETH pool /\
  Pool.totalValueLockedUSD (liquidityPoolBalances event pool a0 a1) =
    Pool.totalValueLockedUSD pool /\
  Pool.id (liquidityPoolBalances event pool a0 a1) = Pool.id pool /\
  Pool.token0 (liquidityPoolBalances event pool a0 a1) = Pool.token0 pool /\
  Pool.token1 (liquidityPoolBalances event pool a0 a1) = Pool.token1 pool.
Proof. unfold liquidityPoolBalances. simpl. by destruct (_ && _). Qed.

Lemma swap_pool_tvl s e :
  wfStore s -> processed s (SwapEv e) = true ->
  poolTvlRecomputed (process s (SwapEv e)) (poolKey (SwapEv e))
    (loadedNativePrice s (SwapEv e)).
Proof.
  intros Hwf Hp.
  destruct (processed_tokens _ _ Hp) as (pool & pm & t0 & t1 & Hpool & Hpm & Ht0 & Ht1 & Hx).
  rewrite process_effects. unfold effects, swapEffects, poolTvlRecomputed, loadedNativePrice.
  unfold poolKey, managerKey, bundleKey in *. simpl in Hpool, Hpm, Hx |- *.
  rewrite Hpool, Hpm, Ht0, Ht1. rewrite bool_decide_eq_false_2 by done.
  pose proof (wf_pools _ Hwf _ _ Hpool) as Hid.
  pose proof (wf_tokens _ Hwf _ _ Ht0) as Hid0.
  pose proof (wf_tokens _ Hwf _ _ Ht1) as Hid1.
  set (cfg := getChainConfig (SwapEvent.chainId e)).
  set (t0' := Token.with_derivedETH _ t0).
  set (t1' := Token.with_derivedETH _ t1).
  set (bundle := default _ (bundles s !! pretty (SwapEvent.chainId e))).
  assert (Hb : Bundle.ethPriceUSD bundle =
               match bundles s !! pretty (SwapEvent.chainId e) with
               | Some b => Bundle.ethPriceUSD b
               | None => BD.ofZ 0
               end)
    by (subst bundle; by destruct (bundles s !! _)).
  rewrite <- Hb.
  destruct (two_token_sets (tokens s) t0' t1') as (x & y & Hx0 & Hy1 & Hdx & Hdy).
  { subst t0' t1'. simpl. rewrite Hid0, Hid1. intros Hk.
    rewrite Hk, Ht1 in Ht0. by injection Ht0 as ->. }
  match goal with |- context [swapWrites _ _ _ _ _ _ _ _ ?hs _ _] =>
    destruct hs as [hst|] end.
  all: cbn.
  all: eexists _, x, y; split; [rewrite <- Hid; apply lookup_insert_eq|].
  all: change (Token.id t0') with (Token.id t0) in Hx0, Hy1.
  all: change (Token.id t1') with (Token.id t1) in Hx0, Hy1.
  all: change (Pool.token0 (swapPool _ ?p _ _ _ _)) with (Pool.token0 p).
  all: change (Pool.token1 (swapPool _ ?p _ _ _ _)) with (Pool.token1 p).
  all: rewrite <- Hid0, <- Hid1.
  all: split; [exact Hx0|split; [exact Hy1|]].
  all: by rewrite Hdx, Hdy.
Qed.

Lemma liquidity_pool_tvl s e :
  wfStore s -> processed s (ModifyLiquidityEv e) = true ->
  poolTvlRecomputed (process s (ModifyLiquidityEv e)) (poolKey (ModifyLiquidityEv e))
    (loadedNativePrice s (ModifyLiquidityEv e)) /\
  bundles (process s (ModifyLiquidityEv e)) = bundles s.
Proof.
  intros Hwf Hp.
  destruct (processed_tokens _ _ Hp) as (pool & pm & t0 & t1 & Hpool & Hpm & Ht0 & Ht1 & Hx).
  destruct (processed_bundle _ _ Hp) as (bundle & Hb).
  rewrite process_effects. unfold effects, modifyLiquidityEffects, poolTvlRecomputed,
    loadedNativePrice.
  rewrite Hp.
  unfold poolKey, managerKey, bundleKey in *. simpl in Hpool, Hpm, Hx |- *.
  rewrite Hpool, Hpm, Ht0, Ht1, Hb.
  pose proof (wf_pools _ Hwf _ _ Hpool) as Hid.
  pose proof (wf_tokens _ Hwf _ _ Ht0) as Hid0.
  pose proof (wf_tokens _ Hwf _ _ Ht1) as Hid1.
  unfold modifyLiquidityWrites.
  set (a := liquidityAmounts e pool t0 t1).
  set (t0' := Token.with_totalValueLocked _ t0).
  set (t1' := Token.with_totalValueLocked _ t1).
  destruct (liquidityPoolBalances_balances e pool a.1 a.2)
    as (Hb0 & Hb1 & _ & _ & Hbid & Hbt0 & Hbt1).
  destruct (two_token_sets (tokens s) t0' t1') as (x & y & Hx0 & Hy1 & Hdx & Hdy).
  { subst t0' t1'. simpl. rewrite Hid0, Hid1. intros Hk.
    rewrite Hk, Ht1 in Ht0. by injection Ht0 as ->. }
  change (Token.id t0') with (Token.id t0) in Hx0, Hy1.
  change (Token.id t1') with (Token.id t1) in Hx0, Hy1.
  match goal with |- context [if ?c then hookStatsOf s !! _ else None] =>
    destruct (if c then hookStatsOf s !! _ else None) as [hst|] end.
  all: unfold tickWrites; cbn.
  all: (split; [|done]).
  all: eexists _, x, y; split;
    [change (Pool.id (liquidityPoolTvl ?p _ _ _)) with (Pool.id p);
     rewrite Hbid, <- Hid; apply lookup_insert_eq|].
  all: change (Pool.token0 (liquidityPoolTvl ?p _ _ _)) with (Pool.token0 p).
  all: change (Pool.token1 (liquidityPoolTvl ?p _ _ _)) with (Pool.token1 p).
  all: rewrite Hbt0, Hbt1, <- Hid0, <- Hid1.
  all: split; [exact Hx0|split; [exact Hy1|]].
  all: by rewrite Hdx, Hdy.
Qed.

Lemma effects_unprocessed s ev : processed s ev = false -> effects s ev = [].
Proof.
  intros Hp. destruct ev as [e|e]; simpl.
  - revert Hp. unfold processed, tokensPresent, excluded, swapEffects, poolKey,
      managerKey; simpl.
    destruct (pools s !! _) as [pool|]; [|done].
    destruct (poolManagers s !! _) as [pm|]; [|done].
    destruct (tokens s !! Pool.token0 pool) as [t0|]; [|done].
    destruct (tokens s !! Pool.token1 pool) as [t1|]; [|done].
    simpl. case_bool_decide as Hskip; [done|]. simpl. intros Hf.
    done.
  - unfold modifyLiquidityEffects. by rewrite Hp.
Qed.

Lemma processed_step s ev :
  wfStore s -> processed s ev = true ->
  exists pool pm pool' pm',
    pools s !! poolKey ev = Some pool /\
    poolManagers s !! managerKey ev = Some pm /\
    pools (process s ev) = <[poolKey ev := pool']> (pools s) /\
    poolManagers (process s ev) = <[managerKey ev := pm']> (poolManagers s) /\
    PoolManager.totalValueLockedETH pm' =
      BD.plus (BD.minus (PoolManager.totalValueLockedETH pm)
                        (Pool.totalValueLockedETH pool))
              (Pool.totalValueLockedETH pool') /\
    PoolManager.totalValueLockedUSD pm' =
      BD.times (PoolManager.totalValueLockedETH pm') (loadedNativePrice s ev).
Proof.
  intros Hwf Hp.
  destruct (processed_tokens _ _ Hp) as (pool & pm & t0 & t1 & Hpool & Hpm & Ht0 & Ht1 & Hx).
  pose proof (wf_pools _ Hwf _ _ Hpool) as Hid.
  pose proof (wf_poolManagers _ Hwf _ _ Hpm) as Hidm.
  exists pool, pm. rewrite process_effects.
  destruct ev as [e|e]; unfold effects.
  - unfold swapEffects, loadedNativePrice.
    unfold poolKey, managerKey, bundleKey in *. simpl in Hpool, Hpm, Hx, Hid, Hidm |- *.
    rewrite Hpool, Hpm, Ht0, Ht1. rewrite bool_decide_eq_false_2 by done.
    set (bundle := default _ (bundles s !! pretty (SwapEvent.chainId e))).
    assert (Hb : Bundle.ethPriceUSD bundle =
                 match bundles s !! pretty (SwapEvent.chainId e) with
                 | Some b => Bundle.ethPriceUSD b
                 | None => BD.ofZ 0
                 end)
      by (subst bundle; by destruct (bundles s !! _)).
    rewrite <- Hb.
    match goal with |- context [swapWrites _ _ _ _ _ _ _ _ ?hs _ _] =>
      destruct hs as [hst|] end.
    all: cbn.
    all: change (Pool.id (swapPool _ ?p _ _ _ _)) with (Pool.id p).
    all: change (PoolManager.id (swapPoolManager _ _ ?m _ _)) with (PoolManager.id m).
    all: rewrite Hid, Hidm, insert_insert_eq.
    all: eexists _, _; repeat split; reflexivity.
  - destruct (processed_bundle _ _ Hp) as (bundle & Hb).
    unfold modifyLiquidityEffects, loadedNativePrice. rewrite Hp.
    unfold poolKey, managerKey, bundleKey in *. simpl in Hpool, Hpm, Hx, Hid, Hidm |- *.
    rewrite Hpool, Hpm, Ht0, Ht1, Hb.
    unfold modifyLiquidityWrites.
    set (a := liquidityAmounts e pool t0 t1).
    destruct (liquidityPoolBalances_balances e pool a.1 a.2)
      as (_ & _ & Hbeth & _ & Hbid & _ & _).
    match goal with |- context [if ?c then hookStatsOf s !! _ else None] =>
      destruct (if c then hookStatsOf s !! _ else None) as [hst|] end.
    all: unfold tickWrites; cbn.
    all: change (Pool.id (liquidityPoolTvl ?p _ _ _)) with (Pool.id p).
    all: change (PoolManager.id (liquidityPoolManager _ _ ?m _)) with (PoolManager.id m).
    all: rewrite Hbid, Hid, Hidm.
    all: eexists _, _; split; [done|split; [done|]].
    all: split; [reflexivity|split; [reflexivity|]].
    all: split; [|reflexivity].
    all: unfold liquidityPoolManager; cbn; by rewrite Hbeth.
Qed.

(** The store after a processed swap, table by table. *)
Lemma swap_post s e :
  wfStore s -> processed s (SwapEv e) = true ->
  exists pool pm t0 t1,
    pools s !! poolKey (SwapEv e) = Some pool /\
    poolManagers s !! managerKey (SwapEv e) = Some pm /\
    tokens s !! Pool.token0 pool = Some t0 /\
    tokens s !! Pool.token1 pool = Some t1 /\
    let cfg := getChainConfig (SwapEvent.chainId e) in
    let bundle :=
      default {| Bundle.id := pretty (SwapEvent.chainId e);
                 Bundle.ethPriceUSD := BD.ofZ 0 |}
              (bundles s !! pretty (SwapEvent.chainId e)) in
    let t0' :=
      Token.with_derivedETH
        (findNativePerToken s t0 (wrappedNativeAddress cfg)
           (stablecoinAddresses cfg) (minimumNativeLocked cfg)) t0 in
    let t1' :=
      Token.with_derivedETH
        (findNativePerToken s t1 (wrappedNativeAddress cfg)
           (stablecoinAddresses cfg) (minimumNativeLocked cfg)) t1 in
    let a := swapAmounts cfg s e pool bundle t0' t1' in
    pools (process s (SwapEv e)) =
      <[poolKey (SwapEv e) := swapPool e pool bundle t0' t1' a]> (pools s) /\
    tokens (process s (SwapEv e)) =
      <[Pool.token1 pool := t1']> (<[Pool.token0 pool := t0']> (tokens s)) /\
    swaps (process s (SwapEv e)) =
      <[Swap.id (swapEntity e t0' t1' a) := swapEntity e t0' t1' a]> (swaps s).
Proof.
  intros Hwf Hp.
  destruct (processed_tokens _ _ Hp) as (pool & pm & t0 & t1 & Hpool & Hpm & Ht0 & Ht1 & Hx).
  pose proof (wf_pools _ Hwf _ _ Hpool) as Hid.
  pose proof (wf_tokens _ Hwf _ _ Ht0) as Hid0.
  pose proof (wf_tokens _ Hwf _ _ Ht1) as Hid1.
  exists pool, pm, t0, t1. do 4 (split; [done|]). intros cfg bundle t0' t1' a.
  rewrite process_effects. unfold effects, swapEffects.
  unfold poolKey, managerKey in *. simpl in Hpool, Hpm, Hx, Hid |- *.
  rewrite Hpool, Hpm, Ht0, Ht1. rewrite bool_decide_eq_false_2 by done.
  fold cfg. fold bundle. fold t0'. fold t1'.
  match goal with |- context [swapWrites _ _ _ _ _ _ _ _ ?hs _ _] =>
    destruct hs as [hst|] end.
  all: unfold swapWrites; fold a; cbn.
  all: change (Pool.id (swapPool _ ?p _ _ _ _)) with (Pool.id p).
  all: change (Token.id t0') with (Token.id t0).
  all: change (Token.id t1') with (Token.id t1).
  all: by rewrite Hid, Hid0, Hid1.
Qed.

(** The store after a processed liquidity change, table by table. *)
Lemma liquidity_post s e :
  wfStore s -> processed s (ModifyLiquidityEv e) = true ->
  exists pool pm t0 t1 bundle,
    pools s !! poolKey (ModifyLiquidityEv e) = Some pool /\
    poolManagers s !! managerKey (ModifyLiquidityEv e) = Some pm /\
    tokens s !! Pool.token0 pool = Some t0 /\
    tokens s !! Pool.token1 pool = Some t1 /\
    bundles s !! bundleKey (ModifyLiquidityEv e) = Some bundle /\
    let a := liquidityAmounts e pool t0 t1 in
    let t0' :=
      Token.with_totalValueLocked (BD.plus (Token.totalValueLocked t0) (fst a)) t0 in
    let t1' :=
      Token.with_totalValueLocked (BD.plus (Token.totalValueLocked t1) (snd a)) t1 in
    pools (process s (ModifyLiquidityEv e)) =
      <[poolKey (ModifyLiquidityEv e) :=
          liquidityPoolTvl (liquidityPoolBalances e pool (fst a) (snd a)) bundle t0' t1']>
        (pools s) /\
    tokens (process s (ModifyLiquidityEv e)) =
      <[Pool.token1 pool := t1']> (<[Pool.token0 pool := t0']> (tokens s)) /\
    ticks (process s (ModifyLiquidityEv e)) =
      ticks (applyWrites (tickWrites s e (Pool.id pool)) s) /\
    exists rest,
      effects s (ModifyLiquidityEv e) = (tickWrites s e (Pool.id pool) ++ rest)%list.
Proof.
  intros Hwf Hp.
  destruct (processed_tokens _ _ Hp) as (pool & pm & t0 & t1 & Hpool & Hpm & Ht0 & Ht1 & Hx).
  destruct (processed_bundle _ _ Hp) as (bundle & Hb).
  pose proof (wf_pools _ Hwf _ _ Hpool) as Hid.
  pose proof (wf_tokens _ Hwf _ _ Ht0) as Hid0.
  pose proof (wf_tokens _ Hwf _ _ Ht1) as Hid1.
  exists pool, pm, t0, t1, bundle. do 5 (split; [done|]). intros a t0' t1'.
  rewrite process_effects. unfold effects, modifyLiquidityEffects. rewrite Hp.
  unfold poolKey, managerKey, bundleKey in *. simpl in Hpool, Hpm, Hx, Hid |- *.
  rewrite Hpool, Hpm, Ht0, Ht1, Hb.
  unfold modifyLiquidityWrites. fold a. fold t0'. fold t1'.
  destruct (liquidityPoolBalances_balances e pool a.1 a.2)
    as (_ & _ & _ & _ & Hbid & _ & _).
  match goal with |- context [if ?c then hookStatsOf s !! _ else None] =>
    destruct (if c then hookStatsOf s !! _ else None) as [hst|] end.
  all: unfold tickWrites; cbn.
  all: change (Pool.id (liquidityPoolTvl ?p _ _ _)) with (Pool.id p).
  all: change (Token.id t0') with (Token.id t0).
  all: change (Token.id t1') with (Token.id t1).
  all: rewrite Hbid, Hid, Hid0, Hid1.
  all: repeat split; eexists; reflexivity.
Qed.

End Steps.

(** ** Chain-qualified ids *)

Lemma lacks_pretty_N_go x s : lacks "_" s -> lacks "_" (pretty_N_go x s).
Proof.
  revert s. induction (N.lt_wf_0 x) as [x _ IH]; intros s Hs.
  assert (x = 0 \/ 0 < x)%N as [->|Hpos] by lia.
  - by rewrite pretty_N_go_0.
  - rewrite pretty_N_go_step by done. apply IH.
    { by apply N.div_lt. }
    split; [|done]. unfold pretty_N_char. by repeat case_match.
Qed.

Lemma lacks_pretty_Z (z : Z) : lacks "_" (pretty z).
Proof.
  assert (HN : forall n : N, lacks "_" (pretty n)).
  { intros n. unfold pretty, pretty_N. case_decide; [by split|].
    by apply lacks_pretty_N_go. }
  destruct z as [|p|p]; unfold pretty, pretty_Z.
  - by split.
  - apply (HN (Npos p)).
  - split; [done|]. apply (HN (Npos p)).
Qed.

Lemma startsWith_app p s : startsWith p (p +:+ s) = true.
Proof. induction p as [|a p IH]; [done|]. simpl. by rewrite Ascii.eqb_refl. Qed.

Lemma startsWith_separator c u u' s :
  lacks c u -> lacks c u' ->
  startsWith (u +:+ String c "") (u' +:+ String c s) = true -> u = u'.
Proof.
  revert u'. induction u as [|a u IH]; intros [|b u'] Hu Hu'; simpl; try done.
  - destruct Hu' as [Hb _]. destruct (Ascii.eqb_spec c b); congruence.
  - destruct Hu as [Ha _]. destruct (Ascii.eqb_spec a c); congruence.
  - destruct Hu as [_ Hu], Hu' as [_ Hu'].
    destruct (Ascii.eqb_spec a b) as [->|]; [|done].
    intros H. f_equal. by apply IH.
Qed.

Lemma append_inj_r (p s s' : string) : p +:+ s = p +:+ s' -> s = s'.
Proof. induction p as [|a p IH]; simpl; [done|]. intros [= H]. by apply IH. Qed.

Lemma chainKey_prefix c rest : chainKey c rest = chainPrefix c +:+ rest.
Proof.
  unfold chainKey, chainPrefix. generalize (pretty c). intros p.
  induction p as [|a p IH]; [done|].
  change (String a (p +:+ "_" +:+ rest) = String a ((p +:+ "_") +:+ rest)).
  by rewrite IH.
Qed.

Lemma startsWith_chainKey c c' rest :
  startsWith (chainPrefix c) (chainKey c' rest) = bool_decide (c = c').
Proof.
  case_bool_decide as Hc.
  - subst c'. rewrite chainKey_prefix. apply startsWith_app.
  - apply not_true_is_false. intros H. apply Hc.
    apply (inj pretty). eapply startsWith_separator; [..|exact H];
      apply lacks_pretty_Z.
Qed.

Lemma chainKey_inj c c' rest rest' :
  chainKey c rest = chainKey c' rest' -> c = c' /\ rest = rest'.
Proof.
  intros H.
  assert (c = c') as <-.
  { pose proof (startsWith_chainKey c c' rest') as Hs.
    rewrite <- H, chainKey_prefix, startsWith_app in Hs.
    symmetry in Hs. by apply bool_decide_eq_true in Hs. }
  split; [done|]. rewrite !chainKey_prefix in H. by apply append_inj_r in H.
Qed.

Lemma tickId_inj poolId tick tick' :
  tickId poolId tick = tickId poolId tick' -> tick = tick'.
Proof.
  unfold tickId. intros H. apply append_inj_r in H.
  apply (append_inj_r "#") in H. by apply (inj pretty).
Qed.

(** ** The brute-force resum under an update of one pool *)

Lemma Qc_plus_swap (a x y : Qc) : (a + x + y = a + y + x)%Qc.
Proof. ring. Qed.

Lemma sumPools_insert_fresh field c k pool (m : gmap string Pool.t) :
  m !! k = None ->
  sumPools field c (<[k := pool]> m) =
  if startsWith (chainPrefix c) k
  then BD.plus (sumPools field c m) (field pool) else sumPools field c m.
Proof.
  intros Hk. unfold sumPools. rewrite map_fold_insert_L; [done| |done].
  intros j1 j2 z1 z2 y _ _ _. unfold BD.plus.
  repeat case_match; try done. apply Qc_plus_swap.
Qed.

Lemma sumPools_insert field c k old new (m : gmap string Pool.t) :
  m !! k = Some old ->
  sumPools field c (<[k := new]> m) =
  if startsWith (chainPrefix c) k
  then BD.plus (BD.minus (sumPools field c m) (field old)) (field new)
  else sumPools field c m.
Proof.
  intros Hk.
  assert (Hm : sumPools field c m =
               if startsWith (chainPrefix c) k
               then BD.plus (sumPools field c (delete k m)) (field old)
               else sumPools field c (delete k m)).
  { rewrite <- (insert_delete_id m k old) at 1 by done.
    apply sumPools_insert_fresh, lookup_delete_eq. }
  rewrite <- (insert_delete_eq m k new).
  rewrite sumPools_insert_fresh by apply lookup_delete_eq.
  rewrite Hm. destruct (startsWith (chainPrefix c) k); [|done].
  unfold BD.plus, BD.minus. ring.
Qed.

(** ** The manager's totals along a sequence of events *)

Section ManagerTvl.

Context {U : Utils}.

Lemma process_unprocessed s ev : processed s ev = false -> process s ev = s.
Proof. intros Hp. by rewrite process_effects, effects_unprocessed. Qed.

Lemma managerTvlETH_step s ev c src :
  wfStore s ->
  (eventChain ev = c -> eventSource ev = src) ->
  managerTvlETHMatches s c src ->
  managerTvlETHMatches (process s ev) c src.
Proof.
  intros Hwf Hsrc Hinv.
  destruct (processed s ev) eqn:Hp; [|by rewrite process_unprocessed].
  destruct (processed_step _ _ Hwf Hp)
    as (pool & pm & pool' & pm' & Hpool & Hpm & Hpools & Hpms & Heth & _).
  intros m. rewrite Hpools, Hpms.
  rewrite (sumPools_insert _ _ _ pool) by done.
  unfold poolKey. rewrite startsWith_chainKey.
  case_bool_decide as Hc.
  - symmetry in Hc. unfold managerKey. rewrite Hc, (Hsrc Hc), lookup_insert_eq.
    intros [= <-]. rewrite Heth. f_equal. f_equal. apply Hinv.
    by rewrite <- Hc, <- (Hsrc Hc).
  - rewrite lookup_insert_ne; [apply Hinv|].
    unfold managerKey. intros Hk. apply chainKey_inj in Hk as [Hk _]. congruence.
Qed.

Lemma managerTvlETH_processAll s evs c src :
  wfStore s -> singleManager c src evs ->
  managerTvlETHMatches s c src ->
  managerTvlETHMatches (processAll s evs) c src.
Proof.
  revert s. induction evs as [|ev evs IH]; intros s Hwf Hsingle Hinv; [done|].
  apply Forall_cons in Hsingle as [Hev Hsingle]. simpl. apply IH; [|done|].
  - by apply wfStore_process.
  - by apply managerTvlETH_step.
Qed.

Lemma managerTvlUSD_step s ev :
  wfStore s -> processed s ev = true ->
  exists m,
    poolManagers (process s ev) !! managerKey ev = Some m /\
    PoolManager.totalValueLockedUSD m =
      BD.times (PoolManager.totalValueLockedETH m) (loadedNativePrice s ev).
Proof.
  intros Hwf Hp.
  destruct (processed_step _ _ Hwf Hp)
    as (pool & pm & pool' & pm' & _ & _ & _ & Hpms & _ & Husd).
  exists pm'. by rewrite Hpms, lookup_insert_eq.
Qed.

End ManagerTvl.

(** ** The tick ledger *)

Lemma tickBefore_id s event poolId tick :
  wfStore s -> Tick.id (tickBefore s event poolId tick) = tickId poolId tick.
Proof.
  intros Hwf. unfold tickBefore.
  destruct (ticks s !! tickId poolId tick) as [x|] eqn:Hx; [|done].
  exact (wf_ticks _ Hwf _ _ Hx).
Qed.

Lemma ticks_tickWrites s event poolId :
  wfStore s ->
  ticks (applyWrites (tickWrites s event poolId) s) =
  <[tickId poolId (ModifyLiquidityEvent.tickUpper event) :=
      Tick.with_liquidity
        (Tick.liquidityGross
           (tickBefore s event poolId (ModifyLiquidityEvent.tickUpper event)) +
         ModifyLiquidityEvent.liquidityDelta event)
        (Tick.liquidityNet
           (tickBefore s event poolId (ModifyLiquidityEvent.tickUpper event)) -
         ModifyLiquidityEvent.liquidityDelta event)
        (tickBefore s event poolId (ModifyLiquidityEvent.tickUpper event))]>
    (<[tickId poolId (ModifyLiquidityEvent.tickLower event) :=
         Tick.with_liquidity
           (Tick.liquidityGross
              (tickBefore s event poolId (ModifyLiquidityEvent.tickLower event)) +
            ModifyLiquidityEvent.liquidityDelta event)
           (Tick.liquidityNet
              (tickBefore s event poolId (ModifyLiquidityEvent.tickLower event)) +
            ModifyLiquidityEvent.liquidityDelta event)
           (tickBefore s event poolId (ModifyLiquidityEvent.tickLower event))]>
       (ticks s)).
Proof.
  intros Hwf. unfold tickWrites. cbn.
  by rewrite !(tickBefore_id _ _ _ _ Hwf).
Qed.


(** ** The sample chain *)

Lemma sample_store_wf : wfStore Sample.store.
Proof. constructor; simpl; solve_table. Qed.

Lemma sample_storeWithoutManager_wf : wfStore Sample.storeWithoutManager.
Proof. constructor; simpl; solve_table. Qed.

(** * The claims *)

(** C1 (corrected). After every swap and every liquidity-change event that is
    processed, in any sequence of events from a well-formed store, the
    updated pool has [totalValueLockedETH = totalValueLockedToken0 *
    token0.derivedETH + totalValueLockedToken1 * token1.derivedETH] at the
    stored prices of its tokens, and [totalValueLockedUSD =
    totalValueLockedETH * ethPriceUSD] for the bundle price the event loaded
    (zero when a swap finds no bundle). A liquidity change leaves the bundles
    as they are; a swap persists the refreshed rate of
    [getNativePriceInUSD], which the next event loads. *)
Theorem pool_tvl_recomputed_after_event {U : Utils}
    (s0 : Store) (evs : list Event) (ev : Event) :
  wfStore s0 ->
  processed (processAll s0 evs) ev = true ->
  poolTvlRecomputed (processAll s0 (evs ++ [ev])) (poolKey ev)
    (loadedNativePrice (processAll s0 evs) ev) /\
  match ev with
  | SwapEv e =>
      loadedNativePrice (processAll s0 (evs ++ [ev])) ev =
      getNativePriceInUSD (processAll s0 evs) (pretty (SwapEvent.chainId e))
        (stablecoinWrappedNativePoolId (getChainConfig (SwapEvent.chainId e)))
        (stablecoinIsToken0 (getChainConfig (SwapEvent.chainId e)))
  | ModifyLiquidityEv _ =>
      bundles (processAll s0 (evs ++ [ev])) = bundles (processAll s0 evs)
  end.
Proof.
  intros Hwf0 Hp. rewrite processAll_snoc.
  pose proof (wfStore_processAll _ evs Hwf0) as Hwf.
  set (s := processAll s0 evs) in *. clearbody s. clear s0 evs Hwf0.
  destruct ev as [e|e].
  - split; [by apply swap_pool_tvl|].
    destruct (processed_tokens _ _ Hp)
      as (pool & pm & t0 & t1 & Hpool & Hpm & Ht0 & Ht1 & Hx).
    rewrite process_effects. unfold effects, swapEffects, loadedNativePrice, bundleKey.
    unfold poolKey, managerKey in *. simpl in Hpool, Hpm, Hx |- *.
    rewrite Hpool, Hpm, Ht0, Ht1. rewrite bool_decide_eq_false_2 by done.
    assert (Hbid : Bundle.id
              (default {| Bundle.id := pretty (SwapEvent.chainId e);
                          Bundle.ethPriceUSD := BD.ofZ 0 |}
                       (bundles s !! pretty (SwapEvent.chainId e))) =
            pretty (SwapEvent.chainId e)).
    { destruct (bundles s !! pretty (SwapEvent.chainId e)) as [b|] eqn:Hb; [|done].
      exact (wf_bundles _ Hwf _ _ Hb). }
    match goal with |- context [swapWrites _ _ _ _ _ _ _ _ ?hs _ _] =>
      destruct hs as [hst|] end.
    all: unfold swapWrites; cbn; by rewrite Hbid, lookup_insert_eq.
  - by apply liquidity_pool_tvl.
Qed.

(** A swap of the sample chain is processed from a well-formed store. *)
Lemma pool_tvl_recomputed_after_event_witness :
  poolTvlRecomputed
    (processAll (U := Sample.utils) Sample.store
       ([SwapEv (Sample.swapEvent 0)] ++ [ModifyLiquidityEv (Sample.liquidityEvent (-60) 60 5)]))
    (poolKey (ModifyLiquidityEv (Sample.liquidityEvent (-60) 60 5)))
    (loadedNativePrice
       (processAll (U := Sample.utils) Sample.store [SwapEv (Sample.swapEvent 0)])
       (ModifyLiquidityEv (Sample.liquidityEvent (-60) 60 5))).
Proof.
  apply (pool_tvl_recomputed_after_event (U := Sample.utils) Sample.store
           [SwapEv (Sample.swapEvent 0)]
           (ModifyLiquidityEv (Sample.liquidityEvent (-60) 60 5))).
  - exact sample_store_wf.
  - vm_compute. reflexivity.
Defined.

(** C1, as stated, fails: the first sample swap is processed from a store
    whose bundle is at 1000 while the reference pool quotes 2000. The pool's
    USD TVL is computed with the loaded 1000, the bundle is persisted at
    2000, so afterwards [totalValueLockedUSD] is not [totalValueLockedETH]
    times the bundle's price. *)
Lemma pool_tvl_usd_not_at_persisted_price :
  wfStore Sample.store /\
  processed (U := Sample.utils) Sample.store (SwapEv (Sample.swapEvent 0)) = true /\
  exists pool bundle,
    pools (process (U := Sample.utils) Sample.store (SwapEv (Sample.swapEvent 0)))
      !! Sample.otherPool = Some pool /\
    bundles (process (U := Sample.utils) Sample.store (SwapEv (Sample.swapEvent 0)))
      !! "1" = Some bundle /\
    Pool.totalValueLockedETH pool = BD.ofZ 2 /\
    Pool.totalValueLockedUSD pool = BD.ofZ 2000 /\
    Bundle.ethPriceUSD bundle = BD.ofZ 2000 /\
    Pool.totalValueLockedUSD pool <>
      BD.times (Pool.totalValueLockedETH pool) (Bundle.ethPriceUSD bundle).
Proof.
  split; [exact sample_store_wf|]. split; [vm_compute; reflexivity|].
  destruct (pools (process (U := Sample.utils) Sample.store (SwapEv (Sample.swapEvent 0)))
              !! Sample.otherPool) as [pool|] eqn:Hpool; [|by vm_compute in Hpool].
  destruct (bundles (process (U := Sample.utils) Sample.store (SwapEv (Sample.swapEvent 0)))
              !! "1") as [bundle|] eqn:Hbundle; [|by vm_compute in Hbundle].
  exists pool, bundle. split; [done|]. split; [done|].
  vm_compute in Hpool. vm_compute in Hbundle.
  injection Hpool as <-. injection Hbundle as <-.
  repeat split; try decimal_eq. decimal_neq.
Qed.

(** C2 (corrected). Along any sequence of events in which the events of a
    chain come from its manager contract, the manager's
    [totalValueLockedETH] stays the sum of [totalValueLockedETH] over the
    pools of that chain: each processed event subtracts the pool's old
    contribution and adds its new one. [totalValueLockedUSD] is not kept that
    way: each processed event sets it to the manager's native total times the
    bundle price that event loaded. *)
Theorem manager_tvl_eth_is_pool_sum {U : Utils}
    (s0 : Store) (evs : list Event) (chainId : Z) (srcAddress : string) :
  wfStore s0 ->
  singleManager chainId srcAddress evs ->
  managerTvlETHMatches s0 chainId srcAddress ->
  managerTvlETHMatches (processAll s0 evs) chainId srcAddress /\
  forall ev, processed (processAll s0 evs) ev = true ->
    exists m,
      poolManagers (processAll s0 (evs ++ [ev])) !! managerKey ev = Some m /\
      PoolManager.totalValueLockedUSD m =
        BD.times (PoolManager.totalValueLockedETH m)
                 (loadedNativePrice (processAll s0 evs) ev).
Proof.
  intros Hwf Hsingle Hinv. split.
  - by apply managerTvlETH_processAll.
  - intros ev Hp. rewrite processAll_snoc.
    apply managerTvlUSD_step; [by apply wfStore_processAll|done].
Qed.

Lemma sample_manager_eth : managerTvlETHMatches Sample.store 1 Sample.manager.
Proof.
  intros m Hm. vm_compute in Hm. injection Hm as <-. decimal_eq.
Qed.

Lemma sample_manager_usd : managerTvlUSDMatches Sample.store 1 Sample.manager.
Proof.
  intros m Hm. vm_compute in Hm. injection Hm as <-. decimal_eq.
Qed.

Lemma sample_singleManager :
  singleManager 1 Sample.manager
    [SwapEv (Sample.swapEvent 0); SwapEv (Sample.swapEvent 1)].
Proof. by repeat constructor. Qed.

(** Two swaps of the sample chain keep the manager's native total in step
    with its pools. *)
Lemma manager_tvl_eth_is_pool_sum_witness :
  managerTvlETHMatches
    (processAll (U := Sample.utils) Sample.store
       [SwapEv (Sample.swapEvent 0); SwapEv (Sample.swapEvent 1)])
    1 Sample.manager.
Proof.
  apply (manager_tvl_eth_is_pool_sum (U := Sample.utils) Sample.store
           [SwapEv (Sample.swapEvent 0); SwapEv (Sample.swapEvent 1)]
           1 Sample.manager).
  - exact sample_store_wf.
  - exact sample_singleManager.
  - exact sample_manager_eth.
Defined.

(** C2, as stated, fails for the USD total. The sample store satisfies both
    sums. Its first swap loads the bundle at 1000 and persists 2000; its
    second swap loads 2000. Afterwards the manager's [totalValueLockedUSD] is
    6 * 2000 = 12000, while the pools' USD totals add up to 4000 + 4000. *)
Lemma manager_tvl_usd_not_pool_sum :
  wfStore Sample.store /\
  managerTvlETHMatches Sample.store 1 Sample.manager /\
  managerTvlUSDMatches Sample.store 1 Sample.manager /\
  exists m,
    poolManagers
      (processAll (U := Sample.utils) Sample.store
         [SwapEv (Sample.swapEvent 0); SwapEv (Sample.swapEvent 1)])
      !! chainKey 1 Sample.manager = Some m /\
    PoolManager.totalValueLockedUSD m = BD.ofZ 12000 /\
    sumPools Pool.totalValueLockedUSD 1
      (pools (processAll (U := Sample.utils) Sample.store
                [SwapEv (Sample.swapEvent 0); SwapEv (Sample.swapEvent 1)])) =
      BD.ofZ 8000 /\
    PoolManager.totalValueLockedUSD m <>
      sumPools Pool.totalValueLockedUSD 1
        (pools (processAll (U := Sample.utils) Sample.store
                  [SwapEv (Sample.swapEvent 0); SwapEv (Sample.swapEvent 1)])).
Proof.
  split; [exact sample_store_wf|]. split; [exact sample_manager_eth|].
  split; [exact sample_manager_usd|].
  destruct (poolManagers
              (processAll (U := Sample.utils) Sample.store
                 [SwapEv (Sample.swapEvent 0); SwapEv (Sample.swapEvent 1)])
              !! chainKey 1 Sample.manager) as [m|] eqn:Hm; [|by vm_compute in Hm].
  exists m. split; [done|]. vm_compute in Hm. injection Hm as <-.
  repeat split; try decimal_eq. decimal_neq.
Qed.

(** C3 (corrected). An event whose preconditions fail (a required entity is
    absent or the pool is on the exclusion list) leaves the store and the
    log of [set] calls as they were, in the preload and in the committing
    pass. A swap then returns. A liquidity change returns too, except when
    its pool, tokens and bundle are there, its pool is not excluded and only
    the manager is missing: [getOrThrow] raises, before any write. *)
Theorem unprocessed_event_writes_nothing {U : Utils}
    (isPreload : bool) (ev : Event) (st : State) :
  processed (db st) ev = false ->
  match ev with
  | SwapEv _ => handle isPreload ev st = Returned tt st
  | ModifyLiquidityEv e =>
      handle isPreload ev st =
      if managerMissing (db st) e
      then Thrown (notFound (managerKey ev)) st
      else Returned tt st
  end.
Proof.
  intros Hp. destruct ev as [e|e]; simpl; destruct isPreload.
  - apply swapLoader_preload.
  - rewrite swapLoader_run.
    change (swapEffects (db st) e) with (effects (db st) (SwapEv e)).
    by rewrite effects_unprocessed, extend_nil.
  - apply modifyLiquidityLoader_preload.
  - rewrite modifyLiquidityLoader_run.
    destruct (managerMissing (db st) e); [done|].
    change (modifyLiquidityEffects (db st) e)
      with (effects (db st) (ModifyLiquidityEv e)).
    by rewrite effects_unprocessed, extend_nil.
Qed.

(** A swap that finds no manager returns without a write. *)
Lemma unprocessed_event_writes_nothing_witness :
  processed (U := Sample.utils) Sample.storeWithoutManager
    (SwapEv (Sample.swapEvent 0)) = false /\
  handle (U := Sample.utils) false (SwapEv (Sample.swapEvent 0))
    (initial Sample.storeWithoutManager) =
  Returned tt (initial Sample.storeWithoutManager).
Proof.
  split; [vm_compute; reflexivity|].
  apply (unprocessed_event_writes_nothing (U := Sample.utils) false
           (SwapEv (Sample.swapEvent 0)) (initial Sample.storeWithoutManager)).
  vm_compute. reflexivity.
Defined.

(** C3, as stated, fails: a liquidity change whose pool, tokens and bundle
    are stored while the manager is not makes the loader raise. *)
Lemma liquidity_without_manager_raises :
  wfStore Sample.storeWithoutManager /\
  poolManagers Sample.storeWithoutManager
    !! managerKey (ModifyLiquidityEv (Sample.liquidityEvent (-60) 60 5)) = None /\
  processed (U := Sample.utils) Sample.storeWithoutManager
    (ModifyLiquidityEv (Sample.liquidityEvent (-60) 60 5)) = false /\
  handle (U := Sample.utils) false
    (ModifyLiquidityEv (Sample.liquidityEvent (-60) 60 5))
    (initial Sample.storeWithoutManager) =
  Thrown (notFound "1_0xmanager") (initial Sample.storeWithoutManager).
Proof.
  split; [exact sample_storeWithoutManager_wf|].
  split; [vm_compute; reflexivity|]. split; [vm_compute; reflexivity|].
  simpl. rewrite modifyLiquidityLoader_run.
  replace (managerMissing (U := Sample.utils) (db (initial Sample.storeWithoutManager))
             (Sample.liquidityEvent (-60) 60 5)) with true
    by (vm_compute; reflexivity).
  f_equal.
Qed.





(** C10. A processed liquidity-change event with [tickLower = tickUpper]
    issues its two tick writes under one id, and the second, upper write is
    the one the store keeps: the single tick's [liquidityGross] moves by
    [+liquidityDelta] and its [liquidityNet] by [-liquidityDelta], counted
    from the stored tick (or from the initial tick when there is none). *)
Theorem same_tick_upper_write_wins {U : Utils}
    (s : Store) (e : ModifyLiquidityEvent.t) :
  wfStore s ->
  processed s (ModifyLiquidityEv e) = true ->
  ModifyLiquidityEvent.tickLower e = ModifyLiquidityEvent.tickUpper e ->
  exists pool lowerWrite upperWrite rest,
    pools s !! poolKey (ModifyLiquidityEv e) = Some pool /\
    log (stateOf (handle false (ModifyLiquidityEv e) (initial s))) =
      SetTick lowerWrite :: SetTick upperWrite :: rest /\
    Tick.id lowerWrite = tickId (Pool.id pool) (ModifyLiquidityEvent.tickLower e) /\
    Tick.id upperWrite = Tick.id lowerWrite /\
    Tick.liquidityNet lowerWrite =
      Tick.liquidityNet
        (tickBefore s e (Pool.id pool) (ModifyLiquidityEvent.tickLower e)) +
      ModifyLiquidityEvent.liquidityDelta e /\
    ticks (process s (ModifyLiquidityEv e))
      !! tickId (Pool.id pool) (ModifyLiquidityEvent.tickLower e) = Some upperWrite /\
    Tick.liquidityGross upperWrite =
      Tick.liquidityGross
        (tickBefore s e (Pool.id pool) (ModifyLiquidityEvent.tickLower e)) +
      ModifyLiquidityEvent.liquidityDelta e /\
    Tick.liquidityNet upperWrite =
      Tick.liquidityNet
        (tickBefore s e (Pool.id pool) (ModifyLiquidityEvent.tickLower e)) -
      ModifyLiquidityEvent.liquidityDelta e.
Proof.
  intros Hwf Hp Hsame.
  destruct (liquidity_post _ _ Hwf Hp)
    as (pool & pm & t0 & t1 & bundle & Hpool & Hpm & _ & _ & _ & Hpost).
  cbv zeta in Hpost. destruct Hpost as (_ & _ & Hticks & rest & Hrest).
  exists pool. eexists _, _, rest. split; [done|]. split.
  { simpl. rewrite modifyLiquidityLoader_run. simpl.
    replace (managerMissing s e) with false.
    - simpl. change (modifyLiquidityEffects s e) with (effects s (ModifyLiquidityEv e)).
      rewrite Hrest. reflexivity.
    - symmetry. unfold managerMissing. rewrite Hpm. simpl. by rewrite andb_false_r. }
  rewrite Hticks, ticks_tickWrites by done. simpl.
  rewrite !(tickBefore_id _ _ _ _ Hwf), <- Hsame, lookup_insert_eq.
  by repeat split.
Qed.

(** A position over [5, 5) in the sample pool. *)
Lemma same_tick_upper_write_wins_witness :
  exists tick,
    ticks (process (U := Sample.utils) Sample.store
             (ModifyLiquidityEv (Sample.liquidityEvent 5 5 7)))
      !! tickId Sample.otherPool 5 = Some tick /\
    Tick.liquidityGross tick = 7 /\ Tick.liquidityNet tick = -7.
Proof.
  destruct (same_tick_upper_write_wins (U := Sample.utils) Sample.store
              (Sample.liquidityEvent 5 5 7))
    as (pool & lo & up & rest & Hpool & _ & _ & _ & _ & Htick & Hg & Hn).
  - exact sample_store_wf.
  - vm_compute. reflexivity.
  - reflexivity.
  - vm_compute in Hpool. injection Hpool as <-.
    exists up. split; [exact Htick|]. split; [exact Hg|exact Hn].
Defined.

(** ** Decimal amounts *)

Lemma ofZ_neg_one : BD.ofZ (-1) = (- 1)%Qc.
Proof. decimal_eq. Qed.

Lemma times_neg_one (x : Qc) : BD.times x (BD.ofZ (-1)) = (- x)%Qc.
Proof. unfold BD.times. rewrite ofZ_neg_one. ring. Qed.

(** The ternary that takes the absolute amount. *)
Lemma abs_by_sign (x : Qc) :
  (if BD.lt x (BD.ofZ 0) then BD.times x (BD.ofZ (-1)) else x) = Qcabs x.
Proof.
  unfold BD.lt. change (BD.ofZ 0) with 0%Qc. case_bool_decide as Hx.
  - rewrite times_neg_one. symmetry. apply Qcabs_neg. by apply Qclt_le_weak.
  - symmetry. apply Qcabs_pos. by apply Qcnot_lt_le.
Qed.

(** C6. A processed swap stores, in its Swap record, each raw signed amount
    divided by [10^decimals] with the sign inverted, and adds the absolute
    value of that amount to the pool's token volume. A raw [amount0] of
    -1,000,000 on a 6-decimal token is stored as +1, with absolute amount 1. *)
Theorem swap_amounts_sign_inverted {U : Utils} (s : Store) (e : SwapEvent.t) :
  wfStore s ->
  processed s (SwapEv e) = true ->
  exists pool token0 token1 record pool',
    pools s !! poolKey (SwapEv e) = Some pool /\
    tokens s !! Pool.token0 pool = Some token0 /\
    tokens s !! Pool.token1 pool = Some token1 /\
    swaps (process s (SwapEv e)) !! swapKey e = Some record /\
    pools (process s (SwapEv e)) !! poolKey (SwapEv e) = Some pool' /\
    Swap.amount0 record =
      (- convertTokenToDecimal (SwapEvent.amount0 e) (Token.decimals token0))%Qc /\
    Swap.amount1 record =
      (- convertTokenToDecimal (SwapEvent.amount1 e) (Token.decimals token1))%Qc /\
    Pool.volumeToken0 pool' =
      BD.plus (Pool.volumeToken0 pool) (Qcabs (Swap.amount0 record)) /\
    Pool.volumeToken1 pool' =
      BD.plus (Pool.volumeToken1 pool) (Qcabs (Swap.amount1 record)) /\
    (SwapEvent.amount0 e = -1000000 -> Token.decimals token0 = 6 ->
     Swap.amount0 record = BD.ofZ 1 /\
     Pool.volumeToken0 pool' = BD.plus (Pool.volumeToken0 pool) (BD.ofZ 1)).
Proof.
  intros Hwf Hp.
  destruct (swap_post _ _ Hwf Hp)
    as (pool & pm & t0 & t1 & Hpool & _ & Ht0 & Ht1 & Hpost).
  cbv zeta in Hpost. destruct Hpost as (Hpools & _ & Hswaps).
  exists pool, t0, t1. eexists _, _. do 3 (split; [done|]).
  rewrite Hswaps, Hpools.
  split; [apply lookup_insert_eq|]. split; [apply lookup_insert_eq|].
  cbn. rewrite !abs_by_sign, !times_neg_one.
  do 4 (split; [done|]).
  intros -> ->.
  assert (Hone : (- convertTokenToDecimal (-1000000) 6)%Qc = BD.ofZ 1) by decimal_eq.
  rewrite Hone. split; [done|]. f_equal; decimal_eq.
Qed.

(** The sample swap: raw [amount0 = -1000000] of the 6-decimal USDC. *)
Lemma swap_amounts_sign_inverted_witness :
  exists record,
    swaps (process (U := Sample.utils) Sample.store (SwapEv (Sample.swapEvent 0)))
      !! "1_100_0" = Some record /\
    Swap.amount0 record = BD.ofZ 1.
Proof.
  destruct (swap_amounts_sign_inverted (U := Sample.utils) Sample.store
              (Sample.swapEvent 0))
    as (pool & t0 & t1 & record & pool' & Hpool & Ht0 & _ & Hrecord & _ & _ & _ & _ & _ & Hex).
  - exact sample_store_wf.
  - vm_compute. reflexivity.
  - exists record. split; [exact Hrecord|].
    vm_compute in Hpool. injection Hpool as <-.
    vm_compute in Ht0. injection Ht0 as <-.
    apply Hex; reflexivity.
Defined.

Lemma safeDiv_by_zero (a : BigDecimal) : safeDiv a BD.zero = BD.zero.
Proof. unfold safeDiv, BD.isZero. by rewrite bool_decide_eq_true_2. Qed.



(** The native volume of a swap is zero while the bundle has no price
    (line 129 of the Swap loader). *)
Lemma swap_native_volume_without_price {U : Utils} cfg s e pool bundle t0 t1 :
  Bundle.ethPriceUSD bundle = BD.zero ->
  amountTotalETHTracked (swapAmounts cfg s e pool bundle t0 t1) = BD.zero.
Proof.
  intros Hb. unfold swapAmounts. cbn. rewrite Hb. apply safeDiv_by_zero.
Qed.

(** C9. A processed swap writes both tokens back with at most their
    [derivedETH] changed: id, name, symbol, decimals and [totalValueLocked]
    are those of the stored token, and no other token is touched, while the
    pool's token balances move by the sign-inverted swap amounts. *)
Theorem swap_changes_only_token_price {U : Utils} (s : Store) (e : SwapEvent.t) :
  wfStore s ->
  processed s (SwapEv e) = true ->
  exists pool token0 token1 token0' token1' pool',
    pools s !! poolKey (SwapEv e) = Some pool /\
    tokens s !! Pool.token0 pool = Some token0 /\
    tokens s !! Pool.token1 pool = Some token1 /\
    tokens (process s (SwapEv e)) !! Pool.token0 pool = Some token0' /\
    tokens (process s (SwapEv e)) !! Pool.token1 pool = Some token1' /\
    sameExceptDerivedETH token0' token0 /\
    sameExceptDerivedETH token1' token1 /\
    (forall k, k <> Pool.token0 pool -> k <> Pool.token1 pool ->
       tokens (process s (SwapEv e)) !! k = tokens s !! k) /\
    pools (process s (SwapEv e)) !! poolKey (SwapEv e) = Some pool' /\
    Pool.totalValueLockedToken0 pool' =
      BD.plus (Pool.totalValueLockedToken0 pool)
        (- convertTokenToDecimal (SwapEvent.amount0 e) (Token.decimals token0))%Qc /\
    Pool.totalValueLockedToken1 pool' =
      BD.plus (Pool.totalValueLockedToken1 pool)
        (- convertTokenToDecimal (SwapEvent.amount1 e) (Token.decimals token1))%Qc.
Proof.
  intros Hwf Hp.
  destruct (swap_post _ _ Hwf Hp)
    as (pool & pm & t0 & t1 & Hpool & _ & Ht0 & Ht1 & Hpost).
  cbv zeta in Hpost. destruct Hpost as (Hpools & Htokens & _).
  exists pool, t0, t1.
  assert (Hstored : exists x y,
            tokens (process s (SwapEv e)) !! Pool.token0 pool = Some x /\
            tokens (process s (SwapEv e)) !! Pool.token1 pool = Some y /\
            sameExceptDerivedETH x t0 /\ sameExceptDerivedETH y t1).
  { rewrite Htokens.
    destruct (decide (Pool.token0 pool = Pool.token1 pool)) as [Heq|Hne].
    - assert (t0 = t1) as <- by (rewrite Heq, Ht1 in Ht0; by injection Ht0).
      rewrite <- Heq, lookup_insert_eq. eexists _, _.
      split; [done|]. split; [done|]. by split.
    - rewrite lookup_insert_ne, !lookup_insert_eq by done. eexists _, _.
      split; [done|]. split; [done|]. by split. }
  destruct Hstored as (x & y & Hx & Hy & Hsx & Hsy).
  exists x, y. eexists. do 3 (split; [done|]).
  split; [exact Hx|]. split; [exact Hy|]. split; [exact Hsx|]. split; [exact Hsy|].
  split.
  { intros k Hk0 Hk1. rewrite Htokens. by rewrite !lookup_insert_ne. }
  rewrite Hpools. split; [apply lookup_insert_eq|].
  cbn. by rewrite !times_neg_one.
Qed.

(** After the sample swap, USDC keeps its stored [totalValueLocked]. *)
Lemma swap_changes_only_token_price_witness :
  exists token0',
    tokens (process (U := Sample.utils) Sample.store (SwapEv (Sample.swapEvent 0)))
      !! Sample.usdc = Some token0' /\
    Token.totalValueLocked token0' = Token.totalValueLocked Sample.usdcToken.
Proof.
  destruct (swap_changes_only_token_price (U := Sample.utils) Sample.store
              (Sample.swapEvent 0))
    as (pool & t0 & t1 & t0' & t1' & pool' & Hpool & Ht0 & _ & Ht0' & _ & Hsame & _).
  - exact sample_store_wf.
  - vm_compute. reflexivity.
  - vm_compute in Hpool. injection Hpool as <-.
    vm_compute in Ht0. injection Ht0 as <-.
    exists t0'. split; [exact Ht0'|]. apply Hsame.
Defined.

(** ** Token metadata *)

(** C8. For a token that is not the native token and has no override, on a
    chain whose client is available, metadata resolution returns; its
    decimals are 18 when the on-chain read failed or answered a number
    greater than 50, and the number read otherwise. *)
Theorem decimals_clamped_to_18 {U : Utils}
    (env : string -> option string) (clients : gmap Z string)
    (rpc : string -> Z -> Metadata.ContractReads)
    (address : string) (chainId : Z) (client : string) :
  Metadata.toLowerCase address <> Metadata.toLowerCase ADDRESS_ZERO ->
  List.find
    (fun t => String.eqb (Metadata.toLowerCase (overrideAddress t))
                         (Metadata.toLowerCase address))
    (tokenOverrides (getChainConfig chainId)) = None ->
  fst (Metadata.getClient env clients chainId) = Metadata.Ok client ->
  exists metadata,
    fst (Metadata.getTokenMetadata env clients rpc address chainId) =
      Metadata.Ok metadata /\
    match Metadata.read_decimals (rpc address chainId) with
    | None => Metadata.decimals metadata = 18
    | Some (Metadata.JsNumber n) =>
        (50 < n -> Metadata.decimals metadata = 18) /\
        (n <= 50 -> Metadata.decimals metadata = n)
    | Some (Metadata.JsBigInt _) => Metadata.decimals metadata = 18
    end.
Proof.
  intros Hnative Hoverride Hclient.
  unfold Metadata.getTokenMetadata.
  apply String.eqb_neq in Hnative. rewrite Hnative, Hoverride.
  unfold Metadata.fetchTokenMetadataMulticall.
  destruct (Metadata.getClient env clients chainId) as [[c|msg] clients'];
    simpl in Hclient; [|discriminate].
  eexists. split; [reflexivity|]. simpl.
  destruct (Metadata.read_decimals (rpc address chainId)) as [[n|n]|]; simpl; [|done..].
  split; intros Hn.
  - by rewrite (proj2 (Z.leb_gt n 50)).
  - by rewrite (proj2 (Z.leb_le n 50)).
Qed.

(** Every chain of [getRpcUrl] gets a client. *)
Lemma getClient_configured env clients chainId :
  chainId ∈ [1; 42161; 10; 8453; 137; 43114; 56; 81457; 7777777; 1868; 130; 57073; 480] ->
  exists client, fst (Metadata.getClient env clients chainId) = Metadata.Ok client.
Proof.
  intros Hin. unfold Metadata.getClient.
  destruct (clients !! chainId) as [c|]; [by exists c|].
  repeat (apply elem_of_cons in Hin as [->|Hin]; [by eexists|]).
  by apply elem_of_nil in Hin.
Qed.

(** A contract on chain 1 that answers 77 decimals. *)
Lemma decimals_clamped_to_18_witness :
  exists metadata,
    fst (Metadata.getTokenMetadata (U := Sample.utils) (fun _ => None) ∅
           (fun _ _ =>
              {| Metadata.read_name := Some "Token";
                 Metadata.read_NAME := None;
                 Metadata.read_symbol := Some "TKN";
                 Metadata.read_SYMBOL := None;
                 Metadata.read_decimals := Some (Metadata.JsNumber 77) |})
           "0xAbC" 1) = Metadata.Ok metadata /\
    Metadata.decimals metadata = 18.
Proof.
  destruct (decimals_clamped_to_18 (U := Sample.utils) (fun _ => None) ∅
              (fun _ _ =>
                 {| Metadata.read_name := Some "Token";
                    Metadata.read_NAME := None;
                    Metadata.read_symbol := Some "TKN";
                    Metadata.read_SYMBOL := None;
                    Metadata.read_decimals := Some (Metadata.JsNumber 77) |})
              "0xAbC" 1 "https://eth.drpc.org")
    as (metadata & Hmeta & Hdec).
  - vm_compute. discriminate.
  - vm_compute. reflexivity.
  - vm_compute. reflexivity.
  - exists metadata. split; [exact Hmeta|]. simpl in Hdec. apply Hdec. lia.
Defined.

(** * Further properties of the handlers *)

Section Outcomes.

Context {U : Utils}.

Local Arguments swapPool : simpl never.
Local Arguments swapAmounts : simpl never.
Local Arguments swapPoolManager : simpl never.
Local Arguments swapEntity : simpl never.
Local Arguments swapHookStats : simpl never.
Local Arguments liquidityAmounts : simpl never.
Local Arguments liquidityPoolBalances : simpl never.
Local Arguments liquidityPoolTvl : simpl never.
Local Arguments liquidityPoolManager : simpl never.
Local Arguments liquidityEntity : simpl never.
Local Arguments tickWrites : simpl never.

Lemma swap_store s e pool pm t0 t1 :
  wfStore s ->
  pools s !! poolKey (SwapEv e) = Some pool ->
  poolManagers s !! managerKey (SwapEv e) = Some pm ->
  tokens s !! Pool.token0 pool = Some t0 ->
  tokens s !! Pool.token1 pool = Some t1 ->
  SwapEvent.id e ∉ poolsToSkip (getChainConfig (SwapEvent.chainId e)) ->
  process s (SwapEv e) = swapStore s e pool pm t0 t1.
Proof.
  intros Hwf Hpool Hpm Ht0 Ht1 Hx.
  pose proof (wf_pools _ Hwf _ _ Hpool) as Hid.
  pose proof (wf_poolManagers _ Hwf _ _ Hpm) as Hidm.
  pose proof (wf_tokens _ Hwf _ _ Ht0) as Hid0.
  pose proof (wf_tokens _ Hwf _ _ Ht1) as Hid1.
  assert (Hidb : Bundle.id (loadedBundle s e) = pretty (SwapEvent.chainId e)).
  { unfold loadedBundle.
    destruct (bundles s !! pretty (SwapEvent.chainId e)) as [b|] eqn:Hb; [|done].
    exact (wf_bundles _ Hwf _ _ Hb). }
  rewrite process_effects. unfold effects, swapEffects, swapStore.
  unfold poolKey, managerKey, bundleKey in *. simpl in Hpool, Hpm, Hid, Hidm |- *.
  rewrite Hpool, Hpm, Ht0, Ht1. rewrite bool_decide_eq_false_2 by done.
  unfold swappedManager, swappedPool, swapAmountsOf, loadedHookStats, isHooked.
  fold (loadedBundle s e). fold (refreshedToken s e t0). fold (refreshedToken s e t1).
  unfold swapWrites.
  destruct (if negb (Pool.hooks pool =? ADDRESS_ZERO)%string
            then hookStatsOf s !! chainKey (SwapEvent.chainId e) (Pool.hooks pool)
            else None) as [stats|].
  all: cbn.
  all: change (Pool.id (swapPool _ ?p _ _ _ _)) with (Pool.id p).
  all: change (PoolManager.id (swapPoolManager _ _ ?m _ _)) with (PoolManager.id m).
  all: change (Token.id (refreshedToken s e t0)) with (Token.id t0).
  all: change (Token.id (refreshedToken s e t1)) with (Token.id t1).
  all: by rewrite Hid, Hidm, Hid0, Hid1, Hidb, insert_insert_eq.
Qed.

Lemma liquidity_store s e pool pm t0 t1 bundle :
  wfStore s ->
  pools s !! poolKey (ModifyLiquidityEv e) = Some pool ->
  poolManagers s !! managerKey (ModifyLiquidityEv e) = Some pm ->
  tokens s !! Pool.token0 pool = Some t0 ->
  tokens s !! Pool.token1 pool = Some t1 ->
  bundles s !! bundleKey (ModifyLiquidityEv e) = Some bundle ->
  ModifyLiquidityEvent.id e ∉
    poolsToSkip (getChainConfig (ModifyLiquidityEvent.chainId e)) ->
  process s (ModifyLiquidityEv e) = liquidityStore s e pool pm t0 t1 bundle.
Proof.
  intros Hwf Hpool Hpm Ht0 Ht1 Hb Hx.
  pose proof (wf_pools _ Hwf _ _ Hpool) as Hid.
  pose proof (wf_poolManagers _ Hwf _ _ Hpm) as Hidm.
  pose proof (wf_tokens _ Hwf _ _ Ht0) as Hid0.
  pose proof (wf_tokens _ Hwf _ _ Ht1) as Hid1.
  assert (Hp : processed s (ModifyLiquidityEv e) = true).
  { unfold processed, tokensPresent, excluded. rewrite Hpool, Ht0, Ht1, Hpm, Hb.
    simpl. by rewrite bool_decide_eq_false_2. }
  rewrite process_effects. unfold effects, modifyLiquidityEffects, liquidityStore.
  rewrite Hp.
  unfold poolKey, managerKey, bundleKey in *.
  simpl in Hpool, Hpm, Hb, Hid, Hidm |- *.
  rewrite Hpool, Hpm, Ht0, Ht1, Hb.
  unfold modifyLiquidityWrites, liquidityRecord, loadedHookStats, isHooked.
  fold (fundedToken0 e pool t0 t1). fold (fundedToken1 e pool t0 t1).
  fold (fundedPool e pool t0 t1 bundle).
  destruct (liquidityPoolBalances_balances e pool
              (liquidityAmounts e pool t0 t1).1 (liquidityAmounts e pool t0 t1).2)
    as (_ & _ & Hbeth & Hbusd & Hbid & _ & _).
  assert (Hfid : Pool.id (fundedPool e pool t0 t1 bundle) = Pool.id pool)
    by exact Hbid.
  destruct (if negb (Pool.hooks pool =? ADDRESS_ZERO)%string
            then hookStatsOf s !! chainKey (ModifyLiquidityEvent.chainId e)
                                   (Pool.hooks pool)
            else None) as [stats|].
  all: unfold tickWrites; cbn.
  all: change (PoolManager.id (liquidityPoolManager _ _ ?m _)) with (PoolManager.id m).
  all: change (Token.id (fundedToken0 e pool t0 t1)) with (Token.id t0).
  all: change (Token.id (fundedToken1 e pool t0 t1)) with (Token.id t1).
  all: rewrite Hfid, Hid, Hidm, Hid0, Hid1, Hbeth, ?Hbusd.
  all: reflexivity.
Qed.

End Outcomes.

Section Shapes.

Context {U : Utils}.

Lemma swap_processed_store s e :
  wfStore s -> processed s (SwapEv e) = true ->
  exists pool pm t0 t1,
    pools s !! poolKey (SwapEv e) = Some pool /\
    poolManagers s !! managerKey (SwapEv e) = Some pm /\
    tokens s !! Pool.token0 pool = Some t0 /\
    tokens s !! Pool.token1 pool = Some t1 /\
    process s (SwapEv e) = swapStore s e pool pm t0 t1.
Proof.
  intros Hwf Hp.
  destruct (processed_tokens _ _ Hp) as (pool & pm & t0 & t1 & ? & ? & ? & ? & ?).
  exists pool, pm, t0, t1. repeat (split; [done|]). by apply swap_store.
Qed.

Lemma liquidity_processed_store s e :
  wfStore s -> processed s (ModifyLiquidityEv e) = true ->
  exists pool pm t0 t1 bundle,
    pools s !! poolKey (ModifyLiquidityEv e) = Some pool /\
    poolManagers s !! managerKey (ModifyLiquidityEv e) = Some pm /\
    tokens s !! Pool.token0 pool = Some t0 /\
    tokens s !! Pool.token1 pool = Some t1 /\
    bundles s !! bundleKey (ModifyLiquidityEv e) = Some bundle /\
    process s (ModifyLiquidityEv e) = liquidityStore s e pool pm t0 t1 bundle.
Proof.
  intros Hwf Hp.
  destruct (processed_tokens _ _ Hp) as (pool & pm & t0 & t1 & ? & ? & ? & ? & ?).
  destruct (processed_bundle _ _ Hp) as (bundle & ?).
  exists pool, pm, t0, t1, bundle. repeat (split; [done|]). by apply liquidity_store.
Qed.

(** The hook statistics after an event: untouched, or the loaded record
    replaced under its own id. *)
Lemma hookStats_process s ev :
  wfStore s ->
  hookStatsOf (process s ev) = hookStatsOf s \/
  exists pool stats stats',
    processed s ev = true /\
    pools s !! poolKey ev = Some pool /\
    isHooked pool = true /\
    hookStatsOf s !! chainKey (eventChain ev) (Pool.hooks pool) = Some stats /\
    HookStats.id stats' = HookStats.id stats /\
    hookStatsOf (process s ev) = <[HookStats.id stats := stats']> (hookStatsOf s).
Proof.
  intros Hwf.
  destruct (processed s ev) eqn:Hp; [|left; by rewrite process_unprocessed].
  destruct ev as [e|e].
  - destruct (swap_processed_store _ _ Hwf Hp)
      as (pool & pm & t0 & t1 & Hpool & _ & _ & _ & ->).
    unfold swapStore; cbn [hookStatsOf]. unfold loadedHookStats.
    destruct (isHooked pool) eqn:Hh; [|by left].
    destruct (hookStatsOf s !! _) as [stats|] eqn:Hs; [|by left].
    right. eexists pool, stats, _. do 4 (split; [done|]). split; [|reflexivity]. reflexivity.
  - destruct (liquidity_processed_store _ _ Hwf Hp)
      as (pool & pm & t0 & t1 & b & Hpool & _ & _ & _ & _ & ->).
    unfold liquidityStore; cbn [hookStatsOf]. unfold loadedHookStats.
    destruct (isHooked pool) eqn:Hh; [|by left].
    destruct (hookStatsOf s !! _) as [stats|] eqn:Hs; [|by left].
    right. eexists pool, stats, _. do 4 (split; [done|]). split; [|reflexivity]. reflexivity.
Qed.

Lemma wfHooks_process s ev : wfStore s -> wfHooks s -> wfHooks (process s ev).
Proof.
  intros Hwf Hh. unfold wfHooks.
  destruct (hookStats_process s ev Hwf)
    as [->|(pool & stats & stats' & _ & _ & _ & _ & Hid & ->)]; [done|].
  intros k x Hx. apply lookup_insert_Some in Hx as [[<- <-]|[_ Hx]]; [done|].
  by apply Hh.
Qed.

Lemma wf_processAll s evs :
  wfStore s -> wfHooks s ->
  wfStore (processAll s evs) /\ wfHooks (processAll s evs).
Proof.
  revert s. induction evs as [|ev evs IH]; intros s Hwf Hh; [done|].
  simpl. apply IH; [by apply wfStore_process|by apply wfHooks_process].
Qed.

(** An invariant of well-formed stores that every event keeps holds after
    every sequence of events. *)
Lemma processAll_invariant (P : Store -> Prop) s evs :
  (forall s ev, wfStore s -> wfHooks s -> P s -> P (process s ev)) ->
  wfStore s -> wfHooks s -> P s -> P (processAll s evs).
Proof.
  intros Hstep. revert s. induction evs as [|ev evs IH]; intros s Hwf Hh HP; [done|].
  simpl. apply IH; [by apply wfStore_process|by apply wfHooks_process|].
  by apply Hstep.
Qed.

End Shapes.

(** * Further properties, by source function *)

(** X1. The preload pass of either loader is a dry run of the committing
    pass: it leaves the store and the write log exactly as it found them,
    and it raises exactly when the committing pass from the same state
    raises, with the same message. *)
Theorem preload_pass_is_dry_run {U : Utils} (ev : Event) (st : State) :
  stateOf (handle true ev st) = st /\
  thrown (handle true ev st) = thrown (handle false ev st).
Proof.
  destruct ev as [e|e]; simpl.
  - by rewrite swapLoader_preload, swapLoader_run.
  - rewrite modifyLiquidityLoader_preload, modifyLiquidityLoader_run.
    by destruct (managerMissing (db st) e).
Qed.

Section Frames.

Context {U : Utils}.

Local Arguments swapPool : simpl never.
Local Arguments swapAmounts : simpl never.
Local Arguments swapPoolManager : simpl never.
Local Arguments swapEntity : simpl never.
Local Arguments swapHookStats : simpl never.
Local Arguments liquidityAmounts : simpl never.
Local Arguments liquidityPoolBalances : simpl never.
Local Arguments liquidityPoolTvl : simpl never.
Local Arguments liquidityPoolManager : simpl never.
Local Arguments liquidityEntity : simpl never.

Lemma swap_frame s e :
  ticks (process s (SwapEv e)) = ticks s /\
  modifyLiquidities (process s (SwapEv e)) = modifyLiquidities s.
Proof.
  rewrite process_effects. unfold effects, swapEffects.
  destruct (pools s !! chainKey (SwapEvent.chainId e) (SwapEvent.id e)) as [pool|];
    [|done].
  destruct (poolManagers s !! chainKey (SwapEvent.chainId e) (SwapEvent.srcAddress e))
    as [pm|]; [|done].
  destruct (tokens s !! Pool.token0 pool) as [t0|]; [|done].
  destruct (tokens s !! Pool.token1 pool) as [t1|]; [|done].
  case_bool_decide; [done|]. unfold swapWrites.
  by destruct (if negb (Pool.hooks pool =? ADDRESS_ZERO)%string
               then hookStatsOf s !! chainKey (SwapEvent.chainId e) (Pool.hooks pool)
               else None).
Qed.

Lemma liquidity_frame s e :
  bundles (process s (ModifyLiquidityEv e)) = bundles s /\
  swaps (process s (ModifyLiquidityEv e)) = swaps s.
Proof.
  rewrite process_effects. unfold effects, modifyLiquidityEffects.
  destruct (processed s (ModifyLiquidityEv e)); [|done].
  destruct (pools s !! chainKey (ModifyLiquidityEvent.chainId e)
              (ModifyLiquidityEvent.id e)) as [pool|]; [|done].
  destruct (bundles s !! pretty (ModifyLiquidityEvent.chainId e)) as [b|]; [|done].
  destruct (poolManagers s !! chainKey (ModifyLiquidityEvent.chainId e)
              (ModifyLiquidityEvent.srcAddress e)) as [pm|]; [|done].
  destruct (tokens s !! Pool.token0 pool) as [t0|]; [|done].
  destruct (tokens s !! Pool.token1 pool) as [t1|]; [|done].
  unfold modifyLiquidityWrites, tickWrites.
  by destruct (if negb (Pool.hooks pool =? ADDRESS_ZERO)%string
               then hookStatsOf s !! chainKey (ModifyLiquidityEvent.chainId e)
                                      (Pool.hooks pool)
               else None).
Qed.

Lemma dom_process s ev :
  wfStore s -> wfHooks s ->
  dom (pools (process s ev)) = dom (pools s) /\
  dom (tokens (process s ev)) = dom (tokens s) /\
  dom (poolManagers (process s ev)) = dom (poolManagers s) /\
  dom (hookStatsOf (process s ev)) = dom (hookStatsOf s).
Proof.
  intros Hwf Hh.
  assert (Hhook : dom (hookStatsOf (process s ev)) = dom (hookStatsOf s)).
  { destruct (hookStats_process s ev Hwf)
      as [->|(pool & stats & stats' & _ & _ & _ & Hs & _ & ->)]; [done|].
    apply dom_insert_lookup_L. rewrite (Hh _ _ Hs). by eexists. }
  destruct (processed s ev) eqn:Hp; [|by rewrite process_unprocessed].
  assert (Htok : forall (m : gmap string Token.t) k0 k1 x0 x1,
             is_Some (m !! k0) -> is_Some (m !! k1) ->
             dom (<[k1 := x1]> (<[k0 := x0]> m)) = dom m).
  { intros m k0 k1 x0 x1 H0 H1. rewrite dom_insert_lookup_L.
    - by apply dom_insert_lookup_L.
    - destruct (decide (k0 = k1)) as [->|Hne].
      + rewrite lookup_insert_eq. by eexists.
      + by rewrite lookup_insert_ne. }
  destruct ev as [e|e].
  - destruct (swap_processed_store _ _ Hwf Hp)
      as (pool & pm & t0 & t1 & Hpool & Hpm & Ht0 & Ht1 & Heq).
    rewrite Heq in Hhook |- *. unfold swapStore in Hhook |- *.
    cbn [pools tokens poolManagers hookStatsOf] in Hhook |- *.
    split; [apply dom_insert_lookup_L; by eexists|].
    split; [apply Htok; by eexists|].
    split; [apply dom_insert_lookup_L; by eexists|done].
  - destruct (liquidity_processed_store _ _ Hwf Hp)
      as (pool & pm & t0 & t1 & b & Hpool & Hpm & Ht0 & Ht1 & Hb & Heq).
    rewrite Heq in Hhook |- *. unfold liquidityStore in Hhook |- *.
    cbn [pools tokens poolManagers hookStatsOf] in Hhook |- *.
    split; [apply dom_insert_lookup_L; by eexists|].
    split; [apply Htok; by eexists|].
    split; [apply dom_insert_lookup_L; by eexists|done].
Qed.

End Frames.

(** X2. The two handlers only ever update aggregate entities that exist:
    along any sequence of swap and liquidity events, the sets of stored
    pools, tokens, pool managers and hook statistics stay exactly as they
    were. No event creates or removes one of them. *)
Theorem handlers_only_update_existing_entities {U : Utils} (s : Store)
    (evs : list Event) :
  wfStore s -> wfHooks s ->
  dom (pools (processAll s evs)) = dom (pools s) /\
  dom (tokens (processAll s evs)) = dom (tokens s) /\
  dom (poolManagers (processAll s evs)) = dom (poolManagers s) /\
  dom (hookStatsOf (processAll s evs)) = dom (hookStatsOf s).
Proof.
  intros Hwf Hh.
  apply (processAll_invariant
           (fun s' =>
              dom (pools s') = dom (pools s) /\
              dom (tokens s') = dom (tokens s) /\
              dom (poolManagers s') = dom (poolManagers s) /\
              dom (hookStatsOf s') = dom (hookStatsOf s))); [|done..].
  intros s' ev Hwf' Hh' (Hp & Ht & Hm & Hs).
  destruct (dom_process s' ev Hwf' Hh') as (-> & -> & -> & ->). done.
Qed.

(** X3. The two event kinds write disjoint record tables: a swap never
    touches a tick or a ModifyLiquidity record, and a liquidity change never
    touches a bundle (so it never moves the native price) or a Swap
    record. This holds for every event on every store, processed or not. *)
Theorem event_kinds_write_disjoint_tables {U : Utils} (s : Store) (ev : Event) :
  match ev with
  | SwapEv _ =>
      ticks (process s ev) = ticks s /\
      modifyLiquidities (process s ev) = modifyLiquidities s
  | ModifyLiquidityEv _ =>
      bundles (process s ev) = bundles s /\
      swaps (process s ev) = swaps s
  end.
Proof. destruct ev as [e|e]; [apply swap_frame|apply liquidity_frame]. Qed.

(** ** Ticks *)

Lemma sumTicks_insert_fresh field k tick (m : gmap string Tick.t) :
  m !! k = None -> sumTicks field (<[k := tick]> m) = sumTicks field m + field tick.
Proof.
  intros Hk. unfold sumTicks. rewrite map_fold_insert_L; [done| |done].
  intros. lia.
Qed.

Lemma sumTicks_insert field k old new (m : gmap string Tick.t) :
  m !! k = Some old ->
  sumTicks field (<[k := new]> m) = sumTicks field m - field old + field new.
Proof.
  intros Hk.
  assert (Hm : sumTicks field m = sumTicks field (delete k m) + field old).
  { rewrite <- (insert_delete_id m k old) at 1 by done.
    apply sumTicks_insert_fresh, lookup_delete_eq. }
  rewrite <- (insert_delete_eq m k new).
  rewrite sumTicks_insert_fresh by apply lookup_delete_eq. lia.
Qed.

Lemma sample_hooks_wf : wfStore SampleHooks.store.
Proof. constructor; simpl; solve_table. Qed.

Lemma sample_hooks_wfHooks : wfHooks SampleHooks.store.
Proof. unfold wfHooks; simpl. solve_table. Qed.

Lemma sample_wfHooks : wfHooks Sample.store.
Proof. unfold wfHooks; simpl. solve_table. Qed.

Lemma handlers_only_update_existing_entities_witness :
  let s :=
    processAll (U := Sample.utils) SampleHooks.store
      [ SwapEv (Sample.swapEvent 1);
        ModifyLiquidityEv (Sample.liquidityEvent (-10) 10 5) ] in
  dom (pools s) = dom (pools SampleHooks.store) /\
  dom (tokens s) = dom (tokens SampleHooks.store) /\
  dom (poolManagers s) = dom (poolManagers SampleHooks.store) /\
  dom (hookStatsOf s) = dom (hookStatsOf SampleHooks.store).
Proof.
  apply (handlers_only_update_existing_entities (U := Sample.utils)).
  - exact sample_hooks_wf.
  - exact sample_hooks_wfHooks.
Defined.

Section TickLedger.

Context {U : Utils}.

Lemma liquidity_ticks s e :
  wfStore s -> processed s (ModifyLiquidityEv e) = true ->
  ticks (process s (ModifyLiquidityEv e)) =
  ticks (applyWrites (tickWrites s e (poolKey (ModifyLiquidityEv e))) s).
Proof.
  intros Hwf Hp.
  destruct (liquidity_processed_store _ _ Hwf Hp)
    as (pool & pm & t0 & t1 & b & Hpool & _ & _ & _ & _ & ->).
  unfold liquidityStore; cbn [ticks]. by rewrite (wf_pools _ Hwf _ _ Hpool).
Qed.

End TickLedger.

(** X4. Ticks are created on demand and never removed: a processed
    liquidity change leaves exactly the ticks that were stored plus the two
    boundary ticks of its range, keyed by the pool id, [#] and the tick
    index; every other tick record is left as it was. *)
Theorem ticks_created_on_demand {U : Utils} (s : Store)
    (e : ModifyLiquidityEvent.t) :
  wfStore s -> processed s (ModifyLiquidityEv e) = true ->
  let poolId := poolKey (ModifyLiquidityEv e) in
  let lower := tickId poolId (ModifyLiquidityEvent.tickLower e) in
  let upper := tickId poolId (ModifyLiquidityEvent.tickUpper e) in
  dom (ticks (process s (ModifyLiquidityEv e))) = {[ lower; upper ]} ∪ dom (ticks s) /\
  (forall k, k <> lower -> k <> upper ->
     ticks (process s (ModifyLiquidityEv e)) !! k = ticks s !! k).
Proof.
  intros Hwf Hp poolId lower upper.
  rewrite liquidity_ticks, ticks_tickWrites by done. split.
  - rewrite !dom_insert_L. apply set_eq. intros k.
    rewrite !elem_of_union. tauto.
  - intros k Hl Hu. by rewrite !lookup_insert_ne.
Qed.

Lemma ticks_created_on_demand_witness :
  let e := Sample.liquidityEvent (-10) 10 5 in
  let s' := process (U := Sample.utils) Sample.store (ModifyLiquidityEv e) in
  dom (ticks s') =
    {[ tickId Sample.otherPool (-10); tickId Sample.otherPool 10 ]} ∪
    dom (ticks Sample.store) /\
  (forall k, k <> tickId Sample.otherPool (-10) -> k <> tickId Sample.otherPool 10 ->
     ticks s' !! k = ticks Sample.store !! k).
Proof.
  apply (ticks_created_on_demand (U := Sample.utils) Sample.store
           (Sample.liquidityEvent (-10) 10 5)).
  - exact sample_store_wf.
  - reflexivity.
Defined.

(** X5. The tick ledger is balanced. A processed liquidity change over a
    range whose two distinct boundary ticks are both on record adds its
    delta to the net liquidity of the lower tick and takes it from the
    upper tick, so the total of [liquidityNet] over all stored ticks does
    not move, while the total of [liquidityGross] grows by twice the
    delta. *)
Theorem tick_net_liquidity_is_conserved {U : Utils} (s : Store)
    (e : ModifyLiquidityEvent.t) (lowerTick upperTick : Tick.t) :
  wfStore s -> processed s (ModifyLiquidityEv e) = true ->
  ModifyLiquidityEvent.tickLower e <> ModifyLiquidityEvent.tickUpper e ->
  ticks s !! tickId (poolKey (ModifyLiquidityEv e)) (ModifyLiquidityEvent.tickLower e) =
    Some lowerTick ->
  ticks s !! tickId (poolKey (ModifyLiquidityEv e)) (ModifyLiquidityEvent.tickUpper e) =
    Some upperTick ->
  sumTicks Tick.liquidityNet (ticks (process s (ModifyLiquidityEv e))) =
    sumTicks Tick.liquidityNet (ticks s) /\
  sumTicks Tick.liquidityGross (ticks (process s (ModifyLiquidityEv e))) =
    sumTicks Tick.liquidityGross (ticks s) +
    2 * ModifyLiquidityEvent.liquidityDelta e.
Proof.
  intros Hwf Hp Hne Hl Hu.
  assert (Hk : tickId (poolKey (ModifyLiquidityEv e)) (ModifyLiquidityEvent.tickLower e)
               <> tickId (poolKey (ModifyLiquidityEv e))
                    (ModifyLiquidityEvent.tickUpper e)).
  { intros Hk. by apply tickId_inj in Hk. }
  rewrite liquidity_ticks, ticks_tickWrites by done.
  unfold tickBefore. rewrite Hl, Hu. cbn [default].
  split.
  - rewrite (sumTicks_insert _ _ upperTick) by by rewrite lookup_insert_ne.
    rewrite (sumTicks_insert _ _ lowerTick) by done. cbn. lia.
  - rewrite (sumTicks_insert _ _ upperTick) by by rewrite lookup_insert_ne.
    rewrite (sumTicks_insert _ _ lowerTick) by done. cbn. lia.
Qed.

Lemma tick_net_liquidity_is_conserved_witness :
  let e := Sample.liquidityEvent (-10) 10 5 in
  let e' := Sample.liquidityEvent (-10) 10 (-3) in
  let s := process (U := Sample.utils) Sample.store (ModifyLiquidityEv e) in
  let s' := process (U := Sample.utils) s (ModifyLiquidityEv e') in
  sumTicks Tick.liquidityNet (ticks s') = sumTicks Tick.liquidityNet (ticks s) /\
  sumTicks Tick.liquidityGross (ticks s') = sumTicks Tick.liquidityGross (ticks s) + 2 * -3.
Proof.
  eapply (tick_net_liquidity_is_conserved (U := Sample.utils)
            (process (U := Sample.utils) Sample.store
               (ModifyLiquidityEv (Sample.liquidityEvent (-10) 10 5)))
            (Sample.liquidityEvent (-10) 10 (-3))).
  - apply (wfStore_process (U := Sample.utils)), sample_store_wf.
  - vm_compute. reflexivity.
  - simpl. lia.
  - vm_compute. reflexivity.
  - vm_compute. reflexivity.
Defined.

(** ** Aggregates along a sequence of events *)

Section Aggregates.

Context {U : Utils}.

Local Arguments swapAmounts : simpl never.
Local Arguments swapEntity : simpl never.
Local Arguments liquidityAmounts : simpl never.
Local Arguments liquidityEntity : simpl never.
Local Arguments tickWrites : simpl never.

(** What a liquidity change leaves of the pool it moves. *)
Lemma fundedPool_fields e pool t0 t1 b :
  let pool' := fundedPool e pool t0 t1 b in
  Pool.hooks pool' = Pool.hooks pool /\
  Pool.token0 pool' = Pool.token0 pool /\
  Pool.token1 pool' = Pool.token1 pool /\
  Pool.tick pool' = Pool.tick pool /\
  Pool.sqrtPrice pool' = Pool.sqrtPrice pool /\
  Pool.txCount pool' = Pool.txCount pool /\
  Pool.volumeUSD pool' = Pool.volumeUSD pool /\
  Pool.untrackedVolumeUSD pool' = Pool.untrackedVolumeUSD pool /\
  Pool.feesUSD pool' = Pool.feesUSD pool /\
  Pool.totalValueLockedUSD pool' =
    BD.times (Pool.totalValueLockedETH pool') (Bundle.ethPriceUSD b) /\
  Pool.liquidity pool' =
    if (ModifyLiquidityEvent.tickLower e <=? default 0 (Pool.tick pool))%Z &&
       (ModifyLiquidityEvent.tickUpper e >? default 0 (Pool.tick pool))%Z
    then Pool.liquidity pool + ModifyLiquidityEvent.liquidityDelta e
    else Pool.liquidity pool.
Proof.
  unfold fundedPool, liquidityPoolTvl, liquidityPoolBalances. cbn.
  by destruct (_ && _).
Qed.

(** One processed event: the pool and the manager it replaces, with what
    it adds to the swap totals and counters of both, and what it does to
    the statistics of the pool's hook. *)
Lemma processed_aggregates s ev :
  wfStore s -> processed s ev = true ->
  exists pool pm pool' pm' volume untracked fees,
    pools s !! poolKey ev = Some pool /\
    poolManagers s !! managerKey ev = Some pm /\
    pools (process s ev) = <[poolKey ev := pool']> (pools s) /\
    poolManagers (process s ev) = <[managerKey ev := pm']> (poolManagers s) /\
    Pool.hooks pool' = Pool.hooks pool /\
    (Pool.volumeUSD pool' = BD.plus (Pool.volumeUSD pool) volume /\
     Pool.untrackedVolumeUSD pool' = BD.plus (Pool.untrackedVolumeUSD pool) untracked /\
     Pool.feesUSD pool' = BD.plus (Pool.feesUSD pool) fees) /\
    (PoolManager.totalVolumeUSD pm' = BD.plus (PoolManager.totalVolumeUSD pm) volume /\
     PoolManager.untrackedVolumeUSD pm' =
       BD.plus (PoolManager.untrackedVolumeUSD pm) untracked /\
     PoolManager.totalFeesUSD pm' = BD.plus (PoolManager.totalFeesUSD pm) fees) /\
    (PoolManager.txCount pm' = PoolManager.txCount pm + 1 /\
     PoolManager.numberOfSwaps pm' =
       PoolManager.numberOfSwaps pm +
       match ev with SwapEv _ => 1 | ModifyLiquidityEv _ => 0 end /\
     PoolManager.hookedSwaps pm' =
       PoolManager.hookedSwaps pm +
       match ev with
       | SwapEv _ => if isHooked pool then 1 else 0
       | ModifyLiquidityEv _ => 0
       end /\
     Pool.txCount pool' =
       Pool.txCount pool +
       match ev with SwapEv _ => 1 | ModifyLiquidityEv _ => 0 end) /\
    match loadedHookStats s (eventChain ev) pool with
    | Some stats =>
        exists stats',
          hookStatsOf (process s ev) = <[HookStats.id stats := stats']> (hookStatsOf s) /\
          HookStats.totalValueLockedUSD stats' =
            BD.plus (BD.minus (HookStats.totalValueLockedUSD stats)
                              (Pool.totalValueLockedUSD pool))
                    (Pool.totalValueLockedUSD pool') /\
          HookStats.numberOfSwaps stats' =
            HookStats.numberOfSwaps stats +
            match ev with SwapEv _ => 1 | ModifyLiquidityEv _ => 0 end
    | None => hookStatsOf (process s ev) = hookStatsOf s
    end.
Proof.
  intros Hwf Hp. destruct ev as [e|e].
  - destruct (swap_processed_store _ _ Hwf Hp)
      as (pool & pm & t0 & t1 & Hpool & Hpm & Ht0 & Ht1 & ->).
    set (a := swapAmountsOf s e pool t0 t1).
    exists pool, pm, (swappedPool s e pool t0 t1), (swappedManager s e pool pm t0 t1),
      (amountTotalUSDTracked a), (amountTotalUSDUntracked a), (feesUSD a).
    do 4 (split; [done|]). split; [done|]. split; [done|]. split; [done|].
    split.
    { unfold swappedManager, swapPoolManager. cbn.
      repeat split; try lia. destruct (isHooked pool); lia. }
    unfold swapStore; cbn [hookStatsOf eventChain].
    destruct (loadedHookStats s (SwapEvent.chainId e) pool) as [stats|]; [|done].
    by eexists.
  - destruct (liquidity_processed_store _ _ Hwf Hp)
      as (pool & pm & t0 & t1 & b & Hpool & Hpm & Ht0 & Ht1 & Hb & ->).
    destruct (fundedPool_fields e pool t0 t1 b)
      as (Hh & _ & _ & _ & _ & Htx & Hv & Hu & Hf & Husd & _).
    exists pool, pm, (fundedPool e pool t0 t1 b),
      (liquidityPoolManager (Pool.totalValueLockedETH pool)
         (fundedPool e pool t0 t1 b) pm b), BD.zero, BD.zero, BD.zero.
    do 4 (split; [done|]). split; [done|].
    split.
    { rewrite Hv, Hu, Hf. unfold BD.plus, BD.zero. by rewrite !Qcplus_0_r. }
    split.
    { cbn. unfold BD.plus, BD.zero. by rewrite !Qcplus_0_r. }
    split.
    { rewrite Htx. cbn. repeat split; lia. }
    unfold liquidityStore; cbn [hookStatsOf eventChain].
    destruct (loadedHookStats s (ModifyLiquidityEvent.chainId e) pool) as [stats|];
      [|done].
    eexists. split; [reflexivity|]. split; [|cbn; lia].
    cbn [HookStats.totalValueLockedUSD HookStats.with_totalValueLockedUSD].
    by rewrite Husd.
Qed.

Lemma manager_lookup_step s ev c src pm' m :
  (eventChain ev = c -> eventSource ev = src) ->
  <[managerKey ev := pm']> (poolManagers s) !! chainKey c src = Some m ->
  (c = eventChain ev /\ m = pm' /\ managerKey ev = chainKey c src) \/
  (c <> eventChain ev /\ poolManagers s !! chainKey c src = Some m).
Proof.
  intros Hsrc Hm. destruct (decide (c = eventChain ev)) as [Hc|Hc].
  - left. symmetry in Hc. unfold managerKey in *.
    rewrite Hc, (Hsrc Hc), lookup_insert_eq in Hm. injection Hm as <-.
    by rewrite Hc, (Hsrc Hc).
  - right. split; [done|]. rewrite lookup_insert_ne in Hm; [done|].
    unfold managerKey. intros Hk. apply chainKey_inj in Hk as [Hk _]. congruence.
Qed.

Lemma managerVolumes_step s ev c src :
  wfStore s ->
  (eventChain ev = c -> eventSource ev = src) ->
  managerVolumesMatch s c src ->
  managerVolumesMatch (process s ev) c src.
Proof.
  intros Hwf Hsrc Hinv.
  destruct (processed s ev) eqn:Hp; [|by rewrite process_unprocessed].
  destruct (processed_aggregates _ _ Hwf Hp)
    as (pool & pm & pool' & pm' & v & u & f & Hpool & Hpm & Hpools & Hpms & _ &
        (Hv & Hu & Hf) & (Hmv & Hmu & Hmf) & _).
  intros m. rewrite Hpools, Hpms.
  rewrite !(sumPools_insert _ _ _ pool) by done.
  unfold poolKey. rewrite startsWith_chainKey.
  intros Hm.
  apply (manager_lookup_step _ _ _ _ _ _ Hsrc) in Hm as [(Hc & -> & Hk)|(Hc & Hm)].
  - rewrite bool_decide_eq_true_2 by done.
    rewrite Hk in Hpm. destruct (Hinv _ Hpm) as (H1 & H2 & H3).
    rewrite Hv, Hu, Hf, Hmv, Hmu, Hmf, H1, H2, H3.
    unfold BD.plus, BD.minus. repeat split; ring.
  - rewrite bool_decide_eq_false_2 by done. by apply Hinv.
Qed.

Lemma hookTvl_step s ev c hook :
  wfStore s -> wfHooks s -> hook <> ADDRESS_ZERO ->
  hookTvlMatches s c hook -> hookTvlMatches (process s ev) c hook.
Proof.
  intros Hwf Hh Hhook Hinv.
  destruct (processed s ev) eqn:Hp; [|by rewrite process_unprocessed].
  destruct (processed_aggregates _ _ Hwf Hp)
    as (pool & pm & pool' & pm' & v & u & f & Hpool & _ & Hpools & _ & Hhooks &
        _ & _ & _ & Hstats).
  intros stats'. rewrite Hpools.
  rewrite (sumPools_insert _ _ _ pool) by done.
  unfold poolKey. rewrite startsWith_chainKey.
  unfold hookedTvlUSD at 2 3. rewrite Hhooks.
  unfold loadedHookStats, isHooked in Hstats.
  destruct (decide (c = eventChain ev /\ Pool.hooks pool = hook)) as [[Hc Hp']|Hne].
  - rewrite bool_decide_eq_true_2 by done.
    rewrite Hp', String.eqb_refl in *.
    rewrite (proj2 (String.eqb_neq _ _) Hhook) in Hstats. cbn [negb] in Hstats.
    rewrite <- Hc in Hstats.
    destruct (hookStatsOf s !! chainKey c hook) as [stats|] eqn:Hs.
    + destruct Hstats as (st' & -> & Htvl & _).
      rewrite (Hh _ _ Hs), lookup_insert_eq. intros [= <-].
      rewrite Htvl. do 2 f_equal. by apply Hinv.
    + rewrite Hstats, Hs. done.
  - assert (Hsum : (if bool_decide (c = eventChain ev)
                    then BD.plus
                           (BD.minus (sumPools (hookedTvlUSD hook) c (pools s))
                              (if (Pool.hooks pool =? hook)%string
                               then Pool.totalValueLockedUSD pool else BD.zero))
                           (if (Pool.hooks pool =? hook)%string
                            then Pool.totalValueLockedUSD pool' else BD.zero)
                    else sumPools (hookedTvlUSD hook) c (pools s)) =
                   sumPools (hookedTvlUSD hook) c (pools s)).
    { case_bool_decide as Hc; [|done].
      destruct (String.eqb_spec (Pool.hooks pool) hook) as [Hp'|_]; [tauto|].
      unfold BD.plus, BD.minus, BD.zero. ring. }
    rewrite Hsum. clear Hsum.
    destruct (if negb (Pool.hooks pool =? ADDRESS_ZERO)%string
              then hookStatsOf s !! chainKey (eventChain ev) (Pool.hooks pool)
              else None) as [stats|] eqn:Hl.
    + destruct Hstats as (st' & -> & _).
      destruct (negb _); [|done].
      rewrite (Hh _ _ Hl), lookup_insert_ne; [apply Hinv|].
      intros Hk. apply chainKey_inj in Hk as [Hk1 Hk2]. by apply Hne.
    + rewrite Hstats. apply Hinv.
Qed.

Lemma countersOrdered_step s ev :
  wfStore s -> countersOrdered s -> countersOrdered (process s ev).
Proof.
  intros Hwf Hinv.
  destruct (processed s ev) eqn:Hp; [|by rewrite process_unprocessed].
  destruct (processed_aggregates _ _ Hwf Hp)
    as (pool & pm & pool' & pm' & v & u & f & _ & Hpm & _ & Hpms & _ & _ & _ &
        (Htx & Hn & Hhs & _) & _).
  intros k m. rewrite Hpms. intros Hm.
  apply lookup_insert_Some in Hm as [[<- <-]|[_ Hm]]; [|by apply (Hinv k)].
  destruct (Hinv _ _ Hpm) as [H1 H2]. rewrite Htx, Hn, Hhs.
  destruct ev; [destruct (isHooked pool)|]; lia.
Qed.

End Aggregates.

Lemma sample_mixed_singleManager :
  singleManager 1 Sample.manager
    [ SwapEv (Sample.swapEvent 0);
      ModifyLiquidityEv (Sample.liquidityEvent (-10) 20 5);
      SwapEv (Sample.swapEvent 1) ].
Proof. by repeat constructor. Qed.

Lemma sample_manager_volumes : managerVolumesMatch Sample.store 1 Sample.manager.
Proof.
  intros m Hm. vm_compute in Hm. injection Hm as <-.
  repeat split; decimal_eq.
Qed.

Lemma sample_hook_tvl : hookTvlMatches SampleHooks.store 1 SampleHooks.hook.
Proof.
  intros m Hm. vm_compute in Hm. injection Hm as <-. decimal_eq.
Qed.

Lemma sample_countersOrdered : countersOrdered Sample.store.
Proof.
  intros k m Hm. unfold Sample.store in Hm; cbn [poolManagers] in Hm.
  apply lookup_singleton_Some in Hm as [_ <-]. simpl. lia.
Qed.

(** X6. The manager's swap totals are kept in step with its pools. Every
    swap adds the same tracked volume, untracked volume and fee to the pool
    and to the manager, and a liquidity change adds to neither, so along any
    sequence of events (the events of a chain coming from its one manager
    contract) the manager's [totalVolumeUSD], [untrackedVolumeUSD] and
    [totalFeesUSD] stay equal to the totals of [volumeUSD],
    [untrackedVolumeUSD] and [feesUSD] over the pools of the chain. *)
Theorem manager_swap_totals_are_pool_sums {U : Utils} (s : Store)
    (evs : list Event) (chainId : Z) (srcAddress : string) :
  wfStore s -> singleManager chainId srcAddress evs ->
  managerVolumesMatch s chainId srcAddress ->
  managerVolumesMatch (processAll s evs) chainId srcAddress.
Proof.
  revert s. induction evs as [|ev evs IH]; intros s Hwf Hsingle Hinv; [done|].
  apply Forall_cons in Hsingle as [Hev Hsingle]. simpl. apply IH; [|done|].
  - by apply wfStore_process.
  - by apply managerVolumes_step.
Qed.

Lemma manager_swap_totals_are_pool_sums_witness :
  managerVolumesMatch
    (processAll (U := Sample.utils) Sample.store
       [ SwapEv (Sample.swapEvent 0);
         ModifyLiquidityEv (Sample.liquidityEvent (-10) 20 5);
         SwapEv (Sample.swapEvent 1) ])
    1 Sample.manager.
Proof.
  apply (manager_swap_totals_are_pool_sums (U := Sample.utils) Sample.store
           [ SwapEv (Sample.swapEvent 0);
             ModifyLiquidityEv (Sample.liquidityEvent (-10) 20 5);
             SwapEv (Sample.swapEvent 1) ]
           1 Sample.manager).
  - exact sample_store_wf.
  - exact sample_mixed_singleManager.
  - exact sample_manager_volumes.
Defined.

(** X7. The USD TVL of a hook is kept in step with its pools. Both handlers
    take the pool's stored [totalValueLockedUSD] out of the hook's statistics
    and put the pool's new one in, so along any sequence of events the
    [totalValueLockedUSD] of the statistics stored for a hook (other than
    the zero address) stays equal to the total of [totalValueLockedUSD] over
    the pools of the chain that use the hook. Unlike the manager's USD
    total, this one is rolled, not recomputed from the native total. *)
Theorem hook_tvl_usd_is_pool_sum {U : Utils} (s : Store) (evs : list Event)
    (chainId : Z) (hook : string) :
  wfStore s -> wfHooks s -> hook <> ADDRESS_ZERO ->
  hookTvlMatches s chainId hook ->
  hookTvlMatches (processAll s evs) chainId hook.
Proof.
  intros Hwf Hh Hhook Hinv.
  apply (processAll_invariant (fun s' => hookTvlMatches s' chainId hook));
    [|done..].
  intros s' ev Hwf' Hh' Hinv'. by apply hookTvl_step.
Qed.

Lemma hook_tvl_usd_is_pool_sum_witness :
  hookTvlMatches
    (processAll (U := Sample.utils) SampleHooks.store
       [ SwapEv (Sample.swapEvent 0);
         ModifyLiquidityEv (Sample.liquidityEvent (-10) 20 5);
         SwapEv (Sample.swapEvent 1) ])
    1 SampleHooks.hook.
Proof.
  apply (hook_tvl_usd_is_pool_sum (U := Sample.utils) SampleHooks.store
           [ SwapEv (Sample.swapEvent 0);
             ModifyLiquidityEv (Sample.liquidityEvent (-10) 20 5);
             SwapEv (Sample.swapEvent 1) ]
           1 SampleHooks.hook).
  - exact sample_hooks_wf.
  - exact sample_hooks_wfHooks.
  - discriminate.
  - exact sample_hook_tvl.
Defined.

(** X8. The manager's counters stay ordered. Every processed event counts
    one transaction, a swap also counts one swap, and a swap through a
    hooked pool also one hooked swap; so along any sequence of events every
    manager keeps [hookedSwaps <= numberOfSwaps <= txCount]. *)
Theorem manager_counters_stay_ordered {U : Utils} (s : Store) (evs : list Event) :
  wfStore s -> countersOrdered s -> countersOrdered (processAll s evs).
Proof.
  revert s. induction evs as [|ev evs IH]; intros s Hwf Hinv; [done|].
  simpl. apply IH; [by apply wfStore_process|by apply countersOrdered_step].
Qed.

Lemma manager_counters_stay_ordered_witness :
  countersOrdered
    (processAll (U := Sample.utils) Sample.store
       [ SwapEv (Sample.swapEvent 0);
         ModifyLiquidityEv (Sample.liquidityEvent (-10) 20 5) ]).
Proof.
  apply (manager_counters_stay_ordered (U := Sample.utils) Sample.store
           [ SwapEv (Sample.swapEvent 0);
             ModifyLiquidityEv (Sample.liquidityEvent (-10) 20 5) ]).
  - exact sample_store_wf.
  - exact sample_countersOrdered.
Defined.

(** X9. What one processed event counts. A processed swap adds one to the
    manager's [txCount] and [numberOfSwaps] and to the pool's [txCount], and
    one to the manager's [hookedSwaps] exactly when the pool has a hook; the
    manager record that stays stored is the one of the second
    [PoolManager.set], which carries all of these. A processed liquidity
    change adds one to the manager's [txCount] only: the pool's [txCount]
    and both swap counters stay as they were. *)
Theorem event_counts {U : Utils} (s : Store) (ev : Event) :
  wfStore s -> processed s ev = true ->
  exists pool pm pool' pm',
    pools s !! poolKey ev = Some pool /\
    poolManagers s !! managerKey ev = Some pm /\
    pools (process s ev) !! poolKey ev = Some pool' /\
    poolManagers (process s ev) !! managerKey ev = Some pm' /\
    PoolManager.txCount pm' = PoolManager.txCount pm + 1 /\
    PoolManager.numberOfSwaps pm' =
      PoolManager.numberOfSwaps pm +
      match ev with SwapEv _ => 1 | ModifyLiquidityEv _ => 0 end /\
    PoolManager.hookedSwaps pm' =
      PoolManager.hookedSwaps pm +
      match ev with
      | SwapEv _ => if isHooked pool then 1 else 0
      | ModifyLiquidityEv _ => 0
      end /\
    Pool.txCount pool' =
      Pool.txCount pool +
      match ev with SwapEv _ => 1 | ModifyLiquidityEv _ => 0 end.
Proof.
  intros Hwf Hp.
  destruct (processed_aggregates _ _ Hwf Hp)
    as (pool & pm & pool' & pm' & v & u & f & Hpool & Hpm & Hpools & Hpms & _ & _ & _ &
        (Htx & Hn & Hhs & Hptx) & _).
  exists pool, pm, pool', pm'. rewrite Hpools, Hpms, !lookup_insert_eq. done.
Qed.

Lemma event_counts_witness :
  exists pool pm pool' pm',
    pools SampleHooks.store !! poolKey (SwapEv (Sample.swapEvent 0)) = Some pool /\
    poolManagers SampleHooks.store !! managerKey (SwapEv (Sample.swapEvent 0)) = Some pm /\
    pools (process (U := Sample.utils) SampleHooks.store (SwapEv (Sample.swapEvent 0)))
      !! poolKey (SwapEv (Sample.swapEvent 0)) = Some pool' /\
    poolManagers
      (process (U := Sample.utils) SampleHooks.store (SwapEv (Sample.swapEvent 0)))
      !! managerKey (SwapEv (Sample.swapEvent 0)) = Some pm' /\
    PoolManager.txCount pm' = PoolManager.txCount pm + 1 /\
    PoolManager.numberOfSwaps pm' = PoolManager.numberOfSwaps pm + 1 /\
    PoolManager.hookedSwaps pm' =
      PoolManager.hookedSwaps pm + (if isHooked pool then 1 else 0) /\
    Pool.txCount pool' = Pool.txCount pool + 1.
Proof.
  apply (event_counts (U := Sample.utils) SampleHooks.store
           (SwapEv (Sample.swapEvent 0))).
  - exact sample_hooks_wf.
  - reflexivity.
Defined.

(** ** How events compose *)

Section Composition.

Context {U : Utils}.

Local Arguments swapAmounts : simpl never.
Local Arguments swapEntity : simpl never.
Local Arguments liquidityAmounts : simpl never.
Local Arguments liquidityEntity : simpl never.
Local Arguments tickWrites : simpl never.

(** What every event keeps of the store: the pools with their tokens and
    hook, and the presence of every token, manager and bundle. *)
Lemma process_keeps s ev :
  wfStore s ->
  (forall k pool, pools s !! k = Some pool ->
     exists pool', pools (process s ev) !! k = Some pool' /\
       Pool.token0 pool' = Pool.token0 pool /\
       Pool.token1 pool' = Pool.token1 pool /\
       Pool.hooks pool' = Pool.hooks pool) /\
  (forall k, is_Some (tokens s !! k) -> is_Some (tokens (process s ev) !! k)) /\
  (forall k, is_Some (poolManagers s !! k) ->
     is_Some (poolManagers (process s ev) !! k)) /\
  (forall k, is_Some (bundles s !! k) -> is_Some (bundles (process s ev) !! k)).
Proof.
  intros Hwf.
  destruct (processed s ev) eqn:Hp.
  2:{ rewrite process_unprocessed by done. repeat split; eauto. }
  destruct ev as [e|e].
  - destruct (swap_processed_store _ _ Hwf Hp)
      as (pool & pm & t0 & t1 & Hpool & Hpm & Ht0 & Ht1 & ->).
    unfold swapStore; cbn [pools tokens poolManagers bundles].
    split; [|repeat split; intros k Hk; rewrite ?lookup_insert_is_Some'; auto].
    intros k p Hk. destruct (decide (k = poolKey (SwapEv e))) as [->|Hne].
    + rewrite lookup_insert_eq. rewrite Hpool in Hk. injection Hk as <-.
      by eexists.
    + rewrite lookup_insert_ne by done. eauto.
  - destruct (liquidity_processed_store _ _ Hwf Hp)
      as (pool & pm & t0 & t1 & b & Hpool & Hpm & Ht0 & Ht1 & Hb & ->).
    unfold liquidityStore; cbn [pools tokens poolManagers bundles].
    split; [|repeat split; intros k Hk; rewrite ?lookup_insert_is_Some'; auto].
    intros k p Hk. destruct (decide (k = poolKey (ModifyLiquidityEv e))) as [->|Hne].
    + rewrite lookup_insert_eq. rewrite Hpool in Hk. injection Hk as <-.
      destruct (fundedPool_fields e pool t0 t1 b) as (? & ? & ? & _).
      by eexists.
    + rewrite lookup_insert_ne by done. eauto.
Qed.

Lemma tokensPresent_process s ev ev' :
  wfStore s -> tokensPresent s ev' = true -> tokensPresent (process s ev) ev' = true.
Proof.
  intros Hwf. destruct (process_keeps s ev Hwf) as (Hpools & Htokens & _).
  unfold tokensPresent.
  destruct (pools s !! poolKey ev') as [pool|] eqn:Hpool; [|done].
  destruct (Hpools _ _ Hpool) as (pool' & -> & -> & -> & _).
  intros H. apply andb_prop in H as [H0 H1].
  apply bool_decide_eq_true in H0, H1.
  rewrite !bool_decide_eq_true_2; auto.
Qed.

Lemma processed_process s ev ev' :
  wfStore s -> processed s ev' = true -> processed (process s ev) ev' = true.
Proof.
  intros Hwf Hp.
  destruct (process_keeps s ev Hwf) as (_ & _ & Hpms & Hbundles).
  revert Hp. unfold processed. intros H.
  apply andb_prop in H as [H Hb]. apply andb_prop in H as [H Hx].
  apply andb_prop in H as [Ht Hm]. apply bool_decide_eq_true in Hm.
  rewrite (tokensPresent_process _ _ _ Hwf Ht), Hx.
  rewrite bool_decide_eq_true_2 by auto. cbn.
  destruct ev' as [e'|e']; [done|].
  apply bool_decide_eq_true in Hb. apply bool_decide_eq_true_2. auto.
Qed.

End Composition.

(** X10. Whether an event is processed only ever changes from no to yes.
    The handlers never remove a pool, token, manager or bundle and never
    change the tokens of a pool, so an event whose required entities are
    present in a store (and whose pool is not excluded) still has them after
    any sequence of other events. *)
Theorem processable_stays_processable {U : Utils} (s : Store) (evs : list Event)
    (ev : Event) :
  wfStore s -> processed s ev = true -> processed (processAll s evs) ev = true.
Proof.
  revert s. induction evs as [|ev' evs IH]; intros s Hwf Hp; [done|].
  simpl. apply IH; [by apply wfStore_process|by apply processed_process].
Qed.

Lemma processable_stays_processable_witness :
  processed (U := Sample.utils)
    (processAll (U := Sample.utils) Sample.store
       [ SwapEv (Sample.swapEvent 0);
         ModifyLiquidityEv (Sample.liquidityEvent (-10) 20 5) ])
    (ModifyLiquidityEv (Sample.liquidityEvent 0 5 1)) = true.
Proof.
  apply (processable_stays_processable (U := Sample.utils) Sample.store
           [ SwapEv (Sample.swapEvent 0);
             ModifyLiquidityEv (Sample.liquidityEvent (-10) 20 5) ]
           (ModifyLiquidityEv (Sample.liquidityEvent 0 5 1))).
  - exact sample_store_wf.
  - reflexivity.
Defined.

(** X11. A processed swap always leaves a bundle for its chain: it stores
    the bundle it loaded, or the zero default when there was none, with the
    native price that [getNativePriceInUSD] returned on the store as it was
    before the swap's own writes. A liquidity change of that chain whose
    pool, tokens and manager are present is therefore processed after the
    swap, even if it was skipped before for want of a bundle. *)
Theorem swap_creates_the_bundle {U : Utils} (s : Store) (e : SwapEvent.t)
    (e' : ModifyLiquidityEvent.t) :
  wfStore s -> processed s (SwapEv e) = true ->
  ModifyLiquidityEvent.chainId e' = SwapEvent.chainId e ->
  tokensPresent s (ModifyLiquidityEv e') = true ->
  is_Some (poolManagers s !! managerKey (ModifyLiquidityEv e')) ->
  excluded (ModifyLiquidityEv e') = false ->
  bundles (process s (SwapEv e)) !! pretty (SwapEvent.chainId e) =
    Some {| Bundle.id := pretty (SwapEvent.chainId e);
            Bundle.ethPriceUSD :=
              getNativePriceInUSD s (pretty (SwapEvent.chainId e))
                (stablecoinWrappedNativePoolId (getChainConfig (SwapEvent.chainId e)))
                (stablecoinIsToken0 (getChainConfig (SwapEvent.chainId e))) |} /\
  processed (process s (SwapEv e)) (ModifyLiquidityEv e') = true.
Proof.
  intros Hwf Hp Hc Ht Hm Hx.
  assert (Hb : bundles (process s (SwapEv e)) !! pretty (SwapEvent.chainId e) =
    Some {| Bundle.id := pretty (SwapEvent.chainId e);
            Bundle.ethPriceUSD :=
              getNativePriceInUSD s (pretty (SwapEvent.chainId e))
                (stablecoinWrappedNativePoolId (getChainConfig (SwapEvent.chainId e)))
                (stablecoinIsToken0 (getChainConfig (SwapEvent.chainId e))) |}).
  { destruct (swap_processed_store _ _ Hwf Hp)
      as (pool & pm & t0 & t1 & _ & _ & _ & _ & ->).
    unfold swapStore; cbn [bundles]. apply lookup_insert_eq. }
  split; [done|].
  destruct (process_keeps s (SwapEv e) Hwf) as (_ & _ & Hpms & _).
  unfold processed.
  rewrite (tokensPresent_process _ _ _ Hwf Ht), Hx.
  rewrite bool_decide_eq_true_2 by auto. cbn.
  apply bool_decide_eq_true_2. unfold bundleKey; cbn. rewrite Hc, Hb. by eexists.
Qed.

(** The sample chain before any swap: no bundle yet. *)
Lemma swap_creates_the_bundle_witness :
  let s :=
    {| poolManagers := poolManagers Sample.store;
       pools := pools Sample.store;
       bundles := ∅;
       tokens := tokens Sample.store;
       hookStatsOf := ∅;
       ticks := ∅;
       swaps := ∅;
       modifyLiquidities := ∅ |} in
  processed (U := Sample.utils) s
    (ModifyLiquidityEv (Sample.liquidityEvent (-10) 20 5)) = false /\
  (bundles (process (U := Sample.utils) s (SwapEv (Sample.swapEvent 0))) !! pretty 1 =
     Some {| Bundle.id := pretty 1;
             Bundle.ethPriceUSD :=
               getNativePriceInUSD (Utils := Sample.utils) s (pretty 1)
                 Sample.referencePool true |} /\
   processed (U := Sample.utils)
     (process (U := Sample.utils) s (SwapEv (Sample.swapEvent 0)))
     (ModifyLiquidityEv (Sample.liquidityEvent (-10) 20 5)) = true).
Proof.
  split; [reflexivity|].
  apply (swap_creates_the_bundle (U := Sample.utils) _ (Sample.swapEvent 0)
           (Sample.liquidityEvent (-10) 20 5)).
  - constructor; simpl; solve_table.
  - reflexivity.
  - reflexivity.
  - reflexivity.
  - by eexists.
  - reflexivity.
Defined.

Section Sequences.

Context {U : Utils}.

Local Arguments swapAmounts : simpl never.
Local Arguments swapEntity : simpl never.
Local Arguments liquidityAmounts : simpl never.
Local Arguments liquidityEntity : simpl never.
Local Arguments tickWrites : simpl never.

(** The pool a processed liquidity change stores, from the pool it found. *)
Lemma liquidity_pool s e pool :
  wfStore s -> processed s (ModifyLiquidityEv e) = true ->
  pools s !! poolKey (ModifyLiquidityEv e) = Some pool ->
  exists pool',
    pools (process s (ModifyLiquidityEv e)) !! poolKey (ModifyLiquidityEv e) =
      Some pool' /\
    Pool.tick pool' = Pool.tick pool /\
    Pool.sqrtPrice pool' = Pool.sqrtPrice pool /\
    Pool.liquidity pool' =
      if (ModifyLiquidityEvent.tickLower e <=? default 0 (Pool.tick pool))%Z &&
         (ModifyLiquidityEvent.tickUpper e >? default 0 (Pool.tick pool))%Z
      then Pool.liquidity pool + ModifyLiquidityEvent.liquidityDelta e
      else Pool.liquidity pool.
Proof.
  intros Hwf Hp Hpool.
  destruct (liquidity_processed_store _ _ Hwf Hp)
    as (pool0 & pm & t0 & t1 & b & Hpool0 & _ & _ & _ & _ & ->).
  rewrite Hpool in Hpool0. injection Hpool0 as <-.
  destruct (fundedPool_fields e pool t0 t1 b)
    as (_ & _ & _ & Htick & Hsqrt & _ & _ & _ & _ & _ & Hliq).
  exists (fundedPool e pool t0 t1 b).
  unfold liquidityStore; cbn [pools]. by rewrite lookup_insert_eq.
Qed.

Lemma swap_pool s e :
  wfStore s -> processed s (SwapEv e) = true ->
  exists pool',
    pools (process s (SwapEv e)) !! poolKey (SwapEv e) = Some pool' /\
    Pool.tick pool' = Some (SwapEvent.tick e) /\
    Pool.sqrtPrice pool' = Some (SwapEvent.sqrtPriceX96 e) /\
    Pool.liquidity pool' = SwapEvent.liquidity e.
Proof.
  intros Hwf Hp.
  destruct (swap_processed_store _ _ Hwf Hp)
    as (pool & pm & t0 & t1 & _ & _ & _ & _ & ->).
  exists (swappedPool s e pool t0 t1).
  unfold swapStore; cbn [pools]. by rewrite lookup_insert_eq.
Qed.

(** The Swap records after an event. *)
Lemma swaps_process s ev :
  swaps (process s ev) = swaps s \/
  exists e record, ev = SwapEv e /\
    swaps (process s ev) = <[swapKey e := record]> (swaps s).
Proof.
  destruct ev as [e|e]; [|left; apply liquidity_frame].
  rewrite process_effects. unfold effects, swapEffects.
  destruct (pools s !! chainKey (SwapEvent.chainId e) (SwapEvent.id e)) as [pool|];
    [|by left].
  destruct (poolManagers s !! chainKey (SwapEvent.chainId e) (SwapEvent.srcAddress e))
    as [pm|]; [|by left].
  destruct (tokens s !! Pool.token0 pool) as [t0|]; [|by left].
  destruct (tokens s !! Pool.token1 pool) as [t1|]; [|by left].
  case_bool_decide; [by left|]. right. unfold swapWrites.
  destruct (if negb (Pool.hooks pool =? ADDRESS_ZERO)%string
            then hookStatsOf s !! chainKey (SwapEvent.chainId e) (Pool.hooks pool)
            else None); by eexists e, _.
Qed.

Lemma swapKey_inj e e' :
  swapKey e = swapKey e' ->
  (SwapEvent.chainId e, SwapEvent.blockNumber e, SwapEvent.logIndex e) =
  (SwapEvent.chainId e', SwapEvent.blockNumber e', SwapEvent.logIndex e').
Proof.
  intros H.
  change (chainKey (SwapEvent.chainId e)
            (chainKey (SwapEvent.blockNumber e) (pretty (SwapEvent.logIndex e))) =
          chainKey (SwapEvent.chainId e')
            (chainKey (SwapEvent.blockNumber e') (pretty (SwapEvent.logIndex e')))) in H.
  apply chainKey_inj in H as [-> H]. apply chainKey_inj in H as [-> H].
  by apply (inj pretty) in H as ->.
Qed.

Lemma swaps_kept s evs e0 :
  noSwapAt e0 evs -> swaps (processAll s evs) !! swapKey e0 = swaps s !! swapKey e0.
Proof.
  revert s. induction evs as [|ev evs IH]; intros s Hno; [done|].
  apply Forall_cons in Hno as [Hev Hno]. simpl. rewrite IH by done.
  destruct (swaps_process s ev) as [->|(e & r & -> & ->)]; [done|].
  apply lookup_insert_ne. intros Hk. by apply swapKey_inj in Hk.
Qed.

End Sequences.

(** X12. A liquidity change is judged against the price state of the last
    swap. A processed swap overwrites the pool's tick, square-root price and
    active liquidity with the event's values, whatever they were; a
    liquidity change of the same pool processed next keeps the tick and
    price, and adds its delta to the swap's liquidity exactly when
    [tickLower <= tick < tickUpper] for the swap's tick. *)
Theorem liquidity_range_follows_last_swap {U : Utils} (s : Store)
    (e : SwapEvent.t) (e' : ModifyLiquidityEvent.t) :
  wfStore s -> processed s (SwapEv e) = true ->
  poolKey (ModifyLiquidityEv e') = poolKey (SwapEv e) ->
  processed (process s (SwapEv e)) (ModifyLiquidityEv e') = true ->
  exists pool',
    pools (processAll s [SwapEv e; ModifyLiquidityEv e']) !! poolKey (SwapEv e) =
      Some pool' /\
    Pool.tick pool' = Some (SwapEvent.tick e) /\
    Pool.sqrtPrice pool' = Some (SwapEvent.sqrtPriceX96 e) /\
    Pool.liquidity pool' =
      if (ModifyLiquidityEvent.tickLower e' <=? SwapEvent.tick e)%Z &&
         (ModifyLiquidityEvent.tickUpper e' >? SwapEvent.tick e)%Z
      then SwapEvent.liquidity e + ModifyLiquidityEvent.liquidityDelta e'
      else SwapEvent.liquidity e.
Proof.
  intros Hwf Hp Hk Hp'.
  destruct (swap_pool _ _ Hwf Hp) as (pool1 & Hpool1 & Htick & Hsqrt & Hliq).
  rewrite <- Hk in Hpool1 |- *.
  destruct (liquidity_pool _ _ pool1 (wfStore_process _ (SwapEv e) Hwf) Hp' Hpool1)
    as (pool2 & Hpool2 & Htick2 & Hsqrt2 & Hliq2).
  exists pool2. cbn [processAll fold_left].
  rewrite Htick, Hliq in Hliq2. rewrite Htick in Htick2. rewrite Hsqrt in Hsqrt2.
  done.
Qed.

Lemma liquidity_range_follows_last_swap_witness :
  exists pool',
    pools (processAll (U := Sample.utils) Sample.store
             [ SwapEv (Sample.swapEvent 0);
               ModifyLiquidityEv (Sample.liquidityEvent (-10) 20 5) ])
      !! poolKey (SwapEv (Sample.swapEvent 0)) = Some pool' /\
    Pool.tick pool' = Some 10 /\
    Pool.sqrtPrice pool' = Some (20000 * 2 ^ 96) /\
    Pool.liquidity pool' = 1005.
Proof.
  apply (liquidity_range_follows_last_swap (U := Sample.utils) Sample.store
           (Sample.swapEvent 0) (Sample.liquidityEvent (-10) 20 5)).
  - exact sample_store_wf.
  - reflexivity.
  - reflexivity.
  - vm_compute. reflexivity.
Defined.

(** X13. A Swap record, once stored, is found again. Records are keyed by
    chain, block number and log index, and the key identifies that triple;
    so the record of a processed swap is still stored under its key, with
    the event's pool, transaction, tick, price and log index, after any
    sequence of later events none of which is a swap with the same chain,
    block number and log index. *)
Theorem swap_record_is_kept {U : Utils} (s : Store) (e : SwapEvent.t)
    (evs : list Event) :
  wfStore s -> processed s (SwapEv e) = true -> noSwapAt e evs ->
  exists record,
    swaps (processAll s (SwapEv e :: evs)) !! swapKey e = Some record /\
    Swap.id record = swapKey e /\
    Swap.pool record = poolKey (SwapEv e) /\
    Swap.transaction record = SwapEvent.transactionHash e /\
    Swap.sqrtPriceX96 record = SwapEvent.sqrtPriceX96 e /\
    Swap.tick record = SwapEvent.tick e /\
    Swap.logIndex record = SwapEvent.logIndex e.
Proof.
  intros Hwf Hp Hno. cbn [processAll fold_left].
  change (fold_left process evs (process s (SwapEv e)))
    with (processAll (process s (SwapEv e)) evs).
  rewrite swaps_kept by done.
  destruct (swap_processed_store _ _ Hwf Hp)
    as (pool & pm & t0 & t1 & _ & _ & _ & _ & ->).
  eexists. unfold swapStore; cbn [swaps]. rewrite lookup_insert_eq.
  split; [reflexivity|]. by unfold swapEntity.
Qed.

Lemma swap_record_is_kept_witness :
  exists record,
    swaps (processAll (U := Sample.utils) Sample.store
             [ SwapEv (Sample.swapEvent 0);
               ModifyLiquidityEv (Sample.liquidityEvent (-10) 20 5);
               SwapEv (Sample.swapEvent 1) ])
      !! swapKey (Sample.swapEvent 0) = Some record /\
    Swap.id record = swapKey (Sample.swapEvent 0) /\
    Swap.pool record = poolKey (SwapEv (Sample.swapEvent 0)) /\
    Swap.transaction record = "0xtx" /\
    Swap.sqrtPriceX96 record = 20000 * 2 ^ 96 /\
    Swap.tick record = 10 /\
    Swap.logIndex record = 0.
Proof.
  apply (swap_record_is_kept (U := Sample.utils) Sample.store (Sample.swapEvent 0)
           [ ModifyLiquidityEv (Sample.liquidityEvent (-10) 20 5);
             SwapEv (Sample.swapEvent 1) ]).
  - exact sample_store_wf.
  - reflexivity.
  - repeat constructor. simpl. intros [=].
Defined.



(** X15. Adding a position and removing it again restores the pool's
    active liquidity. Liquidity changes never move the pool's tick or
    price, so the removal is judged in or out of range exactly as the
    addition was: after a processed liquidity change followed by one for the
    same pool, manager and range with the opposite delta, the pool's
    [liquidity], [tick] and [sqrtPrice] are what they were. The second
    event is always processed, as the first one was. *)
Theorem pool_liquidity_round_trip {U : Utils} (s : Store)
    (e e' : ModifyLiquidityEvent.t) (pool : Pool.t) :
  wfStore s -> processed s (ModifyLiquidityEv e) = true ->
  pools s !! poolKey (ModifyLiquidityEv e) = Some pool ->
  ModifyLiquidityEvent.chainId e' = ModifyLiquidityEvent.chainId e ->
  ModifyLiquidityEvent.id e' = ModifyLiquidityEvent.id e ->
  ModifyLiquidityEvent.srcAddress e' = ModifyLiquidityEvent.srcAddress e ->
  ModifyLiquidityEvent.tickLower e' = ModifyLiquidityEvent.tickLower e ->
  ModifyLiquidityEvent.tickUpper e' = ModifyLiquidityEvent.tickUpper e ->
  ModifyLiquidityEvent.liquidityDelta e' = - ModifyLiquidityEvent.liquidityDelta e ->
  processed (process s (ModifyLiquidityEv e)) (ModifyLiquidityEv e') = true /\
  exists pool',
    pools (processAll s [ModifyLiquidityEv e; ModifyLiquidityEv e'])
      !! poolKey (ModifyLiquidityEv e) = Some pool' /\
    Pool.liquidity pool' = Pool.liquidity pool /\
    Pool.tick pool' = Pool.tick pool /\
    Pool.sqrtPrice pool' = Pool.sqrtPrice pool.
Proof.
  intros Hwf Hp Hpool Hc Hid Hsrc Hl Hu Hd.
  assert (Hk : poolKey (ModifyLiquidityEv e') = poolKey (ModifyLiquidityEv e)).
  { unfold poolKey; cbn. by rewrite Hc, Hid. }
  assert (Hp' : processed (process s (ModifyLiquidityEv e)) (ModifyLiquidityEv e') = true).
  { rewrite <- (processed_process s (ModifyLiquidityEv e) (ModifyLiquidityEv e) Hwf Hp).
    unfold processed, tokensPresent, excluded, poolKey, managerKey, bundleKey; cbn.
    by rewrite Hc, Hid, Hsrc. }
  split; [done|].
  destruct (liquidity_pool _ _ _ Hwf Hp Hpool) as (pool1 & Hpool1 & Htick & Hsqrt & Hliq).
  rewrite <- Hk in Hpool1.
  destruct (liquidity_pool _ _ pool1 (wfStore_process _ (ModifyLiquidityEv e) Hwf)
              Hp' Hpool1) as (pool2 & Hpool2 & Htick2 & Hsqrt2 & Hliq2).
  exists pool2. cbn [processAll fold_left]. rewrite <- Hk.
  split; [done|]. split; [|split; congruence].
  rewrite Hliq2, Hliq, Htick, Hl, Hu, Hd.
  destruct (_ && _); lia.
Qed.

Lemma pool_liquidity_round_trip_witness :
  let e := Sample.liquidityEvent (-10) 20 5 in
  let e' := Sample.liquidityEvent (-10) 20 (-5) in
  processed (U := Sample.utils)
    (process (U := Sample.utils) Sample.store (ModifyLiquidityEv e))
    (ModifyLiquidityEv e') = true /\
  exists pool',
    pools (processAll (U := Sample.utils) Sample.store
             [ModifyLiquidityEv e; ModifyLiquidityEv e'])
      !! poolKey (ModifyLiquidityEv e) = Some pool' /\
    Pool.liquidity pool' = 1000 /\
    Pool.tick pool' = Some 0 /\
    Pool.sqrtPrice pool' = Some 0.
Proof.
  apply (pool_liquidity_round_trip (U := Sample.utils) Sample.store
           (Sample.liquidityEvent (-10) 20 5) (Sample.liquidityEvent (-10) 20 (-5))
           (Sample.usdcWethPool Sample.otherPool 2000 1 1000));
    reflexivity || exact sample_store_wf.
Defined.

(** X16. The handlers start nothing: on a store without pools every event
    is ignored, so any sequence of swaps and liquidity changes returns the
    store unchanged, and no run raises. *)
Theorem no_pools_no_writes {U : Utils} (s : Store) (evs : list Event) :
  pools s = ∅ ->
  processAll s evs = s /\
  Forall (fun ev => handle false ev (initial s) = Returned tt (initial s)) evs.
Proof.
  intros Hempty.
  assert (Hskip : forall ev, processed s ev = false).
  { intros ev. unfold processed, tokensPresent. by rewrite Hempty, lookup_empty. }
  split.
  - induction evs as [|ev evs IH]; [done|]. simpl.
    by rewrite process_unprocessed.
  - apply Forall_forall. intros ev _.
    pose proof (effects_unprocessed s ev (Hskip ev)) as Heff.
    destruct ev as [e|e]; simpl in *.
    + rewrite swapLoader_run. cbn [db initial]. by rewrite Heff, extend_nil.
    + rewrite modifyLiquidityLoader_run.
      replace (managerMissing (db (initial s)) e) with false.
      * cbn [db initial]. by rewrite Heff, extend_nil.
      * unfold managerMissing, tokensPresent; simpl.
        by rewrite Hempty, lookup_empty.
Qed.

Lemma no_pools_no_writes_witness :
  let s :=
    {| poolManagers := poolManagers Sample.store;
       pools := ∅;
       bundles := bundles Sample.store;
       tokens := tokens Sample.store;
       hookStatsOf := ∅;
       ticks := ∅;
       swaps := ∅;
       modifyLiquidities := ∅ |} in
  let evs :=
    [ SwapEv (Sample.swapEvent 0);
      ModifyLiquidityEv (Sample.liquidityEvent (-10) 20 5) ] in
  processAll (U := Sample.utils) s evs = s /\
  Forall (fun ev => handle (U := Sample.utils) false ev (initial s) =
                    Returned tt (initial s)) evs.
Proof.
  apply (no_pools_no_writes (U := Sample.utils)). reflexivity.
Defined.

(** ** Token metadata: clients and resolution *)

Lemma envOr_nonempty env var fallback :
  fallback <> "" -> Metadata.envOr env var fallback <> "".
Proof. intros Hf. unfold Metadata.envOr. by destruct (env var) as [[|a v]|]. Qed.

Lemma getRpcUrl_outcome env chainId :
  match Metadata.getRpcUrl env chainId with
  | Metadata.Ok url => chainId ∈ rpcChains /\ url <> ""
  | Metadata.Err msg =>
      (chainId ∉ rpcChains) /\
      msg = "No RPC URL configured for chainId " +:+ pretty chainId
  end.
Proof.
  unfold Metadata.getRpcUrl, rpcChains.
  repeat (case_decide;
          [subst chainId; split;
           [by repeat constructor|by apply envOr_nonempty]|]).
  split; [|done]. intros Hin.
  repeat (apply elem_of_cons in Hin as [?|Hin]; [done|]).
  by apply elem_of_nil in Hin.
Qed.

(** What a [getClient] call does to the cache. *)
Lemma getClient_cache env clients chainId :
  match Metadata.getClient env clients chainId with
  | (Metadata.Ok client, clients') =>
      is_Some (clients' !! chainId) /\
      (forall c, c <> chainId -> clients' !! c = clients !! c) /\
      (forall c x, clients !! c = Some x -> clients' !! c = Some x)
  | (Metadata.Err msg, clients') =>
      clients' = clients /\ clients !! chainId = None /\ chainId ∉ rpcChains
  end.
Proof.
  unfold Metadata.getClient.
  destruct (clients !! chainId) as [client|] eqn:Hc; [by rewrite Hc|].
  pose proof (getRpcUrl_outcome env chainId) as H.
  destruct (Metadata.getRpcUrl env chainId) as [url|msg]; [|by destruct H].
  split; [by rewrite lookup_insert_eq|].
  split; [intros c Hne; by rewrite lookup_insert_ne|].
  intros c x Hx. rewrite lookup_insert_ne; [done|]. congruence.
Qed.

(** X17. [getRpcUrl] answers for exactly thirteen chains, and never with an
    empty URL: an environment variable that is unset or set to the empty
    string gives way to the built-in endpoint. For every other chain id it
    throws, naming the chain id, whatever the environment holds. *)
Theorem getRpcUrl_configured_chains (env : string -> option string) (chainId : Z) :
  match Metadata.getRpcUrl env chainId with
  | Metadata.Ok url => chainId ∈ rpcChains /\ url <> ""
  | Metadata.Err msg =>
      (chainId ∉ rpcChains) /\
      msg = "No RPC URL configured for chainId " +:+ pretty chainId /\
      forall env', Metadata.getRpcUrl env' chainId = Metadata.Err msg
  end.
Proof.
  pose proof (getRpcUrl_outcome env chainId) as H.
  destruct (Metadata.getRpcUrl env chainId) as [url|msg]; [done|].
  destruct H as [Hout ->]. do 2 (split; [done|]). intros env'.
  pose proof (getRpcUrl_outcome env' chainId) as H'.
  destruct (Metadata.getRpcUrl env' chainId) as [url'|msg'].
  - by destruct H'.
  - by destruct H' as [_ ->].
Qed.

(** X18. [getClient] builds the client of a chain once. After a call that
    returns, the chain's client is in the cache, the entries of all other
    chains are as they were, and every later call for the chain returns that
    same client without touching the cache, even if the environment has
    changed in between. A call that throws leaves the cache as it was; it
    throws only for a chain that is neither cached nor one of the chains of
    [getRpcUrl]. *)
Theorem getClient_builds_each_client_once (env env' : string -> option string)
    (clients : gmap Z string) (chainId : Z) :
  match Metadata.getClient env clients chainId with
  | (Metadata.Ok client, clients') =>
      clients' !! chainId = Some client /\
      (forall c, c <> chainId -> clients' !! c = clients !! c) /\
      (forall c x, clients !! c = Some x -> clients' !! c = Some x) /\
      Metadata.getClient env' clients' chainId = (Metadata.Ok client, clients')
  | (Metadata.Err msg, clients') =>
      clients' = clients /\ clients !! chainId = None /\ chainId ∉ rpcChains
  end.
Proof.
  unfold Metadata.getClient at 1.
  destruct (clients !! chainId) as [client|] eqn:Hc.
  - repeat split; [done..|]. unfold Metadata.getClient. by rewrite Hc.
  - pose proof (getRpcUrl_outcome env chainId) as H.
    destruct (Metadata.getRpcUrl env chainId) as [url|msg].
    + split; [by rewrite lookup_insert_eq|].
      split; [intros c Hne; by rewrite lookup_insert_ne|].
      split.
      * intros c x Hx. rewrite lookup_insert_ne; [done|]. congruence.
      * unfold Metadata.getClient. by rewrite lookup_insert_eq.
    + by destruct H.
Qed.

(** X19. A metadata fetch fails only for want of a client, and what it
    returns is well formed. [fetchTokenMetadataMulticall] throws only when
    the chain has no cached client and no RPC URL, and then leaves the cache
    as it was; rejected contract reads never make it throw. When it returns,
    the name and the symbol are not empty (a read that is rejected, empty,
    or empty once sanitised gives "unknown" or "UNKNOWN") and the decimals
    are at most 50. *)
Theorem fetched_metadata_is_well_formed (env : string -> option string)
    (clients : gmap Z string) (rpc : string -> Z -> Metadata.ContractReads)
    (address : string) (chainId : Z) :
  match Metadata.fetchTokenMetadataMulticall env clients rpc address chainId with
  | (Metadata.Ok metadata, clients') =>
      Metadata.name metadata <> "" /\
      Metadata.symbol metadata <> "" /\
      Metadata.decimals metadata <= 50 /\
      is_Some (clients' !! chainId)
  | (Metadata.Err msg, clients') =>
      clients' = clients /\ clients !! chainId = None /\ chainId ∉ rpcChains
  end.
Proof.
  unfold Metadata.fetchTokenMetadataMulticall.
  pose proof (getClient_cache env clients chainId) as H.
  destruct (Metadata.getClient env clients chainId) as [[client|msg] clients'];
    [|done].
  destruct H as (Hc & _).
  assert (Hor : forall a b, b <> "" -> Metadata.orString a b <> "")
    by (intros [|x a] b Hb; done).
  split; [by apply Hor|]. split; [by apply Hor|]. split; [|done].
  cbn [Metadata.decimals].
  destruct (_ && _) eqn:Hd; [|lia].
  apply andb_prop in Hd as [_ Hd]. by apply Z.leb_le in Hd.
Qed.

(** X20. Resolving metadata only ever adds the client of the requested
    chain to the client cache: every entry that was cached stays as it was,
    no entry of another chain appears, and a resolution that throws leaves
    the cache untouched (it throws only on a chain without RPC URL). *)
Theorem metadata_resolution_only_grows_the_cache {U : Utils}
    (env : string -> option string) (clients : gmap Z string)
    (rpc : string -> Z -> Metadata.ContractReads) (address : string) (chainId : Z) :
  let result := Metadata.getTokenMetadata env clients rpc address chainId in
  (forall c x, clients !! c = Some x -> snd result !! c = Some x) /\
  (forall c, c <> chainId -> snd result !! c = clients !! c) /\
  match fst result with
  | Metadata.Ok _ => True
  | Metadata.Err _ => snd result = clients /\ chainId ∉ rpcChains
  end.
Proof.
  cbv zeta. unfold Metadata.getTokenMetadata.
  destruct (_ =? _)%string; [done|].
  destruct (find _ _); [done|].
  unfold Metadata.fetchTokenMetadataMulticall.
  pose proof (getClient_cache env clients chainId) as H.
  destruct (Metadata.getClient env clients chainId) as [[client|msg] clients'].
  - destruct H as (_ & Hother & Hkeep). done.
  - destruct H as (-> & _ & Hno). done.
Qed.

(** X21. Metadata resolution does not depend on the letter case of the
    address. The native-token test and the override lookup both compare
    lower-cased addresses, so two spellings of an address that the contract
    reads do not tell apart resolve to the same metadata and leave the same
    cache. *)
Theorem metadata_resolution_ignores_letter_case {U : Utils}
    (env : string -> option string) (clients : gmap Z string)
    (rpc : string -> Z -> Metadata.ContractReads) (address address' : string)
    (chainId : Z) :
  Metadata.toLowerCase address = Metadata.toLowerCase address' ->
  rpc address chainId = rpc address' chainId ->
  Metadata.getTokenMetadata env clients rpc address chainId =
  Metadata.getTokenMetadata env clients rpc address' chainId.
Proof.
  intros Hcase Hrpc.
  unfold Metadata.getTokenMetadata, Metadata.fetchTokenMetadataMulticall.
  by rewrite Hcase, Hrpc.
Qed.

Lemma metadata_resolution_ignores_letter_case_witness :
  let rpc := fun (_ : string) (_ : Z) =>
    {| Metadata.read_name := None; Metadata.read_NAME := None;
       Metadata.read_symbol := None; Metadata.read_SYMBOL := None;
       Metadata.read_decimals := None |} in
  Metadata.getTokenMetadata (U := Sample.utils) (fun _ => None) ∅ rpc "0xOVERRIDE" 1 =
  Metadata.getTokenMetadata (U := Sample.utils) (fun _ => None) ∅ rpc "0xoverride" 1.
Proof.
  apply (metadata_resolution_ignores_letter_case (U := Sample.utils));
    reflexivity.
Defined.

(** ** Liquidity records and hook statistics *)

Lemma lacks_app_separator c t a : ~ lacks c (t +:+ String c a).
Proof.
  induction t as [|x t IH]; intros H.
  - by destruct H as [H _].
  - destruct H as [_ H]. by apply IH.
Qed.

(** The part after the last separator determines the split. *)
Lemma append_separator_inj c s s' a a' :
  lacks c a -> lacks c a' ->
  s +:+ String c a = s' +:+ String c a' -> s = s' /\ a = a'.
Proof.
  intros Ha Ha'. revert s'.
  induction s as [|x s IH]; intros [|x' s'] H.
  - by injection H as ->.
  - injection H as <- ->. by apply lacks_app_separator in Ha.
  - injection H as -> <-. by apply lacks_app_separator in Ha'.
  - injection H as -> H. apply IH in H as [-> ->]. done.
Qed.

Lemma modifyLiquidityKey_inj e e' :
  modifyLiquidityKey e = modifyLiquidityKey e' ->
  (ModifyLiquidityEvent.chainId e, ModifyLiquidityEvent.transactionHash e,
   ModifyLiquidityEvent.logIndex e) =
  (ModifyLiquidityEvent.chainId e', ModifyLiquidityEvent.transactionHash e',
   ModifyLiquidityEvent.logIndex e').
Proof.
  intros H.
  change (chainKey (ModifyLiquidityEvent.chainId e)
            (ModifyLiquidityEvent.transactionHash e +:+
             String "_" (pretty (ModifyLiquidityEvent.logIndex e))) =
          chainKey (ModifyLiquidityEvent.chainId e')
            (ModifyLiquidityEvent.transactionHash e' +:+
             String "_" (pretty (ModifyLiquidityEvent.logIndex e')))) in H.
  apply chainKey_inj in H as [-> H].
  apply append_separator_inj in H as [-> H]; [|apply lacks_pretty_Z..].
  by apply (inj pretty) in H as ->.
Qed.

Section Records.

Context {U : Utils}.

Local Arguments swapAmounts : simpl never.
Local Arguments liquidityAmounts : simpl never.
Local Arguments tickWrites : simpl never.

Lemma modifyLiquidities_process s ev :
  wfStore s ->
  modifyLiquidities (process s ev) = modifyLiquidities s \/
  exists e record, ev = ModifyLiquidityEv e /\
    modifyLiquidities (process s ev) =
      <[modifyLiquidityKey e := record]> (modifyLiquidities s).
Proof.
  intros Hwf. destruct ev as [e|e]; [left; apply swap_frame|].
  destruct (processed s (ModifyLiquidityEv e)) eqn:Hp;
    [|left; by rewrite process_unprocessed].
  destruct (liquidity_processed_store _ _ Hwf Hp)
    as (pool & pm & t0 & t1 & b & _ & _ & _ & _ & _ & ->).
  right. by eexists e, _.
Qed.

Lemma modifyLiquidities_kept s evs e0 :
  wfStore s -> noLiquidityChangeAt e0 evs ->
  modifyLiquidities (processAll s evs) !! modifyLiquidityKey e0 =
  modifyLiquidities s !! modifyLiquidityKey e0.
Proof.
  revert s. induction evs as [|ev evs IH]; intros s Hwf Hno; [done|].
  apply Forall_cons in Hno as [Hev Hno]. simpl.
  rewrite IH by (done || by apply wfStore_process).
  destruct (modifyLiquidities_process s ev Hwf) as [->|(e & r & -> & ->)]; [done|].
  apply lookup_insert_ne. intros Hk. by apply modifyLiquidityKey_inj in Hk.
Qed.

End Records.

(** X22. A ModifyLiquidity record, once stored, is found again. Records are
    keyed by chain, transaction hash and log index, and the key identifies
    that triple whatever characters the hash holds; so the record of a
    processed liquidity change is still stored under its key, with the
    event's pool, transaction, delta, range and log index, after any
    sequence of later events none of which is a liquidity change with the
    same chain, transaction hash and log index. *)
Theorem liquidity_record_is_kept {U : Utils} (s : Store)
    (e : ModifyLiquidityEvent.t) (evs : list Event) :
  wfStore s -> processed s (ModifyLiquidityEv e) = true ->
  noLiquidityChangeAt e evs ->
  exists record,
    modifyLiquidities (processAll s (ModifyLiquidityEv e :: evs))
      !! modifyLiquidityKey e = Some record /\
    ModifyLiquidity.id record = modifyLiquidityKey e /\
    ModifyLiquidity.pool_id record = poolKey (ModifyLiquidityEv e) /\
    ModifyLiquidity.transaction record = ModifyLiquidityEvent.transactionHash e /\
    ModifyLiquidity.amount record = ModifyLiquidityEvent.liquidityDelta e /\
    ModifyLiquidity.tickLower record = ModifyLiquidityEvent.tickLower e /\
    ModifyLiquidity.tickUpper record = ModifyLiquidityEvent.tickUpper e /\
    ModifyLiquidity.logIndex record = ModifyLiquidityEvent.logIndex e.
Proof.
  intros Hwf Hp Hno. cbn [processAll fold_left].
  change (fold_left process evs (process s (ModifyLiquidityEv e)))
    with (processAll (process s (ModifyLiquidityEv e)) evs).
  rewrite modifyLiquidities_kept by (done || by apply wfStore_process).
  destruct (liquidity_processed_store _ _ Hwf Hp)
    as (pool & pm & t0 & t1 & b & Hpool & _ & _ & _ & _ & ->).
  eexists. unfold liquidityStore; cbn [modifyLiquidities]. rewrite lookup_insert_eq.
  split; [reflexivity|]. split; [reflexivity|]. split; [|done].
  unfold liquidityRecord, liquidityEntity; cbn [ModifyLiquidity.pool_id].
  rewrite <- (wf_pools _ Hwf _ _ Hpool).
  apply (liquidityPoolBalances_balances e pool
           (liquidityAmounts e pool t0 t1).1 (liquidityAmounts e pool t0 t1).2).
Qed.

Lemma liquidity_record_is_kept_witness :
  let e := Sample.liquidityEvent (-10) 20 5 in
  exists record,
    modifyLiquidities
      (processAll (U := Sample.utils) Sample.store
         [ ModifyLiquidityEv e; SwapEv (Sample.swapEvent 0) ])
      !! modifyLiquidityKey e = Some record /\
    ModifyLiquidity.id record = modifyLiquidityKey e /\
    ModifyLiquidity.pool_id record = poolKey (ModifyLiquidityEv e) /\
    ModifyLiquidity.transaction record = "0xtx2" /\
    ModifyLiquidity.amount record = 5 /\
    ModifyLiquidity.tickLower record = -10 /\
    ModifyLiquidity.tickUpper record = 20 /\
    ModifyLiquidity.logIndex record = 3.
Proof.
  apply (liquidity_record_is_kept (U := Sample.utils) Sample.store
           (Sample.liquidityEvent (-10) 20 5) [SwapEv (Sample.swapEvent 0)]).
  - exact sample_store_wf.
  - reflexivity.
  - by repeat constructor.
Defined.

(** X23. The statistics of a hook count each swap through its pools as the
    Swap record does. After a processed swap of a hooked pool whose hook has
    statistics on record, the statistics have one more swap, their
    [totalVolumeUSD] has grown by exactly the [amountUSD] of the Swap record
    stored for the event (the tracked volume when it is positive, the
    untracked volume otherwise), and their [untrackedVolumeUSD] by what the
    pool's [untrackedVolumeUSD] grew by. *)
Theorem hook_statistics_count_the_swap {U : Utils} (s : Store) (e : SwapEvent.t)
    (pool : Pool.t) (stats : HookStats.t) :
  wfStore s -> wfHooks s -> processed s (SwapEv e) = true ->
  pools s !! poolKey (SwapEv e) = Some pool ->
  Pool.hooks pool <> ADDRESS_ZERO ->
  hookStatsOf s !! chainKey (SwapEvent.chainId e) (Pool.hooks pool) = Some stats ->
  exists stats' record pool',
    hookStatsOf (process s (SwapEv e)) !! chainKey (SwapEvent.chainId e) (Pool.hooks pool) =
      Some stats' /\
    swaps (process s (SwapEv e)) !! swapKey e = Some record /\
    pools (process s (SwapEv e)) !! poolKey (SwapEv e) = Some pool' /\
    HookStats.numberOfSwaps stats' = HookStats.numberOfSwaps stats + 1 /\
    HookStats.totalVolumeUSD stats' =
      BD.plus (HookStats.totalVolumeUSD stats) (Swap.amountUSD record) /\
    BD.minus (HookStats.untrackedVolumeUSD stats') (HookStats.untrackedVolumeUSD stats) =
      BD.minus (Pool.untrackedVolumeUSD pool') (Pool.untrackedVolumeUSD pool).
Proof.
  intros Hwf Hh Hp Hpool Hhook Hs.
  destruct (swap_processed_store _ _ Hwf Hp)
    as (pool0 & pm & t0 & t1 & Hpool0 & _ & _ & _ & ->).
  rewrite Hpool in Hpool0. injection Hpool0 as <-.
  unfold swapStore; cbn [hookStatsOf swaps pools].
  unfold loadedHookStats, isHooked.
  rewrite (proj2 (String.eqb_neq _ _) Hhook). cbn [negb]. rewrite Hs.
  rewrite (Hh _ _ Hs), !lookup_insert_eq.
  eexists _, _, _. do 3 (split; [reflexivity|]).
  split; [reflexivity|]. split; [reflexivity|].
  unfold swapHookStats, swappedPool, swapPool; cbn.
  unfold BD.plus, BD.minus. ring.
Qed.

Lemma hook_statistics_count_the_swap_witness :
  let e := Sample.swapEvent 0 in
  let s' := process (U := Sample.utils) SampleHooks.store (SwapEv e) in
  exists stats' record pool',
    hookStatsOf s' !! chainKey 1 (Pool.hooks SampleHooks.hookedPool) = Some stats' /\
    swaps s' !! swapKey e = Some record /\
    pools s' !! poolKey (SwapEv e) = Some pool' /\
    HookStats.numberOfSwaps stats' = HookStats.numberOfSwaps SampleHooks.stats + 1 /\
    HookStats.totalVolumeUSD stats' =
      BD.plus (HookStats.totalVolumeUSD SampleHooks.stats) (Swap.amountUSD record) /\
    BD.minus (HookStats.untrackedVolumeUSD stats')
             (HookStats.untrackedVolumeUSD SampleHooks.stats) =
      BD.minus (Pool.untrackedVolumeUSD pool')
               (Pool.untrackedVolumeUSD SampleHooks.hookedPool).
Proof.
  apply (hook_statistics_count_the_swap (U := Sample.utils) SampleHooks.store
           (Sample.swapEvent 0) SampleHooks.hookedPool SampleHooks.stats).
  - exact sample_hooks_wf.
  - exact sample_hooks_wfHooks.
  - reflexivity.
  - reflexivity.
  - discriminate.
  - reflexivity.
Defined.

(** ** Token volumes *)

Section Volumes.

Context {U : Utils}.

Local Arguments swapAmounts : simpl never.
Local Arguments liquidityAmounts : simpl never.

Lemma amountAbs_nonneg s e pool t0 t1 :
  (0 <= amount0Abs (swapAmountsOf s e pool t0 t1))%Qc /\
  (0 <= amount1Abs (swapAmountsOf s e pool t0 t1))%Qc.
Proof.
  unfold swapAmountsOf, swapAmounts; cbn [amount0Abs amount1Abs].
  rewrite !abs_by_sign. split; apply Qcabs_nonneg.
Qed.

Lemma Qcle_plus_nonneg (a x : Qc) : (0 <= x)%Qc -> (a <= BD.plus a x)%Qc.
Proof.
  intros Hx. unfold BD.plus. rewrite <- (Qcplus_0_r a) at 1.
  apply Qcplus_le_compat; [apply Qcle_refl|done].
Qed.

Lemma fundedPool_volumes e pool t0 t1 b :
  Pool.volumeToken0 (fundedPool e pool t0 t1 b) = Pool.volumeToken0 pool /\
  Pool.volumeToken1 (fundedPool e pool t0 t1 b) = Pool.volumeToken1 pool.
Proof.
  unfold fundedPool, liquidityPoolTvl, liquidityPoolBalances. cbn.
  by destruct (_ && _).
Qed.

Lemma volumes_step s ev k pool :
  wfStore s -> pools s !! k = Some pool ->
  exists pool', pools (process s ev) !! k = Some pool' /\
    (Pool.volumeToken0 pool <= Pool.volumeToken0 pool')%Qc /\
    (Pool.volumeToken1 pool <= Pool.volumeToken1 pool')%Qc.
Proof.
  intros Hwf Hk.
  assert (Hsame : exists pool', pools s !! k = Some pool' /\
            (Pool.volumeToken0 pool <= Pool.volumeToken0 pool')%Qc /\
            (Pool.volumeToken1 pool <= Pool.volumeToken1 pool')%Qc).
  { exists pool. split; [done|]. split; apply Qcle_refl. }
  destruct (processed s ev) eqn:Hp; [|by rewrite process_unprocessed].
  destruct ev as [e|e].
  - destruct (swap_processed_store _ _ Hwf Hp)
      as (pool0 & pm & t0 & t1 & Hpool0 & _ & _ & _ & ->).
    unfold swapStore; cbn [pools].
    destruct (decide (k = poolKey (SwapEv e))) as [->|Hne];
      [|by rewrite lookup_insert_ne].
    rewrite Hpool0 in Hk. injection Hk as ->. rewrite lookup_insert_eq.
    eexists. split; [reflexivity|].
    unfold swappedPool, swapPool; cbn [Pool.volumeToken0 Pool.volumeToken1
      Pool.with_totalValueLockedUSD Pool.with_totalValueLockedETH].
    destruct (amountAbs_nonneg s e pool t0 t1) as [Ha0 Ha1].
    split; apply Qcle_plus_nonneg; assumption.
  - destruct (liquidity_processed_store _ _ Hwf Hp)
      as (pool0 & pm & t0 & t1 & b & Hpool0 & _ & _ & _ & _ & ->).
    unfold liquidityStore; cbn [pools].
    destruct (decide (k = poolKey (ModifyLiquidityEv e))) as [->|Hne];
      [|by rewrite lookup_insert_ne].
    rewrite Hpool0 in Hk. injection Hk as ->. rewrite lookup_insert_eq.
    eexists. split; [reflexivity|].
    destruct (fundedPool_volumes e pool t0 t1 b) as [-> ->].
    split; apply Qcle_refl.
Qed.

End Volumes.

(** X24. The token volumes of a pool never decrease. A swap adds the
    absolute value of each decimal amount to the pool's [volumeToken0] and
    [volumeToken1], whichever way the swap goes, and a liquidity change
    leaves both as they are; so after any sequence of events a stored pool is
    still stored and both volumes are at least what they were. *)
Theorem pool_token_volumes_never_decrease {U : Utils} (s : Store)
    (evs : list Event) (k : string) (pool : Pool.t) :
  wfStore s -> pools s !! k = Some pool ->
  exists pool', pools (processAll s evs) !! k = Some pool' /\
    (Pool.volumeToken0 pool <= Pool.volumeToken0 pool')%Qc /\
    (Pool.volumeToken1 pool <= Pool.volumeToken1 pool')%Qc.
Proof.
  revert s pool. induction evs as [|ev evs IH]; intros s pool Hwf Hk.
  - exists pool. split; [done|]. split; apply Qcle_refl.
  - destruct (volumes_step s ev k pool Hwf Hk) as (pool1 & Hk1 & H0 & H1).
    destruct (IH _ pool1 (wfStore_process _ ev Hwf) Hk1) as (pool2 & Hk2 & H0' & H1').
    exists pool2. split; [done|].
    split; eapply Qcle_trans; eassumption.
Qed.

Lemma pool_token_volumes_never_decrease_witness :
  exists pool',
    pools (processAll (U := Sample.utils) Sample.store
             [ SwapEv (Sample.swapEvent 0);
               ModifyLiquidityEv (Sample.liquidityEvent (-10) 20 5);
               SwapEv (Sample.swapEvent 1) ])
      !! Sample.otherPool = Some pool' /\
    (Pool.volumeToken0 (Sample.usdcWethPool Sample.otherPool 2000 1 1000) <=
     Pool.volumeToken0 pool')%Qc /\
    (Pool.volumeToken1 (Sample.usdcWethPool Sample.otherPool 2000 1 1000) <=
     Pool.volumeToken1 pool')%Qc.
Proof.
  apply (pool_token_volumes_never_decrease (U := Sample.utils) Sample.store
           [ SwapEv (Sample.swapEvent 0);
             ModifyLiquidityEv (Sample.liquidityEvent (-10) 20 5);
             SwapEv (Sample.swapEvent 1) ]
           Sample.otherPool (Sample.usdcWethPool Sample.otherPool 2000 1 1000)).
  - exact sample_store_wf.
  - reflexivity.
Defined.

(** ** Sanitised strings *)

Lemma lastChar_cons a s :
  lastChar (String a s) = Some (default a (lastChar s)).
Proof.
  revert a. induction s as [|b s IH]; intros a; [done|].
  change (lastChar (String a (String b s))) with (lastChar (String b s)).
  rewrite IH. done.
Qed.

Lemma lastChar_rev_app s1 s2 :
  lastChar (String.rev_app s1 s2) =
  match lastChar s2 with Some c => Some c | None => firstChar s1 end.
Proof.
  revert s2. induction s1 as [|a s1 IH]; intros s2.
  - cbn. by destruct (lastChar s2).
  - cbn [String.rev_app firstChar]. rewrite IH, lastChar_cons.
    destruct s2 as [|b s2]; [done|]. by rewrite lastChar_cons.
Qed.

Lemma firstChar_rev_app s1 s2 :
  firstChar (String.rev_app s1 s2) =
  match lastChar s1 with Some c => Some c | None => firstChar s2 end.
Proof.
  revert s2. induction s1 as [|a s1 IH]; intros s2; [done|].
  cbn [String.rev_app]. rewrite IH, lastChar_cons.
  by destruct (lastChar s1).
Qed.

Lemma allChars_rev_app p s1 s2 :
  allChars p (String.rev_app s1 s2) = allChars p s1 && allChars p s2.
Proof.
  revert s2. induction s1 as [|a s1 IH]; intros s2; [done|].
  cbn [String.rev_app allChars]. rewrite IH. cbn [allChars].
  by destruct (p a), (allChars p s1), (allChars p s2).
Qed.

Lemma append_nil_r (s : string) : s +:+ "" = s.
Proof.
  induction s as [|a s IH]; [done|].
  change (String a (s +:+ "") = String a s). by rewrite IH.
Qed.

Lemma rev_app_rev_app s1 s2 s3 :
  String.rev_app (String.rev_app s1 s2) s3 = String.rev_app s2 (s1 +:+ s3).
Proof.
  revert s2 s3. induction s1 as [|a s1 IH]; intros s2 s3; [done|].
  cbn [String.rev_app]. by rewrite IH.
Qed.

Lemma rev_involutive (s : string) : String.rev (String.rev s) = s.
Proof. unfold String.rev. rewrite rev_app_rev_app. cbn. apply append_nil_r. Qed.

Lemma trimStart_cons c s :
  Metadata.trimStart (String c s) =
  if Ascii.eqb c " " then Metadata.trimStart s else String c s.
Proof. by destruct c as [[] [] [] [] [] [] [] []]. Qed.

Lemma firstChar_trimStart s : firstChar (Metadata.trimStart s) <> Some " "%char.
Proof.
  induction s as [|c s IH]; [done|]. rewrite trimStart_cons.
  destruct (Ascii.eqb_spec c " ") as [->|Hc]; [done|]. cbn. congruence.
Qed.

Lemma lastChar_trimStart s c :
  lastChar (Metadata.trimStart s) = Some c -> lastChar s = Some c.
Proof.
  induction s as [|a s IH]; [done|]. rewrite trimStart_cons.
  destruct (Ascii.eqb a " "); [|done].
  intros H. rewrite lastChar_cons, (IH H). done.
Qed.

Lemma allChars_trimStart p s :
  allChars p s = true -> allChars p (Metadata.trimStart s) = true.
Proof.
  induction s as [|a s IH]; [done|]. rewrite trimStart_cons.
  destruct (Ascii.eqb a " "); [|done].
  cbn [allChars]. intros H. apply andb_prop in H as [_ H]. auto.
Qed.

Lemma trimStart_id s : firstChar s <> Some " "%char -> Metadata.trimStart s = s.
Proof.
  destruct s as [|c s]; [done|]. rewrite trimStart_cons. cbn.
  destruct (Ascii.eqb_spec c " ") as [->|Hc]; [congruence|done].
Qed.

Lemma removeControl_clean s :
  allChars (fun c => negb (Metadata.isControl c)) (Metadata.removeControl s) = true.
Proof.
  induction s as [|c s IH]; [done|]. cbn [Metadata.removeControl].
  destruct (Metadata.isControl c) eqn:Hc; [done|].
  cbn [allChars]. by rewrite Hc, IH.
Qed.

Lemma removeControl_id s :
  allChars (fun c => negb (Metadata.isControl c)) s = true ->
  Metadata.removeControl s = s.
Proof.
  induction s as [|c s IH]; [done|]. cbn [allChars Metadata.removeControl].
  intros H. apply andb_prop in H as [Hc H].
  apply negb_true_iff in Hc. rewrite Hc. by rewrite IH.
Qed.

Lemma trim_clean p s :
  allChars p s = true ->
  allChars p (Metadata.trim s) = true /\
  firstChar (Metadata.trim s) <> Some " "%char /\
  lastChar (Metadata.trim s) <> Some " "%char.
Proof.
  intros Hs. unfold Metadata.trim, String.rev.
  set (a := Metadata.trimStart s).
  set (c := Metadata.trimStart (String.rev_app a "")).
  split; [|split].
  - rewrite allChars_rev_app, andb_true_r. apply allChars_trimStart.
    rewrite allChars_rev_app, andb_true_r. by apply allChars_trimStart.
  - rewrite firstChar_rev_app. cbn [firstChar].
    destruct (lastChar c) as [x|] eqn:Hx; [|done].
    apply lastChar_trimStart in Hx. rewrite lastChar_rev_app in Hx.
    cbn [lastChar] in Hx. rewrite <- Hx. apply firstChar_trimStart.
  - rewrite lastChar_rev_app. cbn [lastChar]. apply firstChar_trimStart.
Qed.

Lemma trim_id s :
  firstChar s <> Some " "%char -> lastChar s <> Some " "%char ->
  Metadata.trim s = s.
Proof.
  intros Hf Hl. unfold Metadata.trim. rewrite (trimStart_id s Hf).
  rewrite trimStart_id; [apply rev_involutive|].
  unfold String.rev. rewrite firstChar_rev_app. cbn [firstChar].
  by destruct (lastChar s).
Qed.

Lemma sanitizeString_trim str :
  Metadata.sanitizeString str = Metadata.trim (Metadata.removeControl str).
Proof. by destruct str. Qed.

(** X25. [sanitizeString] gives a clean string and is idempotent. On a
    string of 7-bit characters the result holds no control character
    (codes 0 to 31 and 127), neither starts nor ends with a space, and
    sanitising it again returns it unchanged. *)
Theorem sanitizeString_is_clean (str : string) :
  allChars isAscii str = true ->
  let out := Metadata.sanitizeString str in
  allChars (fun c => negb (Metadata.isControl c)) out = true /\
  firstChar out <> Some " "%char /\
  lastChar out <> Some " "%char /\
  Metadata.sanitizeString out = out.
Proof.
  intros _ out. subst out. rewrite sanitizeString_trim.
  destruct (trim_clean _ _ (removeControl_clean str)) as (Hclean & Hfirst & Hlast).
  do 3 (split; [done|]).
  rewrite sanitizeString_trim, (removeControl_id _ Hclean).
  by apply trim_id.
Qed.

(** A name padded with spaces around a tab and a NUL byte. *)
Lemma sanitizeString_is_clean_witness :
  let str :=
    String " " (String "D" (String (ascii_of_nat 9) (String "A"
      (String (ascii_of_nat 0) (String "I" (String " " EmptyString)))))) in
  Metadata.sanitizeString str = "DAI" /\
  allChars (fun c => negb (Metadata.isControl c)) (Metadata.sanitizeString str) = true /\
  firstChar (Metadata.sanitizeString str) <> Some " "%char /\
  lastChar (Metadata.sanitizeString str) <> Some " "%char /\
  Metadata.sanitizeString (Metadata.sanitizeString str) = Metadata.sanitizeString str.
Proof.
  split; [reflexivity|].
  apply (sanitizeString_is_clean
           (String " " (String "D" (String (ascii_of_nat 9) (String "A"
              (String (ascii_of_nat 0) (String "I" (String " " EmptyString)))))))).
  reflexivity.
Defined.
